(** * Copernicus marine toolkit: cached parallel downloader, crawlers, file names

    A shallow embedding of
    - [scrape_copernicus_enhanced.py]: [CacheManager], [ParallelDownloader]
      and [sanitize_filename] (the same function as in [scrape_copernicus.py]);
    - [deep_scraper.py]: [DeepCopernicusScraper.deep_crawl];
    - [multilevel_scraper.py]: [MultiLevelCopernicusScraper._crawl_level].

    Python objects become records, dictionaries become [gmap]s, sets become
    [gset]s.  Methods that touch the file system, the clock or the network
    are state transformers that either return a value or raise a Python
    exception; the state a raising call leaves behind is kept, as in Python.

    What the code gets from outside is a parameter: the MD5 digest, the JSON
    encoding of the index, the readings of the clock, the answers of the
    server, and, for the crawlers, what the HTML parser finds on a page and
    what [urllib.parse] makes of a locator.  The file system is a finite
    map from paths to contents with a set of directories; its operations
    fail the way the calls of [pathlib] and [shutil] do on a missing or
    misplaced path.  The worker threads of [download_batch] are not
    interleaved: a task runs as one step, in the order of completion. *)

From Stdlib Require Import ZArith Ascii String List Permutation Lia.
From Stdlib Require Import Numbers.DecimalString Numbers.DecimalZ.
From stdpp Require Import base decidable option list gmap strings sets.

#[local] Set Warnings "-clear-no-such-hyp".

Local Open Scope string_scope.
Local Open Scope list_scope.
Local Open Scope Z_scope.

(** ** Paths, bytes and exceptions *)

(** A [pathlib.Path] is the list of its components; the empty list is the
    current directory ['.'].  [p / name] appends a component, [p.parent]
    drops the last one and [p.name] is the last one. *)
Definition path := list string.
Definition bytes := list Byte.byte.

Definition path_div (p : path) (name : string) : path := p ++ [name].
Definition path_parent (p : path) : path := removelast p.
Definition path_name (p : path) : string := List.last p "".

Fixpoint join_components (p : path) : string :=
  match p with
  | [] => ""
  | [c] => c
  | c :: rest => c +:+ "/" +:+ join_components rest
  end.

(** [str(path)] *)
Definition path_str (p : path) : string :=
  match p with
  | [] => "."
  | _ => join_components p
  end.

Definition Z_to_string (z : Z) : string := NilZero.string_of_int (Z.to_int z).

(** The exceptions the modelled calls raise.  [RequestException] stands for
    what [requests] raises on a transport failure (timeout, refused or
    broken connection); it carries the text the library renders. *)
Inductive exn : Type :=
| FileNotFoundError (p : path)
| FileExistsError (p : path)
| IsADirectoryError (p : path)
| NotADirectoryError (p : path)
| SameFileError (src dst : path)
| RequestException (msg : string)
| HTTPError (status : Z) (reason url : string)
| ValueError (msg : string)
| KeyError (key : string)
| JSONDecodeError
| WebDriverException (msg : string).

Definition quoted (s : string) : string := "'" +:+ s +:+ "'".

(** [str(e)] *)
Definition exn_str (e : exn) : string :=
  match e with
  | FileNotFoundError p =>
      "[Errno 2] No such file or directory: " +:+ quoted (path_str p)
  | FileExistsError p => "[Errno 17] File exists: " +:+ quoted (path_str p)
  | IsADirectoryError p => "[Errno 21] Is a directory: " +:+ quoted (path_str p)
  | NotADirectoryError p => "[Errno 20] Not a directory: " +:+ quoted (path_str p)
  | SameFileError src dst =>
      quoted (path_str src) +:+ " and " +:+ quoted (path_str dst)
        +:+ " are the same file"
  | RequestException msg => msg
  | HTTPError status reason url =>
      Z_to_string status
        +:+ (if status <? 500 then " Client Error: " else " Server Error: ")
        +:+ reason +:+ " for url: " +:+ url
  | ValueError msg => msg
  | KeyError key => quoted key
  | JSONDecodeError => "Expecting value: line 1 column 1 (char 0)"
  | WebDriverException msg => "Message: " +:+ msg +:+ String "010"%char EmptyString
  end.

(** ** Computations that return or raise *)

Inductive outcome (A : Type) : Type :=
| Return (a : A)
| Raise (e : exn).
Arguments Return {A} a.
Arguments Raise {A} e.

Definition M (S A : Type) : Type := S → outcome A * S.

Definition ret {S A} (a : A) : M S A := fun s => (Return a, s).
Definition raise {S A} (e : exn) : M S A := fun s => (Raise e, s).
Definition bind {S A B} (m : M S A) (k : A → M S B) : M S B :=
  fun s => match m s with
           | (Return a, s') => k a s'
           | (Raise e, s') => (Raise e, s')
           end.
Definition get {S} : M S S := fun s => (Return s, s).
Definition put {S} (s : S) : M S unit := fun _ => (Return tt, s).
Definition modify {S} (f : S → S) : M S unit := fun s => (Return tt, f s).

(** [try: body  except Exception as e: handler(e)] *)
Definition try_except {S A} (body : M S A) (handler : exn → M S A) : M S A :=
  fun s => match body s with
           | (Return a, s') => (Return a, s')
           | (Raise e, s') => handler e s'
           end.

Declare Scope py_scope.
Delimit Scope py_scope with py.
Notation "x <- c ;; k" := (bind c (fun x => k))
  (at level 100, c at next level, right associativity) : py_scope.
Notation "c ;;; k" := (bind c (fun _ => k))
  (at level 100, right associativity) : py_scope.
Local Open Scope py_scope.

Definition is_return {A} (o : outcome A) : bool :=
  match o with Return _ => true | Raise _ => false end.

(** ** The file system *)

Record FS : Type := mkFS {
  files : gmap path bytes;
  dirs : gset path
}.

Definition is_file (fs : FS) (p : path) : bool :=
  bool_decide (is_Some (files fs !! p)).
(** The current directory always exists. *)
Definition is_dir (fs : FS) (p : path) : bool :=
  bool_decide (p = [] ∨ p ∈ dirs fs).
(** [Path.exists()] *)
Definition path_exists (fs : FS) (p : path) : bool := is_file fs p || is_dir fs p.

Definition st_size_of_directory : Z := 4096.

(** [Path.stat().st_size] *)
Definition stat_size (fs : FS) (p : path) : outcome Z :=
  match files fs !! p with
  | Some data => Return (Z.of_nat (length data))
  | None => if is_dir fs p then Return st_size_of_directory
            else Raise (FileNotFoundError p)
  end.

(** [open(p, 'rb').read()] *)
Definition read_file (fs : FS) (p : path) : outcome bytes :=
  match files fs !! p with
  | Some data => Return data
  | None => if is_dir fs p then Raise (IsADirectoryError p)
            else Raise (FileNotFoundError p)
  end.

(** What [open(p, 'w')] checks before it creates or truncates [p]. *)
Definition open_for_write (fs : FS) (p : path) : outcome unit :=
  if is_dir fs p then Raise (IsADirectoryError p)
  else if is_dir fs (path_parent p) then Return tt
  else if is_file fs (path_parent p) then Raise (NotADirectoryError p)
  else Raise (FileNotFoundError p).

Definition set_file (fs : FS) (p : path) (data : bytes) : FS :=
  mkFS (<[p := data]> (files fs)) (dirs fs).

(** [with open(p, 'wb') as f: f.write(data)] *)
Definition write_file (fs : FS) (p : path) (data : bytes) : outcome unit * FS :=
  match open_for_write fs p with
  | Return _ => (Return tt, set_file fs p data)
  | Raise e => (Raise e, fs)
  end.

(** [Path.unlink()] *)
Definition unlink (fs : FS) (p : path) : outcome unit * FS :=
  if is_file fs p then (Return tt, mkFS (delete p (files fs)) (dirs fs))
  else if is_dir fs p then (Raise (IsADirectoryError p), fs)
  else (Raise (FileNotFoundError p), fs).

(** [Path.mkdir(exist_ok=True)] *)
Definition mkdir_exist_ok (fs : FS) (p : path) : outcome unit * FS :=
  if is_dir fs p then (Return tt, fs)
  else if is_file fs p then (Raise (FileExistsError p), fs)
  else if is_dir fs (path_parent p)
       then (Return tt, mkFS (files fs) ({[p]} ∪ dirs fs))
  else if is_file fs (path_parent p) then (Raise (NotADirectoryError p), fs)
  else (Raise (FileNotFoundError p), fs).

(** The non-empty prefixes of a path, shortest first. *)
Fixpoint path_prefixes (p : path) : list path :=
  match p with
  | [] => []
  | c :: rest => [c] :: map (cons c) (path_prefixes rest)
  end.

(** [Path.mkdir(parents=True, exist_ok=True)]: fails when the path or one of
    its ancestors is a regular file, otherwise every missing ancestor and
    the path itself become directories. *)
Definition mkdir_parents (fs : FS) (p : path) : outcome unit * FS :=
  match List.find (is_file fs) (path_prefixes p) with
  | Some q =>
      (Raise (if bool_decide (q = p) then FileExistsError p
              else NotADirectoryError p), fs)
  | None => (Return tt, mkFS (files fs) (list_to_set (path_prefixes p) ∪ dirs fs))
  end.

(** [shutil.copy2(src, dst)]: a directory as destination means the file of
    the same name inside it; copying a file onto itself is refused; the
    source is opened before the destination. *)
Definition copy2 (fs : FS) (src dst : path) : outcome unit * FS :=
  let dst' := if is_dir fs dst then path_div dst (path_name src) else dst in
  if bool_decide (src = dst') && path_exists fs src
  then (Raise (SameFileError src dst'), fs)
  else match read_file fs src with
       | Raise e => (Raise e, fs)
       | Return data => write_file fs dst' data
       end.

(** ** The environment: hashing, JSON, the clock and the network *)

(** One record of the cache index: the dictionary that [add_to_cache]
    stores under the cache key.  ['date'] is written with [isoformat()] and
    read back with [fromisoformat()]; the pair is the identity on naive
    datetimes, so the field holds the instant itself, in microseconds. *)
Record CacheInfo : Type := mkCacheInfo {
  info_url : string;
  info_filename : string;
  info_original_name : string;
  info_date : Z;
  info_size : Z
}.

(** [int(response.headers.get('content-length', 0))] sees no header, a
    header that is an integer literal, or one that is not. *)
Inductive ContentLength : Type :=
| CLAbsent
| CLInt (n : Z)
| CLInvalid (raw : string).

(** A streamed response: the chunks [iter_content] yields and, when the
    connection breaks while the body is read, the text of the exception
    raised after the last of them. *)
Record Response : Type := mkResponse {
  status_code : Z;
  reason : string;
  content_length : ContentLength;
  chunks : list bytes;
  stream_error : option string
}.

(** [session.get] raises (timeout, connection failure) or answers. *)
Inductive HttpReply : Type :=
| GetRaises (msg : string)
| Responds (r : Response).

(** What the code takes from its libraries and the outside world.
    [datetime_now n] is the [n]-th reading of the clock, in microseconds;
    [http_get n url] answers the GET for [url] when [n] requests were made
    before it. *)
Record Env : Type := mkEnv {
  md5_hexdigest : string → string;
  json_dump : gmap string CacheInfo → bytes;
  json_load : bytes → option (gmap string CacheInfo);
  datetime_now : nat → Z;
  http_get : nat → string → HttpReply
}.

(** [timedelta(days=n)] in microseconds *)
Definition timedelta_days (n : Z) : Z := n * 86400000000.

(** The mutable world outside the Python objects: files, the number of
    clock readings so far, and the GET requests sent, latest first. *)
Record World : Type := mkWorld {
  w_fs : FS;
  w_clock : nat;
  w_requests : list string
}.

Definition world_with_fs (w : World) (fs : FS) : World :=
  mkWorld fs (w_clock w) (w_requests w).

(** ** CacheManager *)

Record CacheManager : Type := mkCacheManager {
  cache_dir : path;
  expire_days : Z;
  index : gmap string CacheInfo
}.

Definition index_file (self : CacheManager) : path :=
  path_div (cache_dir self) "cache_index.json".

Definition with_index (self : CacheManager) (ix : gmap string CacheInfo)
  : CacheManager :=
  mkCacheManager (cache_dir self) (expire_days self) ix.

Definition default_expire_days : Z := 30.

Section WorldOps.
Context {X : Type}.

(** Run a file-system operation on the world's file system. *)
Definition fs_do {A} (op : FS → outcome A * FS) : M (World * X) A :=
  fun '(w, x) => let '(r, fs') := op (w_fs w) in (r, (world_with_fs w fs', x)).

Definition fs_ask {A} (q : FS → outcome A) : M (World * X) A :=
  fun s => (q (w_fs (fst s)), s).

Definition fs_test (q : FS → bool) : M (World * X) bool :=
  fun s => (Return (q (w_fs (fst s))), s).

(** [datetime.now()] *)
Definition now (E : Env) : M (World * X) Z :=
  fun '(w, x) =>
    (Return (datetime_now E (w_clock w)),
     (mkWorld (w_fs w) (S (w_clock w)) (w_requests w), x)).

(** [session.get(url, stream=True, timeout=60)] *)
Definition session_get (E : Env) (url : string) : M (World * X) Response :=
  fun '(w, x) =>
    let w' := mkWorld (w_fs w) (w_clock w) (url :: w_requests w) in
    match http_get E (length (w_requests w)) url with
    | GetRaises msg => (Raise (RequestException msg), (w', x))
    | Responds r => (Return r, (w', x))
    end.
End WorldOps.

Section CacheManagerMethods.
Variable E : Env.

Definition CM (A : Type) : Type := M (World * CacheManager) A.

Definition self_ : CM CacheManager := fun s => (Return (snd s), s).
Definition set_index (ix : gmap string CacheInfo) : CM unit :=
  fun '(w, self) => (Return tt, (w, with_index self ix)).

Definition _load_index (dir : path) : M (World * unit) (gmap string CacheInfo) :=
  exists_ <- fs_test (fun fs => path_exists fs (path_div dir "cache_index.json")) ;;
  if exists_ : bool then
    data <- fs_ask (fun fs => read_file fs (path_div dir "cache_index.json")) ;;
    match json_load E data with
    | Some ix => ret ix
    | None => raise JSONDecodeError
    end
  else ret ∅.

(** [CacheManager(cache_dir, expire_days)]; the state is the world alone,
    the object is the result. *)
Definition CacheManager_init (dir : path) (days : Z)
  : M (World * unit) CacheManager :=
  fs_do (fun fs => mkdir_exist_ok fs dir) ;;;
  ix <- _load_index dir ;;
  ret (mkCacheManager dir days ix).

Definition _save_index : CM unit :=
  self <- self_ ;;
  fs_do (fun fs => write_file fs (index_file self) (json_dump E (index self))).

Definition _get_cache_key (url : string) : string := md5_hexdigest E url.

Definition remove_cache (url : string) : CM unit :=
  let cache_key := _get_cache_key url in
  self <- self_ ;;
  match index self !! cache_key with
  | Some cache_info =>
      let cache_file := path_div (cache_dir self) (info_filename cache_info) in
      exists_ <- fs_test (fun fs => path_exists fs cache_file) ;;
      (if exists_ : bool then fs_do (fun fs => unlink fs cache_file) else ret tt) ;;;
      set_index (delete cache_key (index self)) ;;;
      _save_index
  | None => ret tt
  end.

Definition is_cached (url : string) : CM bool :=
  let cache_key := _get_cache_key url in
  self <- self_ ;;
  match index self !! cache_key with
  | None => ret false
  | Some cache_info =>
      let cached_date := info_date cache_info in
      t <- now E ;;
      if timedelta_days (expire_days self) <? t - cached_date then
        remove_cache url ;;; ret false
      else
        let cache_file := path_div (cache_dir self) (info_filename cache_info) in
        fs_test (fun fs => path_exists fs cache_file)
  end.

Definition get_cached_file (url : string) : CM (option path) :=
  hit <- is_cached url ;;
  if negb hit then ret None
  else
    let cache_key := _get_cache_key url in
    self <- self_ ;;
    match index self !! cache_key with
    | Some cache_info =>
        ret (Some (path_div (cache_dir self) (info_filename cache_info)))
    | None => raise (KeyError cache_key)
    end.

Definition add_to_cache (url : string) (source_file : path) : CM path :=
  let cache_key := _get_cache_key url in
  self <- self_ ;;
  let cache_filename := cache_key +:+ "_" +:+ path_name source_file in
  let cache_file := path_div (cache_dir self) cache_filename in
  fs_do (fun fs => copy2 fs source_file cache_file) ;;;
  t <- now E ;;
  sz <- fs_ask (fun fs => stat_size fs cache_file) ;;
  set_index (<[cache_key := mkCacheInfo url cache_filename
                              (path_name source_file) t sz]> (index self)) ;;;
  _save_index ;;;
  ret cache_file.
End CacheManagerMethods.

(** ** ParallelDownloader *)

(** The dictionary [download_file] returns. *)
Record DownloadResult : Type := mkResult {
  res_url : string;
  res_filepath : string;
  res_success : bool;
  res_cached : bool;
  res_size : Z;
  res_error : option string
}.

Definition set_success (r : DownloadResult) (b : bool) : DownloadResult :=
  mkResult (res_url r) (res_filepath r) b (res_cached r) (res_size r) (res_error r).
Definition set_cached (r : DownloadResult) (b : bool) : DownloadResult :=
  mkResult (res_url r) (res_filepath r) (res_success r) b (res_size r) (res_error r).
Definition set_size (r : DownloadResult) (n : Z) : DownloadResult :=
  mkResult (res_url r) (res_filepath r) (res_success r) (res_cached r) n (res_error r).
Definition set_error (r : DownloadResult) (msg : string) : DownloadResult :=
  mkResult (res_url r) (res_filepath r) (res_success r) (res_cached r) (res_size r)
           (Some msg).

(** A download task: [(url, path)]. *)
Definition Task : Type := string * path.

(** The downloader's state: the world and [self.cache_manager]. *)
Definition DL (A : Type) : Type := M (World * option CacheManager) A.

(** Inside the [try] block of [download_file] the local [result] is part of
    the state, so that the handler sees the fields set before the raise. *)
Definition Body (A : Type) : Type :=
  M (DownloadResult * (World * option CacheManager)) A.

Definition in_body {A} (m : DL A) : Body A :=
  fun '(r, s) => let '(o, s') := m s in (o, (r, s')).

Definition update_result (f : DownloadResult → DownloadResult) : Body unit :=
  fun '(r, s) => (Return tt, (f r, s)).

(** [self.cache_manager and self.cache_manager.m(...)]: call a method of the
    cache manager when there is one and store back the object it leaves;
    [absent] is the value without a cache manager. *)
Definition cache_call {A} (m : CM A) (absent : A) : DL A :=
  fun '(w, cache_manager) =>
    match cache_manager with
    | Some cm => let '(o, (w', cm')) := m (w, cm) in (o, (w', Some cm'))
    | None => (Return absent, (w, None))
    end.

Definition nonempty_chunk (c : bytes) : bool :=
  match c with [] => false | _ => true end.

Section ParallelDownloaderMethods.
Variable E : Env.

(** [response.raise_for_status()] *)
Definition raise_for_status (url : string) (r : Response) : DL unit :=
  if (400 <=? status_code r) && (status_code r <? 600)
  then raise (HTTPError (status_code r) (reason r) url)
  else ret tt.

(** [int(response.headers.get('content-length', 0))] *)
Definition total_size_of (r : Response) : DL Z :=
  match content_length r with
  | CLAbsent => ret 0
  | CLInt n => ret n
  | CLInvalid raw =>
      raise (ValueError ("invalid literal for int() with base 10: " +:+ quoted raw))
  end.

(** [with open(filepath, 'wb') as f:] and the loop over
    [response.iter_content]: the file is created empty, every non-empty
    chunk is appended, and a connection that breaks raises after the
    chunks it delivered were written. *)
Definition stream_to_file (filepath : path) (r : Response) : DL unit :=
  fs_do (fun fs => write_file fs filepath []) ;;;
  fs_do (fun fs => (Return tt,
                    set_file fs filepath (concat (List.filter nonempty_chunk (chunks r))))) ;;;
  match stream_error r with
  | Some msg => raise (RequestException msg)
  | None => ret tt
  end.

(** The cache check: [use_cache and self.cache_manager and
    self.cache_manager.is_cached(url)], then [get_cached_file(url)], which
    asks [is_cached] once more. *)
Definition lookup_cache (url : string) (use_cache : bool) : DL (option path) :=
  hit <- (if use_cache then cache_call (is_cached E url) false else ret false) ;;
  if hit : bool then cache_call (get_cached_file E url) None else ret None.

(** The copy out of the cache, up to [return result]. *)
Definition serve_from_cache (cached_file filepath : path) : Body unit :=
  in_body (fs_do (fun fs => copy2 fs cached_file filepath)) ;;;
  update_result (fun r => set_success r true) ;;;
  update_result (fun r => set_cached r true) ;;;
  sz <- in_body (fs_ask (fun fs => stat_size fs filepath)) ;;
  update_result (fun r => set_size r sz).

(** The download: the GET, the status check, the file written. *)
Definition fetch_to_file (url : string) (filepath : path) : Body unit :=
  response <- in_body (session_get E url) ;;
  in_body (raise_for_status url response) ;;;
  total_size <- in_body (total_size_of response) ;;
  in_body (fs_do (fun fs => mkdir_parents fs (path_parent filepath))) ;;;
  in_body (stream_to_file filepath response) ;;;
  update_result (fun r => set_success r true) ;;;
  sz <- in_body (fs_ask (fun fs => stat_size fs filepath)) ;;
  update_result (fun r => set_size r sz).

(** [if use_cache and self.cache_manager and result['success']:
    self.cache_manager.add_to_cache(url, filepath)]; [success] is true
    when this line is reached. *)
Definition store_in_cache (url : string) (filepath : path) (use_cache : bool)
  : DL unit :=
  if use_cache then cache_call (add_to_cache E url filepath ;;; ret tt) tt
  else ret tt.

(** The [try] block of [download_file]. *)
Definition download_file_body (url : string) (filepath : path) (use_cache : bool)
  : Body unit :=
  cached_file <- in_body (lookup_cache url use_cache) ;;
  match cached_file with
  | Some cached_path => serve_from_cache cached_path filepath
  | None =>
      fetch_to_file url filepath ;;;
      in_body (store_in_cache url filepath use_cache)
  end.

Definition download_file (url : string) (filepath : path) (use_cache : bool)
  : DL DownloadResult :=
  fun s =>
    let result := mkResult url (path_str filepath) false false 0 None in
    match download_file_body url filepath use_cache (result, s) with
    | (Return _, (result', s')) => (Return result', s')
    | (Raise e, (result', s')) => (Return (set_error result' (exn_str e)), s')
    end.

(** The tasks of a batch, run one after the other in the given order. *)
Fixpoint run_tasks (tasks : list Task) (use_cache : bool)
  : DL (list DownloadResult) :=
  match tasks with
  | [] => ret []
  | (url, p) :: rest =>
      result <- download_file url p use_cache ;;
      results <- run_tasks rest use_cache ;;
      ret (result :: results)
  end.

(** [download_batch]: the pool runs the tasks concurrently and the results
    are appended as the tasks complete.  A task is one atomic step here;
    [completion_order] is the order in which the pool completes a batch. *)
Definition download_batch (completion_order : list Task → list Task)
    (download_tasks : list Task) (use_cache : bool)
  : DL (list DownloadResult) :=
  run_tasks (completion_order download_tasks) use_cache.
End ParallelDownloaderMethods.

(** ** sanitize_filename *)

(** A Python [str] is processed as the list of its characters.  The code
    tells apart the nine forbidden characters, the space and the underscore
    only; every other character, whatever its code, is passed on as it is. *)
Definition double_quote : ascii := "034"%char.

(** The character class of the first [re.sub]: the nine characters that a
    file name must not hold. *)
Definition forbidden_chars : list ascii :=
  ["<"; ">"; ":"; double_quote; "/"; "\"; "|"; "?"; "*"]%char.

Definition is_forbidden (c : ascii) : bool := existsb (Ascii.eqb c) forbidden_chars.
Definition is_underscore (c : ascii) : bool := Ascii.eqb c "_"%char.

(** The first [re.sub]: every character of the class is deleted. *)
Definition remove_forbidden (s : list ascii) : list ascii :=
  List.filter (fun c => negb (is_forbidden c)) s.

(** [s.replace(' ', '_')] *)
Definition replace_spaces (s : list ascii) : list ascii :=
  map (fun c => if Ascii.eqb c " "%char then "_"%char else c) s.

(** [re.sub(r'_+', '_', s)]: every maximal run of underscores becomes one.
    [after_underscore] tells that the previous character was one. *)
Fixpoint squeeze_underscores (after_underscore : bool) (s : list ascii) : list ascii :=
  match s with
  | [] => []
  | c :: rest =>
      if is_underscore c then
        if after_underscore then squeeze_underscores true rest
        else c :: squeeze_underscores true rest
      else c :: squeeze_underscores false rest
  end.

Fixpoint lstrip_underscores (s : list ascii) : list ascii :=
  match s with
  | [] => []
  | c :: rest => if is_underscore c then lstrip_underscores rest else s
  end.

Fixpoint rstrip_underscores (s : list ascii) : list ascii :=
  match s with
  | [] => []
  | c :: rest =>
      match rstrip_underscores rest with
      | [] => if is_underscore c then [] else [c]
      | rest' => c :: rest'
      end
  end.

(** [s.strip('_')] *)
Definition strip_underscores (s : list ascii) : list ascii :=
  rstrip_underscores (lstrip_underscores s).

(** [s[:50] if len(s) > 50 else s] *)
Definition cap_length (s : list ascii) : list ascii :=
  if (50 <? length s)%nat then firstn 50 s else s.

Definition sanitize_chars (filename : list ascii) : list ascii :=
  let filename := remove_forbidden filename in
  let filename := replace_spaces filename in
  let filename := squeeze_underscores false filename in
  let filename := strip_underscores filename in
  cap_length filename.

Definition sanitize_filename (filename : string) : string :=
  string_of_list_ascii (sanitize_chars (list_ascii_of_string filename)).

(** ** The crawlers *)

(** [s.lower()] on ASCII letters *)
Definition ascii_lower (c : ascii) : ascii :=
  let n := nat_of_ascii c in
  if ((65 <=? n) && (n <=? 90))%nat then ascii_of_nat (n + 32) else c.

Fixpoint str_lower (s : string) : string :=
  match s with
  | EmptyString => EmptyString
  | String c rest => String (ascii_lower c) (str_lower rest)
  end.

(** [needle in hay] *)
Fixpoint str_contains (needle hay : string) : bool :=
  String.prefix needle hay ||
  match hay with
  | EmptyString => false
  | String _ rest => str_contains needle rest
  end.

(** An [<a href=...>] element: [link.get('href')] and
    [link.get_text(strip=True)]. *)
Record Anchor : Type := mkAnchor {
  href : string;
  anchor_text : string
}.

Section Crawlers.
(** The dictionaries the crawlers collect. *)
Variable Resource : Type.
(** [urllib.parse.urljoin] and [urlparse(u).netloc], taken as total: an
    exception of theirs would end the page in the handler of the crawler,
    with the resources found so far. *)
Variable urljoin : string → string → string.
Variable netloc : string → string.

(** *** DeepCopernicusScraper.deep_crawl *)

(** What one page gives [deep_crawl]: the anchors of
    [soup.find_all('a', href=True)] in document order, the resources that
    steps 1 to 4 append to [found_resources], and whether one of those
    steps raised (the handler then ends the page with what was found). *)
Record DeepPage : Type := mkDeepPage {
  all_links : list Anchor;
  page_found : list Resource;
  page_raised : bool
}.

(** [crawl_log] is what the method prints on a visit: depth and locator,
    latest first. *)
Record DeepCopernicusScraper : Type := mkDeep {
  max_depth : Z;
  visited_urls : gset string;
  crawl_log : list (Z * string)
}.

(** [session.get(url)] with [raise_for_status()] and the parse: [None]
    when one of them raises. *)
Variable deep_get : string → option DeepPage.

Definition relevant_keywords : list string :=
  ["tutorial"; "notebook"; "example"; "demo"; "training";
   "learn"; "education"; "material"; "resource"; "download";
   "data"; "dataset"; "file"; "github"; "gitlab"; "code"].

Definition is_relevant (link : Anchor) : bool :=
  let link_text := str_lower (anchor_text link) in
  existsb (fun keyword => str_contains keyword link_text
                          || str_contains keyword (str_lower (href link)))
          relevant_keywords.

Definition deep_visit (self : DeepCopernicusScraper) (depth : Z) (url : string)
  : DeepCopernicusScraper :=
  mkDeep (max_depth self) ({[url]} ∪ visited_urls self)
         ((depth, url) :: crawl_log self).

(** Step 5, the loop over [all_links[:20]]; [recurse] is the recursive
    call. *)
Fixpoint deep_follow
    (recurse : string → Z → DeepCopernicusScraper
               → option (list Resource * DeepCopernicusScraper))
    (url : string) (depth : Z) (links : list Anchor)
    (found_resources : list Resource) (self : DeepCopernicusScraper)
  : option (list Resource * DeepCopernicusScraper) :=
  match links with
  | [] => Some (found_resources, self)
  | link :: rest =>
      if is_relevant link then
        let absolute_url := urljoin url (href link) in
        if negb (String.eqb (netloc absolute_url) (netloc url)) then
          deep_follow recurse url depth rest found_resources self
        else if bool_decide (absolute_url ∉ visited_urls self) then
          match recurse absolute_url (depth + 1) self with
          | Some (sub_resources, self') =>
              deep_follow recurse url depth rest
                          (found_resources ++ sub_resources) self'
          | None => None
          end
        else deep_follow recurse url depth rest found_resources self
      else deep_follow recurse url depth rest found_resources self
  end.

(** [deep_crawl(url, depth)]; [None] only when the fuel runs out. *)
Fixpoint deep_crawl (fuel : nat) (url : string) (depth : Z)
    (self : DeepCopernicusScraper)
  : option (list Resource * DeepCopernicusScraper) :=
  match fuel with
  | O => None
  | S fuel' =>
      if (max_depth self <? depth) || bool_decide (url ∈ visited_urls self)
      then Some ([], self)
      else
        let self := deep_visit self depth url in
        match deep_get url with
        | None => Some ([], self)
        | Some page =>
            if page_raised page then Some (page_found page, self)
            else if depth <? max_depth self then
              deep_follow (deep_crawl fuel') url depth
                          (firstn 20 (all_links page)) (page_found page) self
            else Some (page_found page, self)
        end
  end.

(** Fuel that a call at [depth] cannot exhaust. *)
Definition crawl_fuel (max_depth depth : Z) : nat :=
  S (Z.to_nat (max_depth + 1 - depth)).

(** *** MultiLevelCopernicusScraper._crawl_level *)

(** What one page gives [_crawl_level]: the result of
    [_find_direct_downloads], the [href]s of the elements that the two
    searches of [_find_download_buttons] return (those with a [href]),
    the [href]s of the page's anchors, and the resources step 4 appends. *)
Record LevelPage : Type := mkLevelPage {
  direct_downloads : list Resource;
  button_hrefs : list string;
  anchor_hrefs : list string;
  external_resources : list Resource
}.

(** The lines the method prints, with full locators: a visit, a download
    button followed from a page, a sub-page followed from a page. *)
Inductive Event : Type :=
| Level (depth : Z) (url : string)
| ButtonClick (page : string) (depth : Z) (btn_url : string)
| SubPage (page : string) (depth : Z) (sub_url : string).

Record MultiLevelCopernicusScraper : Type := mkMulti {
  visited : gset string;
  printed : list Event
}.

Variable level_get : string → option LevelPage.
(** [list(set(xs))]: the elements of [xs] without repetition, in the
    iteration order of the set. *)
Variable list_of_set : list string → list string.

Definition _find_download_buttons (self : MultiLevelCopernicusScraper)
    (page : LevelPage) (base_url : string) : list string :=
  list_of_set
    (List.filter (fun absolute_url => bool_decide (absolute_url ∉ visited self))
                 (map (urljoin base_url) (button_hrefs page))).

Definition subpage_keywords : list string :=
  ["tutorial"; "training"; "exercise"; "example"; "notebook"; "data"].

Definition _find_tutorial_subpages (page : LevelPage) (base_url : string)
  : list string :=
  let base_domain := netloc base_url in
  list_of_set
    (flat_map
       (fun keyword =>
          flat_map
            (fun href =>
               if str_contains keyword (str_lower href)
                  && negb (String.eqb href "") && negb (String.prefix "#" href)
               then
                 let absolute_url := urljoin base_url href in
                 if String.eqb (netloc absolute_url) base_domain
                 then [absolute_url] else []
               else [])
            (anchor_hrefs page))
       subpage_keywords).

Definition log_event (self : MultiLevelCopernicusScraper) (e : Event)
  : MultiLevelCopernicusScraper :=
  mkMulti (visited self) (e :: printed self).

(** Step 2, the loop over the download buttons. *)
Fixpoint follow_buttons
    (recurse : string → Z → MultiLevelCopernicusScraper
               → option (list Resource * MultiLevelCopernicusScraper))
    (url : string) (depth : Z) (download_buttons : list string)
    (found_resources : list Resource) (self : MultiLevelCopernicusScraper)
  : option (list Resource * MultiLevelCopernicusScraper) :=
  match download_buttons with
  | [] => Some (found_resources, self)
  | btn_url :: rest =>
      match recurse btn_url (depth + 1) (log_event self (ButtonClick url depth btn_url)) with
      | Some (sub_resources, self') =>
          follow_buttons recurse url depth rest
                         (found_resources ++ sub_resources) self'
      | None => None
      end
  end.

(** Step 3, the loop over [sub_pages[:5]]. *)
Fixpoint follow_subpages
    (recurse : string → Z → MultiLevelCopernicusScraper
               → option (list Resource * MultiLevelCopernicusScraper))
    (url : string) (depth : Z) (sub_pages : list string)
    (found_resources : list Resource) (self : MultiLevelCopernicusScraper)
  : option (list Resource * MultiLevelCopernicusScraper) :=
  match sub_pages with
  | [] => Some (found_resources, self)
  | sub_url :: rest =>
      if bool_decide (sub_url ∉ visited self) then
        match recurse sub_url (depth + 1) (log_event self (SubPage url depth sub_url)) with
        | Some (sub_resources, self') =>
            follow_subpages recurse url depth rest
                            (found_resources ++ sub_resources) self'
        | None => None
        end
      else follow_subpages recurse url depth rest found_resources self
  end.

(** [_crawl_level(url, depth, max_depth)]; [None] only when the fuel runs
    out. *)
Fixpoint _crawl_level (fuel : nat) (url : string) (depth max_depth : Z)
    (self : MultiLevelCopernicusScraper)
  : option (list Resource * MultiLevelCopernicusScraper) :=
  match fuel with
  | O => None
  | S fuel' =>
      if (max_depth <? depth) || bool_decide (url ∈ visited self)
      then Some ([], self)
      else
        let self := mkMulti ({[url]} ∪ visited self)
                            (Level depth url :: printed self) in
        match level_get url with
        | None => Some ([], self)
        | Some page =>
            let found_resources := direct_downloads page in
            let download_buttons := _find_download_buttons self page url in
            match follow_buttons (fun u d => _crawl_level fuel' u d max_depth)
                                 url depth download_buttons found_resources self with
            | None => None
            | Some (found_resources, self) =>
                match
                  (if depth <? max_depth then
                     follow_subpages (fun u d => _crawl_level fuel' u d max_depth)
                                     url depth
                                     (firstn 5 (_find_tutorial_subpages page url))
                                     found_resources self
                   else Some (found_resources, self))
                with
                | None => None
                | Some (found_resources, self) =>
                    Some (found_resources ++ external_resources page, self)
                end
            end
        end
  end.

(** [follow_tutorial_path(start_url, max_depth)] *)
Definition follow_tutorial_path (start_url : string) (max_depth : Z)
    (self : MultiLevelCopernicusScraper) :=
  _crawl_level (crawl_fuel max_depth 0) start_url 0 max_depth self.
End Crawlers.

Arguments mkDeepPage {Resource} _ _ _.
Arguments all_links {Resource} _.
Arguments page_found {Resource} _.
Arguments page_raised {Resource} _.
Arguments mkLevelPage {Resource} _ _ _ _.
Arguments direct_downloads {Resource} _.
Arguments button_hrefs {Resource} _.
Arguments anchor_hrefs {Resource} _.
Arguments external_resources {Resource} _.


(** The world after one more reading of the clock. *)
Definition tick (w : World) : World :=
  mkWorld (w_fs w) (S (w_clock w)) (w_requests w).

(** Where [shutil.copy2] writes. *)
Definition copy2_target (fs : FS) (src dst : path) : path :=
  if is_dir fs dst then path_div dst (path_name src) else dst.

(** ** Concrete worlds for the examples *)

(** The MD5 digests of the two locators of the examples. *)
Definition demo_md5 (url : string) : string :=
  if String.eqb url "http://x/a.zip" then "b1b29e7879ee30274385285984e77d07"
  else if String.eqb url "http://x/b.zip" then "faf850d3788aa1ee253cf7788e103012"
  else "d41d8cd98f00b204e9800998ecf8427e".

Definition day : Z := 86400000000.

(** The clock starts 40 days after the origin of time and advances by one
    second from a reading to the next. *)
Definition demo_clock (n : nat) : Z := 40 * day + Z.of_nat n * 1000000.

Definition demo_chunk : bytes := [Byte.x50; Byte.x4b; Byte.x03; Byte.x04].

Definition demo_env (reply : HttpReply) : Env :=
  mkEnv demo_md5 (fun _ => []) (fun _ => Some ∅) demo_clock (fun _ _ => reply).

Definition reply_ok : HttpReply :=
  Responds (mkResponse 200 "OK" (CLInt 4) [demo_chunk] None).
Definition reply_timeout : HttpReply :=
  GetRaises "HTTPConnectionPool(host='x', port=80): Read timed out. (read timeout=60)".
Definition reply_broken : HttpReply :=
  Responds (mkResponse 200 "OK" (CLInt 8) [demo_chunk]
                       (Some "Connection broken: IncompleteRead(4 bytes read, 4 more expected)")).

Definition demo_cache_dir : path := ["out"; ".cache"].
Definition demo_cache_name : string := "b1b29e7879ee30274385285984e77d07_a.zip".
Definition demo_info (date : Z) : CacheInfo :=
  mkCacheInfo "http://x/a.zip" demo_cache_name "a.zip" date 4.

(** An output directory with an empty cache directory. *)
Definition fs_empty_cache : FS := mkFS ∅ {[ ["out"]; demo_cache_dir ]}.
(** The same with [a.zip] in the cache. *)
Definition fs_cached : FS :=
  mkFS {[ path_div demo_cache_dir demo_cache_name := demo_chunk ]}
       {[ ["out"]; demo_cache_dir ]}.
(** The cache directory was removed from outside. *)
Definition fs_no_cache_dir : FS := mkFS ∅ {[ ["out"] ]}.
(** A directory lies where the cached [a.zip] is expected. *)
Definition fs_cached_is_dir : FS :=
  mkFS ∅ {[ ["out"]; demo_cache_dir; path_div demo_cache_dir demo_cache_name ]}.

Definition cm_empty : CacheManager := mkCacheManager demo_cache_dir default_expire_days ∅.
Definition cm_cached (date : Z) : CacheManager :=
  mkCacheManager demo_cache_dir default_expire_days
                 {[ demo_md5 "http://x/a.zip" := demo_info date ]}.


Definition url_a : string := "http://x/a.zip".

(** A world where [out/a.zip] was downloaded and the cache is empty. *)
Definition fs_downloaded : FS :=
  mkFS {[ ["out"; "a.zip"] := demo_chunk ]} {[ ["out"]; demo_cache_dir ]}.
Definition world_of (fs : FS) : World := mkWorld fs 0 [].

Definition after_add :=
  add_to_cache (demo_env reply_ok) url_a ["out"; "a.zip"]
               (world_of fs_downloaded, cm_empty).

Definition after_remove :=
  remove_cache (demo_env reply_ok) url_a (world_of fs_cached, cm_cached (39 * day)).


(** ** Notions used by the statements *)

(** What can happen to a cache between two moments: calls of its methods,
    and changes that others make to the files. *)
Inductive CacheOp : Type :=
| OpIsCached (url : string)
| OpGetCachedFile (url : string)
| OpAddToCache (url : string) (source_file : path)
| OpRemoveCache (url : string)
| OpOutside (change : FS → FS).

(** One step of the history; what the call returns or raises is dropped,
    the state it leaves is kept. *)
Definition run_op (E : Env) (op : CacheOp) (s : World * CacheManager)
  : World * CacheManager :=
  match op with
  | OpIsCached url => snd (is_cached E url s)
  | OpGetCachedFile url => snd (get_cached_file E url s)
  | OpAddToCache url source_file => snd (add_to_cache E url source_file s)
  | OpRemoveCache url => snd (remove_cache E url s)
  | OpOutside change => (world_with_fs (fst s) (change (w_fs (fst s))), snd s)
  end.

Definition run_ops (E : Env) (ops : list CacheOp) (s : World * CacheManager)
  : World * CacheManager :=
  fold_left (fun s op => run_op E op s) ops s.

(** The step adds an entry under the cache key [key]. *)
Definition adds_key (E : Env) (key : string) (op : CacheOp) : Prop :=
  match op with
  | OpAddToCache url _ => _get_cache_key E url = key
  | _ => False
  end.

(** An exception whose text is not empty. *)
Definition described (e : exn) : Prop := exn_str e ≠ "".

(** The transport errors of the environment come with a text, as the ones
    of [requests] do. *)
Definition env_describes_errors (E : Env) : Prop :=
  ∀ n url, match http_get E n url with
           | GetRaises msg => msg ≠ ""
           | Responds r => ∀ msg, stream_error r = Some msg → msg ≠ ""
           end.

(** An operation that raises only exceptions with a text. *)
Definition raises_described {S A} (m : M S A) : Prop :=
  ∀ s e s', m s = (Raise e, s') → described e.

(** Two states of the local [result] of one task: ['url'] and ['filepath']
    are the same. *)
Definition same_task (r r' : DownloadResult) : Prop :=
  res_url r' = res_url r ∧ res_filepath r' = res_filepath r.

(** What identifies the task in a result and in a task. *)
Definition result_task (r : DownloadResult) : string * string :=
  (res_url r, res_filepath r).
Definition task_tag (t : Task) : string * string := (fst t, path_str (snd t)).

(** A result that reports a failure carries a non-empty error text. *)
Definition failure_explained (r : DownloadResult) : Prop :=
  res_success r = false → ∃ msg, res_error r = Some msg ∧ msg ≠ "".

(** The result [download_file] starts from. *)
Definition initial_result (url : string) (filepath : path) : DownloadResult :=
  mkResult url (path_str filepath) false false 0 None.

(** The world after a GET for [url]. *)
Definition requested (w : World) (url : string) : World :=
  mkWorld (w_fs w) (w_clock w) (url :: w_requests w).

(** The locator is not in the index of the cache the task would consult. *)
Definition not_in_cache (E : Env) (use_cache : bool)
    (cache_manager : option CacheManager) (url : string) : Prop :=
  use_cache = false
  ∨ match cache_manager with
    | None => True
    | Some cm => index cm !! _get_cache_key E url = None
    end.

(** What the streamed body leaves in the file. *)
Definition body_bytes (r : Response) : bytes :=
  concat (List.filter nonempty_chunk (chunks r)).

(** ** Concrete tasks for the examples *)

Definition fresh_cache : CacheManager := cm_cached (39 * day).

(** An entry that is exactly 30 days old at the first reading of the clock. *)
Definition ageing_cache : CacheManager := cm_cached (10 * day).

(** The cache of [fs_cached] next to a regular file [out/notes]. *)
Definition fs_cached_with_notes : FS :=
  mkFS {[ path_div demo_cache_dir demo_cache_name := demo_chunk;
          ["out"; "notes"] := [] ]}
       {[ ["out"]; demo_cache_dir ]}.

(** A body of 1024 bytes in one chunk. *)
Definition reply_1024 : HttpReply :=
  Responds (mkResponse 200 "OK" (CLInt 1024) [repeat Byte.x00 1024] None).

(** Two tasks, completed in the reverse of the order of submission. *)
Definition two_tasks : list Task :=
  [(url_a, ["out"; "a.zip"]); ("http://x/b.zip", ["out"; "b.zip"])].

(** The states of a download into [out/a.zip] whose cache directory was
    removed: after the cache check, after the fetch, after the cache write. *)
Definition uncached_start : World * option CacheManager :=
  (world_of fs_no_cache_dir, Some cm_empty).
Definition uncached_checked :=
  snd (lookup_cache (demo_env reply_ok) url_a true uncached_start).
Definition uncached_fetched :=
  snd (fetch_to_file (demo_env reply_ok) url_a ["out"; "a.zip"]
                     (initial_result url_a ["out"; "a.zip"], uncached_checked)).
Definition uncached_stored :=
  snd (store_in_cache (demo_env reply_ok) url_a ["out"; "a.zip"] true
                      (snd uncached_fetched)).

(** ** Shapes of file names *)

(** Two underscores in a row somewhere in the name. *)
Fixpoint double_underscore (s : list ascii) : bool :=
  match s with
  | [] => false
  | c :: rest =>
      (is_underscore c && match rest with
                          | c' :: _ => is_underscore c'
                          | [] => false
                          end)
      || double_underscore rest
  end.

Definition starts_with_underscore (s : list ascii) : bool :=
  match s with
  | c :: _ => is_underscore c
  | [] => false
  end.

Definition ends_with_underscore (s : list ascii) : bool :=
  starts_with_underscore (rev s).

Definition tab : ascii := "009"%char.

(** Forty-nine letters, a space and one more letter. *)
Definition long_name : string :=
  "AAAAAAAAAAAAAAAAAAAAAAAAAAAAAAAAAAAAAAAAAAAAAAAAA B".

(** ** What a crawl adds to the visited set and to the printed log *)

Section Growth.
Context {entry : Type}.
(** The locator a log entry marks as visited, if it records a visit. *)
Variable visit_of : entry → option string.

(** From visited set [v] and log [l] to [v'] and [l'] (latest first): the
    new entries satisfy [P], the locators they visit were not visited
    before, none is visited twice, and they are what [v'] adds to [v]. *)
Definition grows (P : entry → Prop)
    (v : gset string) (l : list entry) (v' : gset string) (l' : list entry)
  : Prop :=
  ∃ new : list entry,
    l' = new ++ l
    ∧ v' = list_to_set (omap visit_of new) ∪ v
    ∧ NoDup (omap visit_of new)
    ∧ (∀ u, u ∈ omap visit_of new → u ∉ v)
    ∧ Forall P new.
End Growth.

Definition deep_visit_of (e : Z * string) : option string := Some (snd e).

(** A crawl of the deep scraper from state [s] to [s']: [max_depth] is kept
    and the new visits, each a pair of depth and locator, satisfy [P]. *)
Definition deep_grows (P : Z * string → Prop) (s s' : DeepCopernicusScraper) : Prop :=
  max_depth s' = max_depth s
  ∧ grows deep_visit_of P (visited_urls s) (crawl_log s)
          (visited_urls s') (crawl_log s').

(** A visit on the domain [domain] at a depth between [lo] and [hi]. *)
Definition visit_within (netloc : string → string) (domain : string) (lo hi : Z)
    (e : Z * string) : Prop :=
  netloc (snd e) = domain ∧ lo ≤ fst e ≤ hi.

(** The locator a printed line of the multi-level scraper marks as visited. *)
Definition event_visit (e : Event) : option string :=
  match e with
  | Level _ url => Some url
  | _ => None
  end.

(** What holds of a printed line of a crawl that started at depth [lo] with
    maximum depth [hi]: the depth of a visit, and of a page whose download
    button is followed, is between the two; a sub-page is followed from a
    page strictly above the maximum depth and is related to that page by
    [same]. *)
Definition event_within (same : string → string → Prop) (lo hi : Z) (e : Event)
  : Prop :=
  match e with
  | Level depth _ => lo ≤ depth ≤ hi
  | ButtonClick _ depth _ => lo ≤ depth ≤ hi
  | SubPage page depth sub_url => lo ≤ depth < hi ∧ same page sub_url
  end.

(** The sub-page is on the domain of the page. *)
Definition same_domain (netloc : string → string) (page sub_url : string) : Prop :=
  netloc sub_url = netloc page.

Definition level_grows (P : Event → Prop) (s s' : MultiLevelCopernicusScraper) : Prop :=
  grows event_visit P (visited s) (printed s) (visited s') (printed s').

(** ** A small web for the examples *)

Fixpoint take_until_slash (s : string) : string :=
  match s with
  | EmptyString => EmptyString
  | String c rest =>
      if Ascii.eqb c "/"%char then EmptyString else String c (take_until_slash rest)
  end.

(** [urlparse(url).netloc] on locators of the form [http://host/path]. *)
Definition demo_netloc (url : string) : string :=
  if String.prefix "http://" url
  then take_until_slash (String.substring 7 (String.length url - 7) url)
  else EmptyString.

(** [urljoin(base, href)] for a [href] that is a full locator or starts at
    the root of the site. *)
Definition demo_urljoin (base href : string) : string :=
  if String.prefix "http://" href then href
  else "http://" +:+ demo_netloc base +:+ href.

Definition page_a : string := "http://site.example/tutorial/a".
Definition page_b : string := "http://site.example/tutorial/b".
Definition page_start : string := "http://site.example/start".
Definition page_elsewhere : string := "http://other.example/get".

(** Page A links to page B; page B links back to A and to another site. *)
Definition demo_deep_get (url : string) : option (DeepPage string) :=
  if String.eqb url page_a then
    Some (mkDeepPage [mkAnchor "/tutorial/b" "Part B"] ["a.ipynb"] false)
  else if String.eqb url page_b then
    Some (mkDeepPage [mkAnchor "/tutorial/a" "Part A";
                      mkAnchor "http://other.example/tutorial/c" "Elsewhere"]
                     ["b.zip"] false)
  else None.

(** The start page has a download button that leads to another site and a
    link to page A; page A has a button back to the start page. *)
Definition demo_level_get (url : string) : option (LevelPage string) :=
  if String.eqb url page_start then
    Some (mkLevelPage [] [page_elsewhere] ["/tutorial/a"] [])
  else if String.eqb url page_elsewhere then
    Some (mkLevelPage ["data.zip"] [] [] [])
  else if String.eqb url page_a then
    Some (mkLevelPage ["a.ipynb"] ["/start"] ["/start"] [])
  else None.

Definition demo_deep_crawl :=
  deep_crawl string demo_urljoin demo_netloc demo_deep_get.
Definition demo_crawl_level :=
  _crawl_level string demo_urljoin demo_netloc demo_level_get remove_dups.

Definition new_deep_scraper (max_depth : Z) : DeepCopernicusScraper :=
  mkDeep max_depth ∅ [].
Definition new_level_scraper : MultiLevelCopernicusScraper := mkMulti ∅ [].

(** * More of the code

    The rest of the cited files, as far as it can be written down without
    the HTML parser and the browser: from [scrape_copernicus.py] the
    download with retries, [get_page_content], [extract_resources],
    [extract_tutorial_links] and the sequential [process_tutorial]; from
    [scrape_copernicus_enhanced.py] [CacheManager.clear_expired],
    [get_page_content] and the [process_tutorial] that downloads in
    parallel; from [deep_scraper.py] [extract_file_info],
    [download_resources] and [scrape_copernicus_resources]; from
    [multilevel_scraper.py] the loop of [test_specific_tutorials].  What a
    page holds is given as the list of the elements the parser finds on
    it; the browser is given by what it raises and by the source of the
    pages it loads. *)

(** ** CopernicusScraper.download_file: the download with retries *)

(** Run an operation of a downloader in a state that has no cache manager
    but a component [X] of its own. *)
Definition lift_dl {X A} (m : DL A) : M (World * X) A :=
  fun '(w, x) => let '(o, (w', _)) := m (w, None) in (o, (w', x)).

(** [response.content]: the whole body, or the exception of the connection
    that broke while it was read. *)
Definition response_content {S} (r : Response) : M S bytes :=
  match stream_error r with
  | Some msg => raise (RequestException msg)
  | None => ret (concat (chunks r))
  end.

Section RetryingDownload.
Variable E : Env.

(** The state: the world and the seconds spent in [time.sleep]. *)
Definition Retry (A : Type) : Type := M (World * Z) A.

(** [time.sleep(seconds)] *)
Definition time_sleep (seconds : Z) : Retry unit :=
fun '(w, slept) => (Return tt, (w, slept + seconds)).

(** The [try] block of one attempt.  With no length announced the body is
  fetched whole before anything is written to the file just opened;
  otherwise it is written chunk by chunk. *)
Definition download_attempt (url : string) (filepath : path) : Retry unit :=
response <- session_get E url ;;
lift_dl (raise_for_status url response) ;;;
total_size <- lift_dl (total_size_of response) ;;
fs_do (fun fs => write_file fs filepath []) ;;;
if total_size =? 0 then
  content <- response_content response ;;
  fs_do (fun fs => (Return tt, set_file fs filepath content))
else
  fs_do (fun fs => (Return tt, set_file fs filepath (body_bytes response))) ;;;
  match stream_error response with
  | Some msg => raise (RequestException msg)
  | None => ret tt
  end.

(** [for attempt in range(retry)], from [attempt] on, with [remaining]
  rounds to go. *)
Fixpoint download_attempts (retry : Z) (remaining : nat) (attempt : Z)
  (url : string) (filepath : path) : Retry bool :=
match remaining with
| O => ret false
| S remaining' =>
    fun s =>
      match download_attempt url filepath s with
      | (Return _, s') => (Return true, s')
      | (Raise _, s') =>
          if attempt =? retry - 1 then (Return false, s')
          else (time_sleep (2 ^ attempt) ;;;
                download_attempts retry remaining' (attempt + 1) url filepath) s'
      end
end.

(** [download_file(url, filepath, retry)] of [CopernicusScraper] *)
Definition download_file_retry (url : string) (filepath : path) (retry : Z)
: Retry bool :=
download_attempts retry (Z.to_nat retry) 0 url filepath.
End RetryingDownload.

(** The seconds slept before the [n]-th request of a download is sent:
    one, two, four, ... after each failure. *)
Definition backoff_before (n : nat) : Z :=
  match n with
  | O => 0
  | S k => 2 ^ Z.of_nat k - 1
  end.

(** ** get_page_content *)

(** The browser that Selenium drives, as far as the scrapers use it:
    [setup_selenium] installs the driver and starts Chrome, [driver.get]
    loads a page, and each of them can raise; [driver.page_source] is the
    source of the page just loaded.  What the browser itself requests is
    not sent through the session of the scraper. *)
Record Browser : Type := mkBrowser {
  start_driver : option exn;
  load_page : string → option exn;
  page_source : string → string
}.

(** Run an operation in the state of a scraper, which holds in addition
    whether [self.driver] is set. *)
Definition with_driver {X A} (m : M (World * X) A) : M (World * (X * bool)) A :=
  fun '(w, (x, driver)) =>
    let '(o, (w', x')) := m (w, x) in (o, (w', (x', driver))).

Section PageContent.
Context {X : Type}.
Variable E : Env.
Variable B : Browser.
(** [response.text]: the body, decoded. *)
Variable response_text : bytes → string.
(** What [time.sleep(seconds)] does to the rest of the state. *)
Variable sleep : Z → X → X.

(** [session.get(url, timeout=30)]: without [stream=True] the body is
    read before [get] returns, and a connection that breaks meanwhile
    makes [get] raise. *)
Definition session_get_whole (url : string) : M (World * (X * bool)) Response :=
  response <- session_get E url ;;
  match stream_error response with
  | Some msg => raise (RequestException msg)
  | None => ret response
  end.

(** The [try] block with its [except: pass]; [None] when it is left
    without a [return]. *)
Definition page_by_request (url : string) : M (World * (X * bool)) (option string) :=
  try_except
    (response <- session_get_whole url ;;
     if status_code response =? 200
     then ret (Some (response_text (concat (chunks response))))
     else ret None)
    (fun _ => ret None).

(** [setup_selenium()] *)
Definition setup_selenium : M (World * (X * bool)) unit :=
  fun '(w, (x, driver)) =>
    match start_driver B with
    | Some e => (Raise e, (w, (x, driver)))
    | None => (Return tt, (w, (x, true)))
    end.

(** [self.driver.get(url)] *)
Definition driver_get (url : string) : M (World * (X * bool)) unit :=
  fun s =>
    match load_page B url with
    | Some e => (Raise e, s)
    | None => (Return tt, s)
    end.

(** [get_page_content(url)] *)
Definition get_page_content (url : string) : M (World * (X * bool)) string :=
  by_request <- page_by_request url ;;
  match by_request with
  | Some text => ret text
  | None =>
      driver <- (fun s => (Return (snd (snd s)), s)) ;;
      (if driver : bool then ret tt else setup_selenium) ;;;
      driver_get url ;;;
      modify (fun '(w, (x, driver)) => (w, (sleep 3 x, driver))) ;;;
      ret (page_source B url)
  end.
End PageContent.

(** ** extract_resources *)

(** [s.split(sep)] for a separator of one character *)
Fixpoint str_split (sep : ascii) (s : string) : list string :=
  match s with
  | EmptyString => [EmptyString]
  | String c rest =>
      if Ascii.eqb c sep then EmptyString :: str_split sep rest
      else match str_split sep rest with
           | part :: parts => String c part :: parts
           | [] => [String c EmptyString]
           end
  end.

(** [parts[-1]] and [parts[0]] of the list a split returns *)
Definition last_part (parts : list string) : string := List.last parts EmptyString.
Definition first_part (parts : list string) : string := List.hd EmptyString parts.

(** The dictionary [extract_resources] makes of a link. *)
Record PageResource : Type := mkPageResource {
  resource_url : string;
  resource_filename : string;
  resource_type : string
}.

(** The alternatives of the pattern the links are searched with; the
    search ignores case. *)
Definition file_patterns : list string :=
  [".ipynb"; ".nc"; ".csv"; ".json"; ".py"; ".zip"; ".tar"; ".pdf"].

Definition href_matches (patterns : list string) (href : string) : bool :=
  existsb (fun pattern => str_contains pattern (str_lower href)) patterns.

Definition site_root : string := "https://marine.copernicus.eu".

(** The body of the loop over the links found. *)
Definition resource_of_href (tutorial_url href : string) : PageResource :=
  let href :=
    if negb (String.prefix "http" href) then
      if String.prefix "/" href then site_root +:+ href
      else tutorial_url +:+ "/" +:+ href
    else href in
  let filename := first_part (str_split "?" (last_part (str_split "/" href))) in
  let filename := if String.eqb filename "" then "unknown_file" else filename in
  mkPageResource href filename
                 (if str_contains "." filename
                  then last_part (str_split "." filename) else "unknown").

(** [extract_resources(tutorial_url)] on the [href]s of the anchors of the
    page, in document order. *)
Definition extract_resources (tutorial_url : string) (anchor_hrefs : list string)
  : list PageResource :=
  flat_map (fun href => if String.eqb href "" then []
                        else [resource_of_href tutorial_url href])
           (List.filter (href_matches file_patterns) anchor_hrefs).

(** ** CopernicusScraper.process_tutorial: one download after the other *)

(** A resource as [process_tutorial] stores it in ['resources']: with
    ['downloaded'] and, after a success, ['path']. *)
Record Attempted : Type := mkAttempted {
  att_resource : PageResource;
  att_downloaded : bool;
  att_path : option string
}.

Record TutorialResult : Type := mkTutorialResult {
  tut_resources : list Attempted;
  tut_success : Z;
  tut_failed : Z
}.

Section SequentialTutorial.
Variable E : Env.
Variable B : Browser.
Variable response_text : bytes → string.
(** [BeautifulSoup(content, 'html.parser')] and the search for anchors: the
  [href]s of the anchors of the page, in document order. *)
Variable anchors_of : string → list string.

(** [time.sleep(seconds)] on the seconds slept. *)
Definition slept_more (seconds slept : Z) : Z := slept + seconds.

(** [extract_resources(tutorial_url)] as a whole: the page is fetched and
  parsed, then the links are gone through. *)
Definition extract_resources_of (tutorial_url : string)
: M (World * (Z * bool)) (list PageResource) :=
content <- get_page_content E B response_text slept_more tutorial_url ;;
ret (extract_resources tutorial_url (anchors_of content)).

(** The loop over the resources; a file that exists counts as a success
  and is not stored. *)
Fixpoint download_each (tutorial_dir : path) (resources : list PageResource)
  (result : TutorialResult) : Retry TutorialResult :=
match resources with
| [] => ret result
| resource :: rest =>
    let filepath := path_div tutorial_dir (resource_filename resource) in
    exists_ <- fs_test (fun fs => path_exists fs filepath) ;;
    if exists_ : bool then
      download_each tutorial_dir rest
        (mkTutorialResult (tut_resources result) (tut_success result + 1)
                          (tut_failed result))
    else
      ok <- download_file_retry E (resource_url resource) filepath 3 ;;
      if ok : bool then
        download_each tutorial_dir rest
          (mkTutorialResult
             (tut_resources result
                ++ [mkAttempted resource true (Some (path_str filepath))])
             (tut_success result + 1) (tut_failed result))
      else
        download_each tutorial_dir rest
          (mkTutorialResult
             (tut_resources result ++ [mkAttempted resource false None])
             (tut_success result) (tut_failed result + 1))
end.

(** [process_tutorial(tutorial)] for a tutorial with the given folder and
  locator.  The state holds the seconds slept and whether [self.driver]
  is set. *)
Definition process_tutorial_seq (output_dir : path) (folder tutorial_url : string)
: M (World * (Z * bool)) TutorialResult :=
let tutorial_dir := path_div output_dir folder in
fs_do (fun fs => mkdir_exist_ok fs tutorial_dir) ;;;
resources <- extract_resources_of tutorial_url ;;
with_driver (download_each tutorial_dir resources (mkTutorialResult [] 0 0)).
End SequentialTutorial.

(** The resources stored with [downloaded] false. *)
Definition count_not_downloaded (l : list Attempted) : Z :=
  Z.of_nat (length (List.filter (fun a => negb (att_downloaded a)) l)).


(** ** CacheManager.clear_expired *)

(** The exceptions of the file system: [OSError] and its subclasses. *)
Definition is_OSError (e : exn) : bool :=
  match e with
  | FileNotFoundError _ | FileExistsError _ | IsADirectoryError _
  | NotADirectoryError _ | SameFileError _ _ => true
  | _ => false
  end.

Section ClearExpired.
Variable E : Env.

(** The first loop: the clock is read once for every entry, and the key
    of an entry that has expired at that reading is appended. *)
Fixpoint collect_expired (items : list (string * CacheInfo))
    (expired_keys : list string) : CM (list string) :=
  match items with
  | [] => ret expired_keys
  | (cache_key, cache_info) :: rest =>
      self <- self_ ;;
      let cached_date := info_date cache_info in
      t <- now E ;;
      if timedelta_days (expire_days self) <? t - cached_date
      then collect_expired rest (expired_keys ++ [cache_key])
      else collect_expired rest expired_keys
  end.

(** The second loop: [url = self.index[key]['url']] and
    [self.remove_cache(url)] for every key collected. *)
Fixpoint remove_expired (expired_keys : list string) : CM unit :=
  match expired_keys with
  | [] => ret tt
  | key :: rest =>
      self <- self_ ;;
      match index self !! key with
      | Some cache_info =>
          remove_cache E (info_url cache_info) ;;; remove_expired rest
      | None => raise (KeyError key)
      end
  end.

(** [clear_expired()].  [dict_items] is the order in which a dictionary
    gives its entries; the result is the number the method prints. *)
Definition clear_expired
    (dict_items : gmap string CacheInfo → list (string * CacheInfo)) : CM nat :=
  self <- self_ ;;
  expired_keys <- collect_expired (dict_items (index self)) [] ;;
  remove_expired expired_keys ;;;
  ret (length expired_keys).
End ClearExpired.

(** The entry has expired at the instant [t], for a window of [days] days. *)
Definition expired_at (days t : Z) (cache_info : CacheInfo) : bool :=
  timedelta_days days <? t - info_date cache_info.

(** The keys, among [items], of the entries that have expired when the
    clock is read once per entry, from the reading [clock] on. *)
Fixpoint expired_from (E : Env) (days : Z) (items : list (string * CacheInfo))
    (clock : nat) : list string :=
  match items with
  | [] => []
  | (cache_key, cache_info) :: rest =>
      if expired_at days (datetime_now E clock) cache_info
      then cache_key :: expired_from E days rest (S clock)
      else expired_from E days rest (S clock)
  end.

(** Every entry is stored under the key of its own locator, as
    [add_to_cache] stores it. *)
Definition well_keyed (E : Env) (ix : gmap string CacheInfo) : Prop :=
  map_Forall (fun key cache_info => _get_cache_key E (info_url cache_info) = key) ix.

(** The world after [n] more readings of the clock. *)
Definition advance (w : World) (n : nat) : World :=
  mkWorld (w_fs w) (w_clock w + n) (w_requests w).

(** Two entries, stamped on day 5 and on day 39, and their files. *)
Definition demo_info_b (date : Z) : CacheInfo :=
  mkCacheInfo "http://x/b.zip" "faf850d3788aa1ee253cf7788e103012_b.zip" "b.zip" date 4.
Definition cm_two : CacheManager :=
  mkCacheManager demo_cache_dir default_expire_days
                 {[ demo_md5 "http://x/a.zip" := demo_info (5 * day);
                    demo_md5 "http://x/b.zip" := demo_info_b (39 * day) ]}.
Definition fs_two : FS :=
  mkFS {[ path_div demo_cache_dir demo_cache_name := demo_chunk;
          path_div demo_cache_dir "faf850d3788aa1ee253cf7788e103012_b.zip" := demo_chunk ]}
       {[ ["out"]; demo_cache_dir ]}.

(** A server that times out on the first request and answers the later
    ones, and a download with retries into [out/a.zip] against it. *)
Definition flaky_env : Env :=
  mkEnv demo_md5 (fun _ => []) (fun _ => Some ∅) demo_clock
        (fun n _ => match n with O => reply_timeout | _ => reply_ok end).
Definition retry_run :=
  download_file_retry flaky_env url_a ["out"; "a.zip"] 3 (world_of fs_empty_cache, 0).


(** ** EnhancedCopernicusScraper.process_tutorial: the downloads in parallel *)

(** The dictionary [process_tutorial] returns, without the tutorial. *)
Record ParallelResult : Type := mkParallelResult {
  par_resources : list DownloadResult;
  par_success : Z;
  par_cached : Z;
  par_failed : Z
}.

(** [sum(1 for r in results if f(r))] *)
Definition count_results (f : DownloadResult → bool) (results : list DownloadResult)
  : Z :=
  Z.of_nat (length (List.filter f results)).

Section ParallelTutorial.
Variable E : Env.

(** The loop that prepares the tasks: a resource whose file exists and is
    not empty is skipped. *)
Fixpoint prepare_tasks (tutorial_dir : path) (resources : list PageResource)
    (download_tasks : list Task) : DL (list Task) :=
  match resources with
  | [] => ret download_tasks
  | resource :: rest =>
      let filepath := path_div tutorial_dir (resource_filename resource) in
      exists_ <- fs_test (fun fs => path_exists fs filepath) ;;
      skip <- (if exists_ : bool then
                 sz <- fs_ask (fun fs => stat_size fs filepath) ;;
                 ret (0 <? sz)
               else ret false) ;;
      if skip : bool then prepare_tasks tutorial_dir rest download_tasks
      else prepare_tasks tutorial_dir rest
                         (download_tasks ++ [(resource_url resource, filepath)])
  end.

(** What follows the extraction of the resources in [process_tutorial]:
    the tasks are prepared and, if there is one, given to the pool. *)
Definition download_page_resources (completion_order : list Task → list Task)
    (tutorial_dir : path) (resources : list PageResource) : DL ParallelResult :=
  download_tasks <- prepare_tasks tutorial_dir resources [] ;;
  match download_tasks with
  | [] => ret (mkParallelResult [] 0 0 0)
  | _ =>
      results <- download_batch E completion_order download_tasks true ;;
      ret (mkParallelResult results
             (count_results res_success results)
             (count_results res_cached results)
             (count_results (fun r => negb (res_success r)) results))
  end.

Variable B : Browser.
Variable response_text : bytes → string.
Variable anchors_of : string → list string.

(** [extract_resources(tutorial_url)] of the enhanced scraper as a whole;
    the page is requested through the session of the downloader, and the
    time slept leaves no trace in this state. *)
Definition extract_resources_enhanced (tutorial_url : string)
  : M (World * (option CacheManager * bool)) (list PageResource) :=
  content <- get_page_content E B response_text (fun _ cm => cm) tutorial_url ;;
  ret (extract_resources tutorial_url (anchors_of content)).

(** [process_tutorial(tutorial)] of the enhanced scraper, for a tutorial
    with the given folder and locator.  The state holds the cache manager
    of the downloader and whether [self.driver] is set. *)
Definition process_tutorial_par (completion_order : list Task → list Task)
    (output_dir : path) (folder tutorial_url : string)
  : M (World * (option CacheManager * bool)) ParallelResult :=
  let tutorial_dir := path_div output_dir folder in
  fs_do (fun fs => mkdir_exist_ok fs tutorial_dir) ;;;
  resources <- extract_resources_enhanced tutorial_url ;;
  with_driver (download_page_resources completion_order tutorial_dir resources).
End ParallelTutorial.

(** The result belongs to a task for the resource: it has its locator, and
    its destination is the file of the resource's name in the folder. *)
Definition result_of_resource (tutorial_dir : path) (r : DownloadResult)
    (resource : PageResource) : Prop :=
  res_url r = resource_url resource
  ∧ res_filepath r = path_str (path_div tutorial_dir (resource_filename resource)).

(** A page with links to two archives and one link that is no resource. *)
Definition demo_hrefs : list string :=
  ["http://x/a.zip"; "/about"; "http://x/b.zip"].


(** ** DeepCopernicusScraper.extract_file_info *)

Definition target_extensions : list string :=
  [".ipynb"; ".zip"; ".tar"; ".gz"; ".tar.gz"; ".7z";
   ".nc"; ".netcdf"; ".hdf"; ".hdf5"; ".grib"; ".grib2"].

(** The dictionary [extract_file_info] returns. *)
Record FileInfo : Type := mkFileInfo {
  fi_url : string;
  fi_filename : string;
  fi_extension : option string;
  fi_link_text : string;
  fi_source_type : string
}.

Definition classify_source (url : string) : string :=
  if str_contains "github.com" url then "github"
  else if str_contains "gitlab.com" url then "gitlab"
  else if str_contains "copernicus" url then "copernicus"
  else if str_contains "mercator" url then "mercator"
  else if str_contains "zenodo.org" url then "zenodo"
  else "other".

(** [s.strip(chars)] *)
Fixpoint lstrip_chars (chars : list ascii) (s : string) : string :=
  match s with
  | EmptyString => EmptyString
  | String c rest =>
      if existsb (Ascii.eqb c) chars then lstrip_chars chars rest else s
  end.

Fixpoint rstrip_chars (chars : list ascii) (s : string) : string :=
  match s with
  | EmptyString => EmptyString
  | String c rest =>
      match rstrip_chars chars rest with
      | EmptyString =>
          if existsb (Ascii.eqb c) chars then EmptyString else String c EmptyString
      | rest' => String c rest'
      end
  end.

Definition strip_chars (chars : list ascii) (s : string) : string :=
  rstrip_chars chars (lstrip_chars chars s).

Section FileInformation.
Variable E : Env.
(** [unquote(urlparse(url).path)] *)
Variable url_path : string → string.
(** The [content-type] and [content-disposition] headers of the answer to
    [session.head(url)], each empty when absent; [None] when the request
    raises. *)
Variable head_request : string → option (string * string).
(** The first group of the search for a file name in a
    [content-disposition] header, when there is a match. *)
Variable disposition_filename : string → option string.

(** The extension guessed from the content type. *)
Definition extension_of_content_type (content_type : string)
    (extension : option string) : option string :=
  if str_contains "zip" content_type then Some ".zip"
  else if str_contains "notebook" content_type || str_contains "json" content_type
  then Some ".ipynb"
  else if str_contains "netcdf" content_type then Some ".nc"
  else extension.

Definition extract_file_info (url link_text : string) : FileInfo :=
  let path := url_path url in
  let filename :=
    if str_contains "/" path then last_part (str_split "/" path) else path in
  let filename :=
    if String.eqb filename "" || (String.length filename <? 3)%nat
    then String.substring 0 8 (md5_hexdigest E url)
    else filename in
  let extension :=
    List.find (fun ext => str_contains ext (str_lower filename)) target_extensions in
  let '(filename, extension) :=
    match extension with
    | Some _ => (filename, extension)
    | None =>
        if str_contains "download" (str_lower url) then
          match head_request url with
          | Some (content_type, content_disposition) =>
              let filename :=
                if str_contains "filename=" content_disposition then
                  match disposition_filename content_disposition with
                  | Some name => strip_chars [double_quote; "'"%char] name
                  | None => filename
                  end
                else filename in
              (filename, extension_of_content_type content_type extension)
          | None => (filename, extension)
          end
        else (filename, extension)
    end in
  mkFileInfo url filename extension (String.substring 0 100 link_text)
             (classify_source url).
End FileInformation.

(** The extensions [extract_file_info] can report. *)
Definition reported_extensions : list string :=
  [".ipynb"; ".zip"; ".tar"; ".gz"; ".7z"; ".nc"; ".netcdf"; ".hdf"; ".grib"].

(** ** The bookkeeping of scrape_copernicus_resources and of
    test_specific_tutorials *)

Section Bookkeeping.
Context {Resource : Type}.
(** [resource['url']] *)
Variable url_of : Resource → string.

(** The loop that keeps a resource when its locator was not seen
    before. *)
Fixpoint unique_by_url (all_resources : list Resource) (seen_urls : gset string)
    (unique_resources : list Resource) : list Resource :=
  match all_resources with
  | [] => unique_resources
  | resource :: rest =>
      if bool_decide (url_of resource ∉ seen_urls)
      then unique_by_url rest ({[url_of resource]} ∪ seen_urls)
                         (unique_resources ++ [resource])
      else unique_by_url rest seen_urls unique_resources
  end.

(** [counts[k] = counts.get(k, 0) + 1] for the key of every resource *)
Fixpoint tally `{Countable K} (key : Resource → K) (resources : list Resource)
    (counts : gmap K Z) : gmap K Z :=
  match resources with
  | [] => counts
  | resource :: rest =>
      tally key rest
            (<[key resource := default 0 (counts !! key resource) + 1]> counts)
  end.
End Bookkeeping.

(** The sum of the counts of a tally. *)
Definition tally_total `{Countable K} (counts : gmap K Z) : Z :=
  map_fold (fun _ count total => count + total) 0 counts.

(** How many resources have the key [k]. *)
Definition count_key {Resource : Type} `{EqDecision K} (key : Resource → K)
    (k : K) (resources : list Resource) : Z :=
  Z.of_nat (length (List.filter (fun r => bool_decide (key r = k)) resources)).

(** The dictionary [scrape_copernicus_resources] returns. *)
Record ScrapeResults : Type := mkScrapeResults {
  total_found : Z;
  by_extension : gmap (option string) Z;
  by_source : gmap string Z;
  resources : list FileInfo
}.

Section ScrapeSession.
Variables (urljoin : string → string → string) (netloc : string → string).
Variable deep_get : string → option (DeepPage FileInfo).

Definition start_urls : list string :=
  ["https://marine.copernicus.eu/services/user-learning-services/tutorials";
   "https://marine.copernicus.eu/services/user-learning-services";
   "https://help.marine.copernicus.eu/en";
   "https://marine.copernicus.eu/services/use-cases";
   "https://github.com/CopernicusMarineService";
   "https://github.com/mercator-ocean"].

(** The loop over the start locators, every crawl with fuel [fuel]. *)
Fixpoint crawl_each (fuel : nat) (urls : list string)
    (all_resources : list FileInfo) (self : DeepCopernicusScraper)
  : option (list FileInfo * DeepCopernicusScraper) :=
  match urls with
  | [] => Some (all_resources, self)
  | url :: rest =>
      match deep_crawl FileInfo urljoin netloc deep_get fuel url 0 self with
      | Some (resources, self') =>
          crawl_each fuel rest (all_resources ++ resources) self'
      | None => None
      end
  end.

(** [scrape_copernicus_resources()]; [None] only when the fuel runs out. *)
Definition scrape_copernicus_resources (fuel : nat) (self : DeepCopernicusScraper)
  : option (ScrapeResults * DeepCopernicusScraper) :=
  match crawl_each fuel start_urls [] self with
  | Some (all_resources, self') =>
      let unique_resources := unique_by_url fi_url all_resources ∅ [] in
      Some (mkScrapeResults (Z.of_nat (length unique_resources))
                            (tally fi_extension unique_resources ∅)
                            (tally fi_source_type unique_resources ∅)
                            unique_resources,
            self')
  | None => None
  end.
End ScrapeSession.

(** A visit of a session: at a depth up to [hi], on the domain of one of
    the start locators. *)
Definition session_visit (netloc : string → string) (starts : list string) (hi : Z)
    (e : Z * string) : Prop :=
  0 ≤ fst e ≤ hi ∧ ∃ start, In start starts ∧ netloc (snd e) = netloc start.

(** ** DeepCopernicusScraper.download_resources *)

(** [s.endswith(suffix)] *)
Fixpoint str_endswith (suffix s : string) : bool :=
  String.eqb suffix s ||
  match s with
  | EmptyString => false
  | String _ rest => str_endswith suffix rest
  end.

Fixpoint str_map (f : ascii → ascii) (s : string) : string :=
  match s with
  | EmptyString => EmptyString
  | String c rest => String (f c) (str_map f rest)
  end.

(** The ['status'] of an entry of the list [download_resources] returns,
    with the fields that come with it. *)
Inductive DownloadStatus : Type :=
| Skipped (filepath : string)
| Success (filepath : string) (size : Z)
| Failed (error : string).

Record ResourceDownload : Type := mkResourceDownload {
  rd_resource : FileInfo;
  rd_status : DownloadStatus
}.

Definition is_skipped (r : ResourceDownload) : bool :=
  match rd_status r with Skipped _ => true | _ => false end.

Section DownloadResources.
Variable E : Env.
(** The characters that [\w] matches. *)
Variable is_word : ascii → bool.

(** The substitution that replaces every character that is no word
    character, hyphen, underscore or dot by an underscore. *)
Definition safe_name (filename : string) : string :=
  str_map (fun c => if is_word c || existsb (Ascii.eqb c) ["-"; "_"; "."]%char
                    then c else "_"%char)
          filename.

(** The name of the file the [i]-th resource is stored in. *)
Definition safe_filename_of (i : Z) (resource : FileInfo) : string :=
  let safe_filename := safe_name (fi_filename resource) in
  let safe_filename :=
    if String.eqb safe_filename "" then "file_" +:+ Z_to_string i
    else safe_filename in
  match fi_extension resource with
  | Some extension =>
      if negb (String.eqb extension "")
         && negb (str_endswith extension safe_filename)
      then safe_filename +:+ extension
      else safe_filename
  | None => safe_filename
  end.

(** The body of the loop, for the [i]-th resource. *)
Definition download_resource (output_path : path) (i : Z) (resource : FileInfo)
  : M (World * unit) ResourceDownload :=
  try_except
    (let filepath := path_div output_path (safe_filename_of i resource) in
     exists_ <- fs_test (fun fs => path_exists fs filepath) ;;
     if exists_ : bool then
       ret (mkResourceDownload resource (Skipped (path_str filepath)))
     else
       response <- session_get E (fi_url resource) ;;
       lift_dl (raise_for_status (fi_url resource) response) ;;;
       total_size <- lift_dl (total_size_of response) ;;
       fs_do (fun fs => write_file fs filepath []) ;;;
       fs_do (fun fs => (Return tt, set_file fs filepath (body_bytes response))) ;;;
       match stream_error response with
       | Some msg => raise (RequestException msg)
       | None => ret tt
       end ;;;
       ret (mkResourceDownload resource
              (Success (path_str filepath)
                       (Z.of_nat (length (body_bytes response))))))
    (fun e => ret (mkResourceDownload resource (Failed (exn_str e)))).

Fixpoint download_each_resource (output_path : path) (i : Z)
    (resources : list FileInfo) (download_results : list ResourceDownload)
  : M (World * unit) (list ResourceDownload) :=
  match resources with
  | [] => ret download_results
  | resource :: rest =>
      result <- download_resource output_path i resource ;;
      download_each_resource output_path (i + 1) rest (download_results ++ [result])
  end.

(** [download_resources(resources, output_dir)] *)
Definition download_resources (resources : list FileInfo) (output_dir : path)
  : M (World * unit) (list ResourceDownload) :=
  fs_do (fun fs => mkdir_exist_ok fs output_dir) ;;;
  download_each_resource output_dir 1 resources [].
End DownloadResources.

(** The entry reports a success with the size of a file that is there. *)
Definition success_on_disk (fs : FS) (r : ResourceDownload) : Prop :=
  match rd_status r with
  | Success reported size =>
      ∃ filepath data,
        reported = path_str filepath
        ∧ files fs !! filepath = Some data
        ∧ size = Z.of_nat (length data)
  | _ => True
  end.


(** ** Numbers in names *)

Definition is_digit (c : ascii) : bool :=
  let n := nat_of_ascii c in ((48 <=? n) && (n <=? 57))%nat.

Definition all_digits (s : string) : bool :=
  forallb is_digit (list_ascii_of_string s).

(** The number a string of digits stands for. *)
Definition parse_digits (s : string) : option Z :=
  option_map Z.of_uint (NilEmpty.uint_of_string s).

(** ** extract_tutorial_links *)

(** What the loop reads of an element that one of the three searches
    found: the [href] of the anchor itself or of the first anchor inside
    it, [get_text()] and [get_text(strip=True)]. *)
Record Element : Type := mkElement {
  elem_link : option string;
  elem_text : string;
  elem_text_stripped : string
}.

(** The dictionary stored for a tutorial. *)
Record Tutorial : Type := mkTutorial {
  tl_id : Z;
  tl_title : string;
  tl_url : string;
  tl_folder : string
}.

(** The format [02d] of a number that is not negative. *)
Definition format_02d (n : Z) : string :=
  if n <? 10 then "0" +:+ Z_to_string n else Z_to_string n.

(** The loops over the patterns and over the elements found, on the
    elements of the three searches one after the other. *)
Fixpoint collect_tutorials (elements : list Element) (tutorials : list Tutorial)
    (tutorial_id : Z) : list Tutorial :=
  match elements with
  | [] => tutorials
  | elem :: rest =>
      match elem_link elem with
      | None => collect_tutorials rest tutorials tutorial_id
      | Some link =>
          if String.eqb link "" then collect_tutorials rest tutorials tutorial_id
          else
            let link :=
              if negb (String.prefix "http" link) then site_root +:+ link
              else link in
            let title :=
              if negb (String.eqb (elem_text elem) "")
              then String.substring 0 100 (elem_text_stripped elem)
              else "Tutorial_" +:+ Z_to_string tutorial_id in
            let title := sanitize_filename title in
            if negb (existsb (fun t => String.eqb (tl_url t) link) tutorials)
            then collect_tutorials rest
                   (tutorials
                      ++ [mkTutorial tutorial_id title link
                                     (format_02d tutorial_id +:+ "_" +:+ title)])
                   (tutorial_id + 1)
            else collect_tutorials rest tutorials tutorial_id
      end
  end.

(** [extract_tutorial_links()] on the elements found on the page. *)
Definition extract_tutorial_links (elements : list Element) : list Tutorial :=
  collect_tutorials elements [] 1.

(** The numbers from [first] on. *)
Definition numbered_from (first : Z) (n : nat) : list Z :=
  map (fun k => first + Z.of_nat k) (seq 0 n).


(** ** The crawlers: sessions and results *)

Section LevelSession.
Context {Resource : Type}.
Variables (urljoin : string → string → string) (netloc : string → string).
Variable level_get : string → option (LevelPage Resource).
Variable list_of_set : list string → list string.

Definition test_urls : list string :=
  ["https://marine.copernicus.eu/services/user-learning-services/tutorials";
   "https://marine.copernicus.eu/services/user-learning-services/arctic-ocean-training-2022-discover-copernicus-marine-service";
   "https://atlas.mercator-ocean.fr/s/ZqtwdLNzoQH55JE"].

(** The loop of [test_specific_tutorials] over the test locators:
    [follow_tutorial_path(url, max_depth=2)] on the same scraper. *)
Fixpoint follow_each (urls : list string) (all_resources : list Resource)
    (self : MultiLevelCopernicusScraper)
  : option (list Resource * MultiLevelCopernicusScraper) :=
  match urls with
  | [] => Some (all_resources, self)
  | url :: rest =>
      match follow_tutorial_path Resource urljoin netloc level_get list_of_set
                                 url 2 self with
      | Some (resources, self') =>
          follow_each rest (all_resources ++ resources) self'
      | None => None
      end
  end.
End LevelSession.

(** What the deep scraper found on the page a log entry records. *)
Definition found_on {Resource : Type} (deep_get : string → option (DeepPage Resource))
    (e : Z * string) : list Resource :=
  match deep_get (snd e) with
  | Some page => page_found page
  | None => []
  end.


(** ** More concrete inputs for the examples *)

Definition demo_tutorial_url : string := "http://x/t".
Definition demo_folder : string := "01_T".

(** A browser that works, and a machine without Chrome. *)
Definition demo_browser : Browser :=
  mkBrowser None (fun _ => None) (fun _ => "rendered").
Definition chrome_missing : Browser :=
  mkBrowser (Some (WebDriverException "unknown error: cannot find Chrome binary"))
            (fun _ => None) (fun _ => "rendered").

(** Every body decodes to the same page, and the page has the anchors of
    [demo_anchors]. *)
Definition demo_text (body : bytes) : string := "page".
Definition demo_anchors (content : string) : list string := demo_hrefs.

(** A file system without the output directory. *)
Definition fs_nothing : FS := mkFS ∅ ∅.

(** A download into [out/a.zip] through an empty cache, and what it
    leaves. *)
Definition first_run :=
  download_file (demo_env reply_ok) url_a ["out"; "a.zip"] true
                (world_of fs_empty_cache, Some cm_empty).
Definition first_result : DownloadResult :=
  match fst first_run with
  | Return r => r
  | Raise _ => initial_result url_a ["out"; "a.zip"]
  end.
Definition first_world : World := fst (snd first_run).
Definition first_cache : CacheManager :=
  match snd (snd first_run) with
  | Some cm => cm
  | None => cm_empty
  end.

(** A locator whose path ends in [data.tar.gz]; no answer to [HEAD]. *)
Definition demo_url_path (url : string) : string := "/files/data.tar.gz".
Definition demo_head (url : string) : option (string * string) := None.
Definition demo_disposition (header : string) : option string := None.

Definition info_notebook : FileInfo :=
  mkFileInfo "http://x/n.ipynb" "n.ipynb" (Some ".ipynb") "Notebook" "other".
Definition info_archive : FileInfo :=
  mkFileInfo "http://x/../../a.zip" "../../a.zip" (Some ".zip") "Archive" "other".

(** The first start locator holds a notebook, listed twice, and an
    archive; the other pages do not load. *)
Definition demo_info_get (url : string) : option (DeepPage FileInfo) :=
  if String.eqb url
       "https://marine.copernicus.eu/services/user-learning-services/tutorials"
  then Some (mkDeepPage [] [info_notebook; info_archive; info_notebook] false)
  else None.

(** Word characters: the letters and digits of ASCII and the underscore. *)
Definition ascii_word (c : ascii) : bool :=
  let n := nat_of_ascii c in
  (((48 <=? n) && (n <=? 57)) || ((65 <=? n) && (n <=? 90))
   || ((97 <=? n) && (n <=? 122)) || (n =? 95))%nat.

(** Three elements found on a page: two anchors with the same target and
    an element without a link. *)
Definition demo_elements : list Element :=
  [mkElement (Some "/tutorials/sst") "SST Analysis" "SST Analysis";
   mkElement None "Card" "Card";
   mkElement (Some "/tutorials/sst") "Again" "Again";
   mkElement (Some "http://x/notebook.ipynb") "" ""].

(** A hub page with links to six data pages; each data page has one
    anchor, which leads to an archive. *)
Definition page_hub : string := "http://site.example/hub".
Definition data_page (n : string) : option (LevelPage string) :=
  Some (mkLevelPage [n +:+ ".zip"] [] ["/files/" +:+ n +:+ ".zip"] []).
Definition hub_level_get (url : string) : option (LevelPage string) :=
  if String.eqb url page_hub then
    Some (mkLevelPage [] []
            ["/data/1"; "/data/2"; "/data/3"; "/data/4"; "/data/5"; "/data/6"] [])
  else if String.eqb url "http://site.example/data/1" then data_page "1"
  else if String.eqb url "http://site.example/data/2" then data_page "2"
  else if String.eqb url "http://site.example/data/3" then data_page "3"
  else if String.eqb url "http://site.example/data/4" then data_page "4"
  else if String.eqb url "http://site.example/data/5" then data_page "5"
  else if String.eqb url "http://site.example/data/6" then data_page "6"
  else None.

(** Another iteration order of the same sets: the elements without
    repetition, last first. *)
Definition reversed_set_order (xs : list string) : list string :=
  rev (remove_dups xs).


(** ** The file name as the specification words it *)

(** The specification describes the result of [sanitize_filename] in one
    sentence and not as the five passes of the code: the forbidden
    characters go, what separates the parts of the name becomes one
    underscore, nothing separates at the two ends, and the name is cut at
    50 characters.  The definitions of this part follow that description;
    they are compared with the code by the theorem on [sanitize_filename].

    A separator is a space or an underscore. *)
Definition is_separator (c : ascii) : bool :=
  Ascii.eqb c " "%char || is_underscore c.

(** The rest of a name after one of its characters was written; [pending]
    tells that separators were met since.  They give one underscore when
    another character follows and nothing at the end of the name. *)
Fixpoint collapse_after (pending : bool) (s : list ascii) : list ascii :=
  match s with
  | [] => []
  | c :: rest =>
      if is_separator c then collapse_after true rest
      else if pending then "_"%char :: c :: collapse_after false rest
      else c :: collapse_after false rest
  end.

(** Separators in front of the name give nothing. *)
Fixpoint collapse (s : list ascii) : list ascii :=
  match s with
  | [] => []
  | c :: rest =>
      if is_separator c then collapse rest else c :: collapse_after false rest
  end.

(** The name before the cut. *)
Definition described_name (filename : list ascii) : list ascii :=
  collapse (remove_forbidden filename).

(** The characters of a name that are not separators, in their order. *)
Definition kept_characters (s : list ascii) : list ascii :=
  List.filter (fun c => negb (is_separator c)) s.

(** ** CacheManager: lemmas *)

(** Unfold the plumbing of the computations. *)
Ltac monad :=
  cbv beta iota zeta delta
    [bind ret raise get put modify try_except self_ set_index
     fs_do fs_ask fs_test now _save_index in_body update_result cache_call
     fst snd] in *.

Section CacheManagerFacts.
Variable E : Env.

Lemma world_with_fs_same (w : World) : world_with_fs w (w_fs w) = w.
Proof. by destruct w. Qed.

Lemma write_file_return fs p data fs' :
  write_file fs p data = (Return tt, fs') → fs' = set_file fs p data.
Proof. unfold write_file. destruct (open_for_write fs p); naive_solver. Qed.

Lemma write_file_raise fs p data e fs' :
  write_file fs p data = (Raise e, fs') → fs' = fs.
Proof. unfold write_file. destruct (open_for_write fs p); naive_solver. Qed.

Lemma remove_cache_absent url w self :
  index self !! _get_cache_key E url = None →
  remove_cache E url (w, self) = (Return tt, (w, self)).
Proof. intros H. unfold remove_cache. monad. by rewrite H. Qed.

(** Whatever [remove_cache] does, the entry is gone afterwards, unless
    the deletion of the backing file raised. *)
Lemma remove_cache_outcome url w self o s1 :
  remove_cache E url (w, self) = (o, s1) →
  index (snd s1) !! _get_cache_key E url = None
  ∨ (is_return o = false ∧ s1 = (w, self)).
Proof.
  unfold remove_cache. monad.
  destruct (index self !! _get_cache_key E url) as [info|] eqn:Hk;
    [|intros [= <- <-]; by left].
  destruct (path_exists _ _).
  - destruct (unlink _ _) as [[[]|e] fs'] eqn:Hu; monad.
    + destruct (write_file _ _ _) as [[[]|e] fs'']; intros [= <- <-]; left;
        simpl; apply lookup_delete_eq.
    + intros [= <- <-]. right. split; [done|].
      unfold unlink in Hu. repeat case_match; simplify_eq.
      all: by rewrite world_with_fs_same.
  - monad. destruct (write_file _ _ _) as [[[]|e] fs'']; intros [= <- <-]; left;
      simpl; apply lookup_delete_eq.
Qed.

Lemma is_cached_absent url w self :
  index self !! _get_cache_key E url = None →
  is_cached E url (w, self) = (Return false, (w, self)).
Proof. intros H. unfold is_cached. monad. by rewrite H. Qed.

(** An entry that has not expired: [is_cached] reads the clock once and
    answers whether the backing file exists. *)
Lemma is_cached_fresh url w self info :
  index self !! _get_cache_key E url = Some info →
  datetime_now E (w_clock w) - info_date info ≤ timedelta_days (expire_days self) →
  is_cached E url (w, self)
  = (Return (path_exists (w_fs w) (path_div (cache_dir self) (info_filename info))),
     (tick w, self)).
Proof.
  intros Hk Hage. unfold is_cached. monad. rewrite Hk. monad.
  destruct (Z.ltb_spec (timedelta_days (expire_days self))
              (datetime_now E (w_clock w) - info_date info)); [lia|done].
Qed.

Lemma is_dir_set_file fs p data q : is_dir (set_file fs p data) q = is_dir fs q.
Proof. reflexivity. Qed.

Lemma is_file_set_file fs p data q :
  is_file (set_file fs p data) q = bool_decide (p = q) || is_file fs q.
Proof.
  unfold is_file, set_file; simpl. rewrite lookup_insert.
  repeat case_decide; repeat case_bool_decide; simpl; try done.
  - exfalso; eauto.
  - exfalso; eauto.
Qed.

Lemma path_exists_set_file fs p data q :
  path_exists fs q = true → path_exists (set_file fs p data) q = true.
Proof.
  unfold path_exists. rewrite is_dir_set_file, is_file_set_file.
  destruct (is_file fs q), (is_dir fs q), (bool_decide (p = q)); naive_solver.
Qed.

Lemma path_exists_written fs p data : path_exists (set_file fs p data) p = true.
Proof.
  unfold path_exists. rewrite is_file_set_file.
  by rewrite bool_decide_eq_true_2.
Qed.

Lemma copy2_return fs src dst fs' :
  copy2 fs src dst = (Return tt, fs') →
  ∃ data, read_file fs src = Return data
          ∧ fs' = set_file fs (copy2_target fs src dst) data.
Proof.
  unfold copy2, copy2_target. intros H.
  destruct (_ && _); [done|].
  destruct (read_file fs src) as [data|e]; [|done].
  exists data. split; [done|]. by apply write_file_return in H.
Qed.

Lemma copy2_raise fs src dst e fs' :
  copy2 fs src dst = (Raise e, fs') → fs' = fs.
Proof.
  unfold copy2. intros H.
  destruct (_ && _); [naive_solver|].
  destruct (read_file fs src) as [data|e']; [|naive_solver].
  by apply write_file_raise in H.
Qed.

(** After a copy, the destination exists: as the file written, or as the
    directory the file went into. *)
Lemma copy2_exists fs src dst fs' :
  copy2 fs src dst = (Return tt, fs') → path_exists fs' dst = true.
Proof.
  intros (data & _ & ->)%copy2_return. unfold copy2_target.
  destruct (is_dir fs dst) eqn:Hd.
  - unfold path_exists. rewrite is_dir_set_file, Hd. apply orb_true_r.
  - apply path_exists_written.
Qed.

(** What a successful [add_to_cache] leaves. *)
Lemma add_to_cache_return url src w self p w1 self1 :
  add_to_cache E url src (w, self) = (Return p, (w1, self1)) →
  let cache_key := _get_cache_key E url in
  let cache_filename := cache_key +:+ "_" +:+ path_name src in
  p = path_div (cache_dir self) cache_filename
  ∧ cache_dir self1 = cache_dir self
  ∧ expire_days self1 = expire_days self
  ∧ (∃ sz, index self1
           = <[cache_key := mkCacheInfo url cache_filename (path_name src)
                              (datetime_now E (w_clock w)) sz]> (index self))
  ∧ path_exists (w_fs w1) p = true
  ∧ w_clock w1 = S (w_clock w).
Proof.
  unfold add_to_cache. monad.
  destruct (copy2 _ _ _) as [[[]|e] fs1] eqn:Hc; [|done]. monad.
  destruct (stat_size _ _) as [sz|e]; [|done]. monad.
  destruct (write_file _ _ _) as [[[]|e] fs2] eqn:Hw; [|done].
  intros [= <- <- <-]. simpl. repeat split; eauto.
  apply write_file_return in Hw as ->.
  apply path_exists_set_file. by eapply copy2_exists.
Qed.

(** The index after a method call: as before, or with the key of the
  locator removed, or, for [add_to_cache], with an entry under it. *)
Lemma remove_cache_index url s :
index (snd (snd (remove_cache E url s))) = index (snd s)
∨ index (snd (snd (remove_cache E url s)))
  = delete (_get_cache_key E url) (index (snd s)).
Proof.
destruct s as [w self]. unfold remove_cache. monad.
destruct (index self !! _get_cache_key E url) as [info|]; [|by left].
destruct (path_exists _ _); monad.
- destruct (unlink _ _) as [[[]|e] fs']; monad; [|by left].
  destruct (write_file _ _ _) as [[[]|e] fs'']; by right.
- destruct (write_file _ _ _) as [[[]|e] fs'']; by right.
Qed.

Lemma is_cached_index url s :
index (snd (snd (is_cached E url s))) = index (snd s)
∨ index (snd (snd (is_cached E url s)))
  = delete (_get_cache_key E url) (index (snd s)).
Proof.
destruct s as [w self]. unfold is_cached. monad.
destruct (index self !! _get_cache_key E url) as [info|]; [|by left]. monad.
destruct (_ <? _); [|by left].
pose proof (remove_cache_index url (tick w, self)) as H. unfold tick in H.
destruct (remove_cache E url _) as [[[]|e] [w1 self1]]; exact H.
Qed.

Lemma get_cached_file_state url s :
snd (get_cached_file E url s) = snd (is_cached E url s).
Proof.
unfold get_cached_file, bind.
destruct (is_cached E url s) as [[hit|e] [w1 self1]]; [|done].
destruct hit; simpl; [|done]. monad.
by destruct (index self1 !! _get_cache_key E url).
Qed.

Lemma get_cached_file_index url s :
index (snd (snd (get_cached_file E url s))) = index (snd s)
∨ index (snd (snd (get_cached_file E url s)))
  = delete (_get_cache_key E url) (index (snd s)).
Proof. rewrite get_cached_file_state. apply is_cached_index. Qed.

Lemma add_to_cache_index url source_file s :
index (snd (snd (add_to_cache E url source_file s))) = index (snd s)
∨ ∃ info, index (snd (snd (add_to_cache E url source_file s)))
          = <[_get_cache_key E url := info]> (index (snd s)).
Proof.
destruct s as [w self]. unfold add_to_cache. monad.
destruct (copy2 _ _ _) as [[[]|e] fs1]; monad; [|by left].
destruct (stat_size _ _) as [sz|e]; monad; [|by left].
destruct (write_file _ _ _) as [[[]|e] fs2]; right; eauto.
Qed.

(** A key that is not in the index stays out of it as long as nothing is
  added under it. *)
Lemma run_ops_absent key ops :
Forall (fun op => ¬ adds_key E key op) ops →
∀ s, index (snd s) !! key = None → index (snd (run_ops E ops s)) !! key = None.
Proof.
unfold run_ops.
induction 1 as [|op ops Hop _ IH]; intros s Hk; simpl; [done|].
apply IH. destruct op as [url|url|url src|url|change]; simpl in *.
- destruct (is_cached_index url s) as [-> | ->]; [done|].
  rewrite lookup_delete. by case_decide.
- destruct (get_cached_file_index url s) as [-> | ->]; [done|].
  rewrite lookup_delete. by case_decide.
- destruct (add_to_cache_index url src s) as [-> | [info ->]]; [done|].
  by rewrite lookup_insert_ne.
- destruct (remove_cache_index url s) as [-> | ->]; [done|].
  rewrite lookup_delete. by case_decide.
- done.
Qed.

(** C3. Cache round trip.  A locator whose key is not in the index, as
    every locator of a manager created over a directory without an index
    file, is not cached, and stays so through any history of calls and
    outside changes that adds nothing under its key; after
    [add_to_cache(url, file)] returned, [is_cached(url)] is true at every
    clock reading not more than [expire_days] days after the one the
    entry was stamped with, as long as the index still holds the entry and
    the cached file still exists.  The default window is 30 days. *)
Theorem cache_round_trip (url : string) :
  (∀ w self, index self !! _get_cache_key E url = None →
             is_cached E url (w, self) = (Return false, (w, self)))
  ∧ (∀ ops s, index (snd s) !! _get_cache_key E url = None →
              Forall (fun op => ¬ adds_key E (_get_cache_key E url) op) ops →
              is_cached E url (run_ops E ops s) = (Return false, run_ops E ops s))
  ∧ (∀ dir w w' self,
       path_exists (w_fs w) (path_div dir "cache_index.json") = false →
       CacheManager_init E dir default_expire_days (w, tt) = (Return self, (w', tt)) →
       expire_days self = 30
       ∧ ∀ w'', is_cached E url (w'', self) = (Return false, (w'', self)))
  ∧ (∀ source_file w self cache_file w1 self1,
       add_to_cache E url source_file (w, self) = (Return cache_file, (w1, self1)) →
       ∀ w2 self2,
         index self2 !! _get_cache_key E url = index self1 !! _get_cache_key E url →
         cache_dir self2 = cache_dir self1 →
         expire_days self2 = expire_days self1 →
         path_exists (w_fs w2) cache_file = true →
         datetime_now E (w_clock w2) - datetime_now E (w_clock w)
           ≤ timedelta_days (expire_days self) →
         is_cached E url (w2, self2) = (Return true, (tick w2, self2))).
Proof.
  split; [|split; [|split]].
  - intros w self. apply is_cached_absent.
  - intros ops s Hk Hops.
    pose proof (run_ops_absent _ ops Hops s Hk) as Hafter.
    destruct (run_ops E ops s) as [w' self']. by apply is_cached_absent.
  - intros dir w w' self Hno. unfold CacheManager_init, _load_index. monad.
    destruct (mkdir_exist_ok (w_fs w) dir) as [[[]|e] fs1] eqn:Hm; [|done].
    assert (fs1 = w_fs w ∨ fs1 = mkFS (files (w_fs w)) ({[dir]} ∪ dirs (w_fs w)))
      as Hfs1.
    { unfold mkdir_exist_ok in Hm. repeat case_match; simplify_eq; eauto. }
    monad. simpl.
    assert (path_exists fs1 (path_div dir "cache_index.json") = false) as ->.
    { destruct Hfs1 as [-> | ->]; [done|].
      revert Hno. unfold path_exists, is_file, is_dir; simpl.
      intros [Hf Hd]%orb_false_elim. rewrite Hf; simpl.
      apply bool_decide_eq_false. apply bool_decide_eq_false in Hd.
      intros [Heq | Hin]; [by destruct dir|].
      apply elem_of_union in Hin as [Hin%elem_of_singleton | Hin]; [|tauto].
      unfold path_div in Hin. apply (f_equal length) in Hin.
      rewrite length_app in Hin. simpl in Hin. lia. }
    intros [= <- <-]. split; [done|]. intros w''. by apply is_cached_absent.
  - intros src w self p w1 self1 Hadd w2 self2 Hix Hdir Hdays Hex Hage.
    apply add_to_cache_return in Hadd
      as (-> & Hdir1 & Hdays1 & [sz Hix1] & _ & _).
    rewrite Hix1, lookup_insert_eq in Hix.
    rewrite (is_cached_fresh url w2 self2 _ Hix); simpl.
    + by rewrite Hdir, Hdir1, Hex.
    + by rewrite Hdays, Hdays1.
Qed.

(** C7, as amended.  An entry whose backing file is gone: [is_cached]
    returns false.  It does so without raising when the entry has not
    expired, and also when it has, provided the index file can be
    rewritten (an expired entry is evicted, and the index saved, before
    the answer). *)
Theorem is_cached_missing_file (url : string) (w : World) (self : CacheManager)
    (cache_info : CacheInfo) :
  index self !! _get_cache_key E url = Some cache_info →
  path_exists (w_fs w) (path_div (cache_dir self) (info_filename cache_info)) = false →
  datetime_now E (w_clock w) - info_date cache_info ≤ timedelta_days (expire_days self)
  ∨ open_for_write (w_fs w) (index_file self) = Return tt →
  ∃ s', is_cached E url (w, self) = (Return false, s').
Proof.
  intros Hk Hgone Hok.
  destruct (Z.le_gt_cases (datetime_now E (w_clock w) - info_date cache_info)
              (timedelta_days (expire_days self))) as [Hfresh | Hold].
  - eexists. rewrite (is_cached_fresh url w self _ Hk Hfresh). by rewrite Hgone.
  - destruct Hok as [Hfresh | Hopen]; [lia|].
    unfold is_cached. monad. rewrite Hk. monad.
    destruct (Z.ltb_spec (timedelta_days (expire_days self))
                (datetime_now E (w_clock w) - info_date cache_info)); [|lia].
    unfold remove_cache. monad. rewrite Hk. monad. simpl. rewrite Hgone. monad.
    unfold write_file, index_file in *. simpl. rewrite Hopen. eauto.
Qed.

(** A [remove_cache] that raises: the deletion of the backing file
    raised and nothing has changed, or the entry is out of the index in
    memory and the index file could not be opened for writing. *)
Lemma remove_cache_raises url w self e s1 :
  remove_cache E url (w, self) = (Raise e, s1) →
  ∃ cache_info,
    index self !! _get_cache_key E url = Some cache_info
    ∧ ((s1 = (w, self)
        ∧ unlink (w_fs w) (path_div (cache_dir self) (info_filename cache_info))
          = (Raise e, w_fs w))
       ∨ (index (snd s1) = delete (_get_cache_key E url) (index self)
          ∧ open_for_write (w_fs (fst s1)) (index_file self) = Raise e)).
Proof.
  unfold remove_cache. monad.
  destruct (index self !! _get_cache_key E url) as [info|] eqn:Hk; [|done].
  intros H. exists info. split; [done|]. revert H.
  destruct (path_exists _ _).
  - destruct (unlink _ _) as [[[]|e1] fs'] eqn:Hu; monad.
    + unfold write_file, index_file. simpl.
      destruct (open_for_write _ _) as [[]|e2] eqn:Hopen; intros [= <- <-].
      right. simpl. by rewrite Hopen.
    + intros [= <- <-]. left.
      assert (fs' = w_fs w) as ->.
      { unfold unlink in Hu. by repeat case_match; simplify_eq. }
      by rewrite world_with_fs_same.
  - monad. unfold write_file, index_file. simpl.
    destruct (open_for_write _ _) as [[]|e2] eqn:Hopen; intros [= <- <-].
    right. simpl. by rewrite Hopen.
Qed.

(** C9, as amended.  Removing a locator that is not in the index changes
    nothing and does not raise.  After a [remove_cache] that returned,
    the entry is gone and a second call is such a no-op.  [remove_cache]
    handles no exception.  When the first call raises, the entry was in
    the index, and either the deletion of the backing file raised:
    nothing has changed, the entry is still in the index and a second
    call raises the same exception; or the entry is out of the index in
    memory and it is the index file that could not be opened for writing:
    a second call returns and changes nothing. *)
Theorem remove_cache_idempotent (url : string) (w : World) (self : CacheManager) :
  (index self !! _get_cache_key E url = None →
   remove_cache E url (w, self) = (Return tt, (w, self)))
  ∧ (∀ w1 self1,
       remove_cache E url (w, self) = (Return tt, (w1, self1)) →
       index self1 !! _get_cache_key E url = None
       ∧ remove_cache E url (w1, self1) = (Return tt, (w1, self1)))
  ∧ (∀ e s1,
       remove_cache E url (w, self) = (Raise e, s1) →
       ∃ cache_info,
         index self !! _get_cache_key E url = Some cache_info
         ∧ ((s1 = (w, self)
             ∧ unlink (w_fs w)
                      (path_div (cache_dir self) (info_filename cache_info))
               = (Raise e, w_fs w)
             ∧ remove_cache E url s1 = (Raise e, s1))
            ∨ (index (snd s1) = delete (_get_cache_key E url) (index self)
               ∧ open_for_write (w_fs (fst s1)) (index_file self) = Raise e
               ∧ remove_cache E url s1 = (Return tt, s1)))).
Proof.
  split_and!; [apply remove_cache_absent| |].
  - intros w1 self1 H.
    destruct (remove_cache_outcome _ _ _ _ _ H) as [Hgone | [? _]]; [|done].
    split; [done|]. by apply remove_cache_absent.
  - intros e s1 H.
    destruct (remove_cache_raises _ _ _ _ _ H) as (info & Hk & [[-> Hu] | [Hix Hopen]]).
    + exists info. split; [done|]. left. by split_and!.
    + exists info. split; [done|]. right. split_and!; [done..|].
      destruct s1 as [w1 self1]. apply remove_cache_absent.
      simpl in Hix. rewrite Hix. apply lookup_delete_eq.
Qed.
End CacheManagerFacts.


(** ** ParallelDownloader: lemmas *)

Lemma append_nonempty_r (s t : string) : t ≠ "" → s +:+ t ≠ "".
Proof. destruct s; [done|]. intros _. done. Qed.

Lemma described_HTTPError status reason url : described (HTTPError status reason url).
Proof. apply append_nonempty_r. by destruct (status <? 500). Qed.

Create HintDb described.
#[local] Hint Extern 1 (described _) => (by unfold described) : described.
#[local] Hint Resolve described_HTTPError : described.

Lemma raises_described_bind {S A B} (m : M S A) (k : A → M S B) :
  raises_described m → (∀ a, raises_described (k a)) → raises_described (bind m k).
Proof.
  intros Hm Hk s e s'. unfold bind.
  destruct (m s) as [[a|e'] s1] eqn:Hms.
  - apply Hk.
  - intros [= <- <-]. by eapply Hm.
Qed.

Lemma raises_described_ret {S A} (a : A) : raises_described (ret a : M S A).
Proof. by intros s e s'. Qed.

Lemma raises_described_raise {S A} (e : exn) :
  described e → raises_described (raise e : M S A).
Proof. intros H s e' s' [= <- <-]. done. Qed.

(** Operations that always return. *)
Lemma raises_described_total {S A} (m : M S A) :
  (∀ s, is_return (fst (m s)) = true) → raises_described m.
Proof. intros H s e s' Hm. specialize (H s). by rewrite Hm in H. Qed.

Lemma raises_described_fs_do {X A} (op : FS → outcome A * FS) :
  (∀ fs e fs', op fs = (Raise e, fs') → described e) →
  raises_described (fs_do op : M (World * X) A).
Proof.
  intros H [w x] e s'. unfold fs_do.
  destruct (op (w_fs w)) as [[a|e'] fs'] eqn:Hop; [done|].
  intros [= <- <-]. by eapply H.
Qed.

Lemma raises_described_fs_ask {X A} (q : FS → outcome A) :
  (∀ fs e, q fs = Raise e → described e) →
  raises_described (fs_ask q : M (World * X) A).
Proof. intros H [w x] e s'. unfold fs_ask. simpl. intros [= ? <-]. by eapply H. Qed.

Lemma raises_described_in_body {A} (m : DL A) :
  raises_described m → raises_described (in_body m).
Proof.
  intros H [r s] e s'. unfold in_body.
  destruct (m s) as [[a|e'] s1] eqn:Hms; [done|].
  intros [= <- <-]. by eapply H.
Qed.

Lemma raises_described_cache_call {A} (m : CM A) (absent : A) :
  raises_described m → raises_described (cache_call m absent).
Proof.
  intros H [w [cm|]] e s'; unfold cache_call; [|done].
  destruct (m (w, cm)) as [[a|e'] [w1 cm1]] eqn:Hms; [done|].
  intros [= <- <-]. by eapply H.
Qed.

Ltac fs_cases :=
  intros;
  repeat match goal with
         | H : context [match ?x with _ => _ end] |- _ => destruct x eqn:?
         | H : context [if ?x then _ else _] |- _ => destruct x eqn:?
         end;
  simplify_eq; auto with described.

Lemma write_file_described fs p data e fs' :
  write_file fs p data = (Raise e, fs') → described e.
Proof. unfold write_file, open_for_write. fs_cases. Qed.

Lemma unlink_described fs p e fs' : unlink fs p = (Raise e, fs') → described e.
Proof. unfold unlink. fs_cases. Qed.

Lemma read_file_described fs p e : read_file fs p = Raise e → described e.
Proof. unfold read_file. fs_cases. Qed.

Lemma stat_size_described fs p e : stat_size fs p = Raise e → described e.
Proof. unfold stat_size. fs_cases. Qed.

Lemma mkdir_parents_described fs p e fs' :
  mkdir_parents fs p = (Raise e, fs') → described e.
Proof. unfold mkdir_parents. fs_cases. Qed.

Lemma copy2_described fs src dst e fs' :
  copy2 fs src dst = (Raise e, fs') → described e.
Proof.
  unfold copy2. intros H.
  destruct (_ && _); [simplify_eq; apply append_nonempty_r; done|].
  destruct (read_file fs src) eqn:Hr.
  - by eapply write_file_described.
  - simplify_eq. by eapply read_file_described.
Qed.

#[local] Hint Resolve write_file_described unlink_described read_file_described
  stat_size_described mkdir_parents_described copy2_described : described.

Ltac described_step :=
  first
    [ apply raises_described_bind; [|intros ?]
    | apply raises_described_ret
    | apply raises_described_in_body
    | apply raises_described_cache_call
    | apply raises_described_fs_do; eauto with described
    | apply raises_described_fs_ask; eauto with described
    | apply raises_described_raise; auto with described
    | apply raises_described_total; intros [? ?]; reflexivity ].

Ltac described_auto := repeat (described_step || case_match).

Section DownloaderFacts.
Variable E : Env.

Lemma save_index_described : raises_described (_save_index E).
Proof. unfold _save_index. repeat described_step. Qed.

Lemma remove_cache_described url : raises_described (remove_cache E url).
Proof. unfold remove_cache. described_auto. Qed.

Lemma is_cached_described url : raises_described (is_cached E url).
Proof.
  unfold is_cached. described_auto.
Qed.

Lemma get_cached_file_described url : raises_described (get_cached_file E url).
Proof.
  unfold get_cached_file. described_step; [apply is_cached_described|].
  described_auto.
Qed.

Lemma add_to_cache_described url src : raises_described (add_to_cache E url src).
Proof. unfold add_to_cache. described_auto. Qed.

Lemma lookup_cache_described url use_cache :
  raises_described (lookup_cache E url use_cache).
Proof.
  unfold lookup_cache. described_step.
  - destruct use_cache; [|described_step].
    described_step. apply is_cached_described.
  - destruct a; [|described_step].
    described_step. apply get_cached_file_described.
Qed.

Lemma store_in_cache_described url filepath use_cache :
  raises_described (store_in_cache E url filepath use_cache).
Proof.
  unfold store_in_cache. destruct use_cache; [|described_step].
  described_step. described_step; [apply add_to_cache_described|described_step].
Qed.

Lemma serve_from_cache_described cached_file filepath :
  raises_described (serve_from_cache cached_file filepath).
Proof. unfold serve_from_cache. described_auto. Qed.

Hypothesis env_ok : env_describes_errors E.

Lemma session_get_described {X} url :
  raises_described (session_get E url : M (World * X) Response).
Proof.
  intros [w x] e s'. unfold session_get.
  pose proof (env_ok (length (w_requests w)) url) as H.
  destruct (http_get E _ url); [|done].
  intros [= <- <-]. done.
Qed.

Lemma session_get_response {X} url (s s' : World * X) r :
  session_get E url s = (Return r, s') →
  ∀ msg, stream_error r = Some msg → msg ≠ "".
Proof.
  destruct s as [w x]. unfold session_get.
  pose proof (env_ok (length (w_requests w)) url) as H.
  destruct (http_get E _ url); [done|].
  intros [= <- <-]. done.
Qed.

Lemma fetch_to_file_described url filepath :
  raises_described (fetch_to_file E url filepath).
Proof.
  intros [r s] e s'. unfold fetch_to_file. unfold bind at 1. unfold in_body at 1.
  destruct (session_get E url s) as [[resp|e'] s1] eqn:Hg.
  - pose proof (session_get_response _ _ _ _ Hg) as Hs.
    revert e s'. generalize (r, s1).
    change (raises_described
      (in_body (raise_for_status url resp) ;;;
       total_size <- in_body (total_size_of resp) ;;
       in_body (fs_do (fun fs => mkdir_parents fs (path_parent filepath))) ;;;
       in_body (stream_to_file filepath resp) ;;;
       update_result (fun r => set_success r true) ;;;
       sz <- in_body (fs_ask (fun fs => stat_size fs filepath)) ;;
       update_result (fun r => set_size r sz))).
    unfold raise_for_status, total_size_of, stream_to_file.
    described_auto. by apply Hs.
  - intros [= <- <-]. by eapply (session_get_described (X:=option CacheManager)).
Qed.

Lemma download_file_body_described url filepath use_cache :
  raises_described (download_file_body E url filepath use_cache).
Proof.
  unfold download_file_body. described_step.
  - described_step. apply lookup_cache_described.
  - destruct a.
    + apply serve_from_cache_described.
    + described_step; [apply fetch_to_file_described|].
      described_step. apply store_in_cache_described.
Qed.

Ltac innermost_case :=
  match goal with
  | |- context [match ?x with _ => _ end] =>
      lazymatch x with
      | context [match _ with _ => _ end] => fail
      | _ => destruct x eqn:?
      end
  end.

Ltac run_cases :=
  monad; repeat (innermost_case; monad);
  intros; simplify_eq; simpl; try done; auto.

Lemma serve_from_cache_fields cached_file filepath r s o r' s' :
  serve_from_cache cached_file filepath (r, s) = (o, (r', s')) →
  same_task r r' ∧ (is_return o = true → res_success r' = true).
Proof.
  unfold serve_from_cache, same_task. destruct s as [w x]. run_cases.
Qed.

(** What [fetch_to_file] leaves: on return the destination holds the
    bytes whose length the result reports. *)
Lemma fetch_to_file_spec url filepath r w x o r' s' :
  fetch_to_file E url filepath (r, (w, x)) = (o, (r', s')) →
  snd s' = x
  ∧ match o with
    | Return _ =>
        ∃ data, files (w_fs (fst s')) !! filepath = Some data
                ∧ r' = set_size (set_success r true) (Z.of_nat (length data))
    | Raise _ => same_task r r'
    end.
Proof.
  unfold fetch_to_file, same_task, session_get, raise_for_status, total_size_of,
    stream_to_file.
  run_cases.
  all: match goal with
       | H : stat_size _ _ = Return _ |- _ =>
           unfold stat_size, set_file in H; simpl in H;
           rewrite lookup_insert_eq in H; simplify_eq
       end.
  all: split; [done|]; eexists; split;
    [unfold set_file; simpl; apply lookup_insert_eq | reflexivity].
Qed.

Lemma fetch_to_file_fields url filepath r s o r' s' :
  fetch_to_file E url filepath (r, s) = (o, (r', s')) →
  same_task r r' ∧ (is_return o = true → res_success r' = true).
Proof.
  destruct s as [w x]. intros [_ H]%fetch_to_file_spec.
  destruct o as [[]|e]; [|by split].
  destruct H as (data & _ & ->). by split.
Qed.

Lemma download_file_body_fields url filepath use_cache r s o r' s' :
  download_file_body E url filepath use_cache (r, s) = (o, (r', s')) →
  same_task r r' ∧ (is_return o = true → res_success r' = true).
Proof.
  unfold download_file_body. unfold bind at 1. unfold in_body at 1.
  destruct (lookup_cache E url use_cache s) as [[[cached_path|]|e] s1].
  - apply serve_from_cache_fields.
  - unfold bind. destruct (fetch_to_file E url filepath (r, s1))
      as [[[]|e] [r1 s2]] eqn:Hf.
    + apply fetch_to_file_fields in Hf as [Hsame Hok]. unfold in_body.
      destruct (store_in_cache E url filepath use_cache s2) as [[[]|e] s3];
        intros [= <- <- <-]; split; auto.
    + apply fetch_to_file_fields in Hf as [Hsame Hok].
      intros [= <- <- <-]. split; [done|]. done.
  - intros [= <- <- <-]. split; [done|]. done.
Qed.

(** [download_file] always returns a result: the task's own, and with an
    error text when it failed. *)
Lemma download_file_result url filepath use_cache s :
  ∃ r s', download_file E url filepath use_cache s = (Return r, s')
          ∧ res_url r = url ∧ res_filepath r = path_str filepath
          ∧ (res_success r = false → ∃ msg, res_error r = Some msg ∧ msg ≠ "").
Proof.
  unfold download_file.
  destruct (download_file_body E url filepath use_cache _)
    as [[[]|e] [r' s']] eqn:Hb.
  - apply download_file_body_fields in Hb as [[Hu Hp] Hok].
    exists r', s'. repeat split; [done..|].
    intros Hfail. rewrite Hok in Hfail; done.
  - pose proof (download_file_body_described _ _ _ _ _ _ Hb) as Hd.
    apply download_file_body_fields in Hb as [[Hu Hp] _].
    eexists _, s'. repeat split; [done..|].
    intros _. eexists. split; [reflexivity|]. exact Hd.
Qed.

Lemma run_tasks_results tasks use_cache s :
  ∃ results s', run_tasks E tasks use_cache s = (Return results, s')
                ∧ map result_task results = map task_tag tasks
                ∧ Forall failure_explained results.
Proof.
  revert s. induction tasks as [|[url p] rest IH]; intros s; simpl.
  - exists [], s. by repeat split.
  - destruct (download_file_result url p use_cache s)
      as (r & s1 & Hr & Hu & Hp & Hf).
    destruct (IH s1) as (rs & s2 & Hrs & Htags & Hall).
    exists (r :: rs), s2. unfold bind, ret. rewrite Hr, Hrs.
    repeat split; [|by constructor].
    simpl. unfold result_task at 1, task_tag at 1. simpl.
    by rewrite Hu, Hp, Htags.
Qed.

(** C2. Batch completeness: whatever order the pool completes the tasks
    in, [download_batch] returns, without raising, one result per task,
    each carrying the locator and the destination of its task; a result
    that reports a failure carries a non-empty error text. *)
Theorem download_batch_complete (completion_order : list Task → list Task)
    (download_tasks : list Task) (use_cache : bool)
    (s : World * option CacheManager) :
  Permutation (completion_order download_tasks) download_tasks →
  ∃ results s',
    download_batch E completion_order download_tasks use_cache s
    = (Return results, s')
    ∧ length results = length download_tasks
    ∧ map result_task results = map task_tag (completion_order download_tasks)
    ∧ Permutation (map result_task results) (map task_tag download_tasks)
    ∧ Forall failure_explained results.
Proof.
  intros Hperm. unfold download_batch.
  destruct (run_tasks_results (completion_order download_tasks) use_cache s)
    as (results & s' & Hrun & Htags & Hall).
  exists results, s'. repeat split; [done| |done| |done].
  - apply (f_equal length) in Htags. rewrite !length_map in Htags.
    rewrite Htags. by apply Permutation_length.
  - rewrite Htags. by apply Permutation_map.
Qed.
End DownloaderFacts.

Section DownloadFileClaims.
Variable E : Env.

Lemma stat_size_exists fs p :
  path_exists fs p = true → ∃ sz, stat_size fs p = Return sz.
Proof.
  unfold path_exists, is_file, stat_size. intros H.
  destruct (files fs !! p) eqn:Hf; [eauto|].
  rewrite bool_decide_eq_false_2 in H by (by intros [? ?]).
  simpl in H. rewrite H. eauto.
Qed.

Lemma lookup_cache_miss use_cache cache_manager url w :
  not_in_cache E use_cache cache_manager url →
  lookup_cache E url use_cache (w, cache_manager) = (Return None, (w, cache_manager)).
Proof.
  unfold lookup_cache. intros [-> | H]; [done|].
  destruct use_cache; [|done]. destruct cache_manager as [cm|]; [|done].
  monad. by rewrite (is_cached_absent E url w cm H).
Qed.

(** A hit: both checks read the clock and find the entry fresh. *)
Lemma lookup_cache_hit url w cm cache_info :
  index cm !! _get_cache_key E url = Some cache_info →
  path_exists (w_fs w) (path_div (cache_dir cm) (info_filename cache_info)) = true →
  datetime_now E (w_clock w) - info_date cache_info
    ≤ timedelta_days (expire_days cm) →
  datetime_now E (S (w_clock w)) - info_date cache_info
    ≤ timedelta_days (expire_days cm) →
  lookup_cache E url true (w, Some cm)
  = (Return (Some (path_div (cache_dir cm) (info_filename cache_info))),
     (tick (tick w), Some cm)).
Proof.
  intros Hk Hex H1 H2. unfold lookup_cache, get_cached_file. monad.
  rewrite (is_cached_fresh E url w cm _ Hk H1), Hex. monad.
  rewrite (is_cached_fresh E url (tick w) cm _ Hk H2). simpl. rewrite Hex.
  monad. simpl. by rewrite Hk.
Qed.

(** C1, as amended.  The locator has an entry that is fresh at the two
    clock readings of the cache check, and the cached file exists: the
    task never sends a GET; it reports success, served from the cache,
    when the copy to the destination succeeds, and a failure with the
    text of the exception when the copy raises. *)
Theorem cache_hit_short_circuit (url : string) (filepath : path) (w : World)
    (cm : CacheManager) (cache_info : CacheInfo) :
  index cm !! _get_cache_key E url = Some cache_info →
  path_exists (w_fs w) (path_div (cache_dir cm) (info_filename cache_info)) = true →
  datetime_now E (w_clock w) - info_date cache_info
    ≤ timedelta_days (expire_days cm) →
  datetime_now E (S (w_clock w)) - info_date cache_info
    ≤ timedelta_days (expire_days cm) →
  ∃ r s',
    download_file E url filepath true (w, Some cm) = (Return r, s')
    ∧ w_requests (fst s') = w_requests w
    ∧ match fst (copy2 (w_fs w) (path_div (cache_dir cm) (info_filename cache_info))
                       filepath) with
      | Return _ => res_success r = true ∧ res_cached r = true ∧ res_error r = None
      | Raise e => res_success r = false ∧ res_cached r = false
                   ∧ res_error r = Some (exn_str e)
      end.
Proof.
  intros Hk Hex H1 H2. unfold download_file, download_file_body.
  unfold bind at 1. unfold in_body at 1.
  rewrite (lookup_cache_hit url w cm cache_info Hk Hex H1 H2).
  unfold serve_from_cache. monad. simpl.
  destruct (copy2 _ _ _) as [[[]|e] fs'] eqn:Hc; monad; simpl.
  - destruct (stat_size_exists fs' filepath) as [sz ->];
      [by eapply copy2_exists|].
    eexists _, _. split; [reflexivity|]. by repeat split.
  - eexists _, _. split; [reflexivity|]. by repeat split.
Qed.

(** C4, as amended.  A task whose locator is not in the cache and whose
    fetch raises a transport error reports a failure with the text of the
    exception.  When the GET itself raises, or the status is an error
    status, the file system is left as it was: no file appears at the
    destination.  When the connection breaks while the body is read, the
    destination holds the bytes received so far: nothing removes them. *)
Theorem failed_fetch_result (url : string) (filepath : path) (use_cache : bool)
    (w : World) (cache_manager : option CacheManager) :
  not_in_cache E use_cache cache_manager url →
  (∀ msg,
     http_get E (length (w_requests w)) url = GetRaises msg →
     download_file E url filepath use_cache (w, cache_manager)
     = (Return (set_error (initial_result url filepath) msg),
        (requested w url, cache_manager)))
  ∧ (∀ resp,
       http_get E (length (w_requests w)) url = Responds resp →
       400 ≤ status_code resp < 600 →
       download_file E url filepath use_cache (w, cache_manager)
       = (Return (set_error (initial_result url filepath)
                            (exn_str (HTTPError (status_code resp) (reason resp) url))),
          (requested w url, cache_manager)))
  ∧ (∀ resp msg fs1,
       http_get E (length (w_requests w)) url = Responds resp →
       ¬ (400 ≤ status_code resp < 600) →
       (∀ raw, content_length resp ≠ CLInvalid raw) →
       mkdir_parents (w_fs w) (path_parent filepath) = (Return tt, fs1) →
       open_for_write fs1 filepath = Return tt →
       stream_error resp = Some msg →
       ∃ w',
         download_file E url filepath use_cache (w, cache_manager)
         = (Return (set_error (initial_result url filepath) msg), (w', cache_manager))
         ∧ files (w_fs w') !! filepath = Some (body_bytes resp)).
Proof.
  intros Hmiss.
  assert (∀ r, download_file_body E url filepath use_cache (r, (w, cache_manager))
               = (fetch_to_file E url filepath ;;;
                  in_body (store_in_cache E url filepath use_cache))
                   (r, (w, cache_manager))) as Hbody.
  { intros r. unfold download_file_body. unfold bind at 1. unfold in_body at 1.
    by rewrite (lookup_cache_miss _ _ _ _ Hmiss). }
  unfold download_file, initial_result. rewrite Hbody. clear Hbody.
  unfold fetch_to_file, session_get, raise_for_status, total_size_of,
    stream_to_file, requested.
  split; [|split].
  - intros msg Hget. monad. by rewrite Hget.
  - intros resp Hget [Hlo Hhi]. monad. rewrite Hget.
    apply Z.leb_le in Hlo. apply Z.ltb_lt in Hhi. by rewrite Hlo, Hhi.
  - intros resp msg fs1 Hget Hstatus Hlen Hmk Hopen Herr. monad. rewrite Hget.
    assert ((400 <=? status_code resp) && (status_code resp <? 600) = false) as ->.
    { apply andb_false_iff.
      destruct (Z.leb_spec 400 (status_code resp)); [|by left].
      destruct (Z.ltb_spec (status_code resp) 600); [lia|by right]. }
    monad.
    destruct (content_length resp) eqn:Hcl; [| |by destruct (Hlen raw)].
    all: monad; simpl; rewrite Hmk; monad; simpl.
    all: unfold write_file; rewrite Hopen; monad; simpl; rewrite Herr.
    all: eexists; split; [reflexivity|]; simpl; apply lookup_insert_eq.
Qed.

(** A failing [add_to_cache] does not touch the file it was to copy. *)
Lemma add_to_cache_raise_keeps url source_file w cm e w' cm' :
  add_to_cache E url source_file (w, cm) = (Raise e, (w', cm')) →
  files (w_fs w') !! source_file = files (w_fs w) !! source_file.
Proof.
  unfold add_to_cache. monad.
  destruct (copy2 _ _ _) as [[[]|e1] fs1] eqn:Hc; monad.
  - assert (files fs1 !! source_file = files (w_fs w) !! source_file) as Hkeep.
    { unfold copy2 in Hc.
      destruct (bool_decide _ && path_exists _ _) eqn:Hsame; [done|].
      destruct (read_file (w_fs w) source_file) as [data|] eqn:Hr; [|done].
      apply write_file_return in Hc as ->. simpl.
      apply lookup_insert_ne. intros Heq.
      rewrite bool_decide_eq_true_2 in Hsame by done. simpl in Hsame.
      unfold read_file in Hr. unfold path_exists, is_file in Hsame.
      clear Heq.
      destruct (files (w_fs w) !! source_file) eqn:Hf;
        [|by destruct (is_dir (w_fs w) source_file)].
      rewrite bool_decide_eq_true_2 in Hsame by eauto. done. }
    destruct (stat_size _ _) as [sz|e2]; monad; simpl.
    + destruct (write_file _ _ _) as [[[]|e3] fs2] eqn:Hw; [done|].
      apply write_file_raise in Hw as ->. by intros [= <- <- <-].
    + by intros [= <- <- <-].
  - apply copy2_raise in Hc as ->. by intros [= <- <- <-].
Qed.

(** C5. Best-effort cache write: the fetch wrote the file and the
    [add_to_cache] that follows raises.  The task still reports success;
    the downloaded file is as the fetch left it, with the size the result
    gives; the failure of the cache shows only in the ['error'] field. *)
Theorem cache_write_best_effort (url : string) (filepath : path) (w : World)
    (cm : CacheManager) (s0 : World * option CacheManager)
    (r1 : DownloadResult) (s1 s2 : World * option CacheManager) (e : exn) :
  lookup_cache E url true (w, Some cm) = (Return None, s0) →
  fetch_to_file E url filepath (initial_result url filepath, s0)
  = (Return tt, (r1, s1)) →
  store_in_cache E url filepath true s1 = (Raise e, s2) →
  ∃ r data,
    download_file E url filepath true (w, Some cm) = (Return r, s2)
    ∧ res_success r = true
    ∧ res_cached r = false
    ∧ res_error r = Some (exn_str e)
    ∧ files (w_fs (fst s2)) !! filepath = files (w_fs (fst s1)) !! filepath
    ∧ files (w_fs (fst s2)) !! filepath = Some data
    ∧ res_size r = Z.of_nat (length data).
Proof.
  intros Hlook Hfetch Hstore. unfold download_file, download_file_body.
  unfold bind at 1. unfold in_body at 1. rewrite Hlook.
  unfold bind at 1. fold (initial_result url filepath). rewrite Hfetch.
  unfold in_body. rewrite Hstore.
  destruct s0 as [w0 x0]. destruct s1 as [w1 x1]. destruct s2 as [w2 x2].
  apply fetch_to_file_spec in Hfetch as [Hx (data & Hdata & ->)].
  simpl in Hx, Hdata. subst x1.
  assert (files (w_fs w2) !! filepath = files (w_fs w1) !! filepath) as Hkeep.
  { unfold store_in_cache, cache_call in Hstore.
    destruct x0 as [cm0|]; [|done].
    unfold bind at 1 in Hstore.
    destruct (add_to_cache E url filepath (w1, cm0)) as [[p|e'] [w3 cm3]] eqn:Ha;
      [done|].
    simplify_eq. by eapply add_to_cache_raise_keeps. }
  eexists _, data. split; [reflexivity|]. simpl.
  split_and!; try done. etrans; [exact Hkeep|exact Hdata].
Qed.
End DownloadFileClaims.


(** ** Crawlers: lemmas *)

Section GrowthFacts.
Context {entry : Type} (visit_of : entry → option string).
Implicit Types (P : entry → Prop) (v : gset string) (l : list entry).

Lemma grows_refl P v l : grows visit_of P v l v l.
Proof.
  exists []. simpl. split_and!; [done|set_solver|constructor|set_solver|done].
Qed.

Lemma grows_trans P v1 l1 v2 l2 v3 l3 :
  grows visit_of P v1 l1 v2 l2 → grows visit_of P v2 l2 v3 l3 →
  grows visit_of P v1 l1 v3 l3.
Proof.
  intros (n1 & -> & -> & Hnd1 & Hnew1 & HP1) (n2 & -> & -> & Hnd2 & Hnew2 & HP2).
  exists (n2 ++ n1). rewrite omap_app, list_to_set_app_L.
  split_and!.
  - by rewrite app_assoc.
  - set_solver.
  - apply NoDup_app. split_and!; [done| |done].
    intros u Hu Hu1. apply (Hnew2 u Hu). set_solver.
  - intros u [Hu | Hu]%elem_of_app; [|by apply Hnew1].
    specialize (Hnew2 u Hu). set_solver.
  - by apply Forall_app.
Qed.

Lemma grows_weaken P Q v l v' l' :
  (∀ e, P e → Q e) → grows visit_of P v l v' l' → grows visit_of Q v l v' l'.
Proof.
  intros HPQ (n & -> & -> & Hnd & Hnew & HP). exists n.
  split_and!; try done. by eapply Forall_impl.
Qed.

Lemma grows_entry P v l e :
  P e → (∀ u, visit_of e = Some u → u ∉ v) →
  grows visit_of P v l
        (match visit_of e with Some u => {[u]} ∪ v | None => v end) (e :: l).
Proof.
  intros HP Hfresh. exists [e]. simpl.
  destruct (visit_of e) as [u|] eqn:He; simpl.
  - split_and!; [done|set_solver|apply NoDup_singleton| |by constructor].
    intros u' ->%list_elem_of_singleton. by apply Hfresh.
  - split_and!; [done|set_solver|constructor|set_solver|by constructor].
Qed.
End GrowthFacts.

Section DeepFacts.
Context {Resource : Type}.
Variables (urljoin : string → string → string) (netloc : string → string).
Variable deep_get : string → option (DeepPage Resource).

#[local] Abbreviation crawl := (deep_crawl Resource urljoin netloc deep_get).
#[local] Abbreviation follow := (deep_follow Resource urljoin netloc).
#[local] Abbreviation within := (visit_within netloc).

Lemma deep_grows_refl P s : deep_grows P s s.
Proof. split; [done|apply grows_refl]. Qed.

Lemma deep_grows_trans P s1 s2 s3 :
  deep_grows P s1 s2 → deep_grows P s2 s3 → deep_grows P s1 s3.
Proof.
  intros [Hm1 Hg1] [Hm2 Hg2]. split; [congruence|by eapply grows_trans].
Qed.

Lemma deep_grows_weaken P Q s s' :
  (∀ e, P e → Q e) → deep_grows P s s' → deep_grows Q s s'.
Proof. intros HPQ [Hm Hg]. split; [done|by eapply grows_weaken]. Qed.

Lemma deep_visit_grows P s depth url :
  url ∉ visited_urls s → P (depth, url) → deep_grows P s (deep_visit s depth url).
Proof.
  intros Hnew HP. split; [done|].
  apply (grows_entry deep_visit_of P (visited_urls s) (crawl_log s) (depth, url));
    [done|].
  by intros u [= <-].
Qed.

(** The loop of step 5 only adds what the recursive calls add. *)
Lemma deep_follow_grows recurse url depth hi links :
  (∀ u s r s',
     netloc u = netloc url → max_depth s = hi →
     recurse u (depth + 1) s = Some (r, s') →
     deep_grows (within (netloc url) (depth + 1) hi) s s') →
  ∀ found s r s',
    max_depth s = hi →
    follow recurse url depth links found s = Some (r, s') →
    deep_grows (within (netloc url) (depth + 1) hi) s s'.
Proof.
  intros Hrec. induction links as [|link rest IH]; intros found s r s' Hmax; simpl.
  - intros [= _ <-]. apply deep_grows_refl.
  - destruct (is_relevant link); [|by apply IH].
    destruct (String.eqb_spec (netloc (urljoin url (href link))) (netloc url))
      as [Hdom|]; simpl; [|by apply IH].
    case_bool_decide; [|by apply IH].
    destruct (recurse _ _ s) as [[sub s1]|] eqn:Hsub; [|done].
    intros Hrest. pose proof (Hrec _ _ _ _ Hdom Hmax Hsub) as Hstep.
    eapply deep_grows_trans; [exact Hstep|].
    eapply IH; [|exact Hrest]. destruct Hstep as [-> _]. done.
Qed.

(** Every page a crawl visits is on the domain of the page it started
    from, at a depth between the starting depth and [max_depth]; no page
    is visited twice, none that was visited before. *)
Lemma deep_crawl_grows fuel :
  ∀ url depth s r s',
    crawl fuel url depth s = Some (r, s') →
    deep_grows (within (netloc url) depth (max_depth s)) s s'.
Proof.
  induction fuel as [|fuel IH]; intros url depth s r s'; simpl; [done|].
  destruct (Z.ltb_spec (max_depth s) depth) as [|Hdepth]; simpl.
  { intros [= _ <-]. apply deep_grows_refl. }
  case_bool_decide as Hseen; simpl.
  { intros [= _ <-]. apply deep_grows_refl. }
  assert (deep_grows (within (netloc url) depth (max_depth s)) s
                     (deep_visit s depth url)) as Hvisit.
  { apply deep_visit_grows; [done|]. split; simpl; [done|lia]. }
  destruct (deep_get url) as [page|]; [|by intros [= _ <-]].
  destruct (page_raised page); [by intros [= _ <-]|].
  destruct (Z.ltb_spec depth (max_depth s)); [|by intros [= _ <-]].
  intros Hfollow. eapply deep_grows_trans; [exact Hvisit|].
  eapply deep_grows_weaken; cycle 1.
  - eapply (deep_follow_grows (crawl fuel) url depth (max_depth s));
      [|reflexivity|exact Hfollow].
    intros u s0 r0 s0' Hdom Hmax Hsub.
    apply IH in Hsub. rewrite Hdom, Hmax in Hsub. exact Hsub.
  - intros [d u] [Hd Hrange]. split; [done|]. simpl in *. lia.
Qed.

(** The loop returns when the recursive calls do. *)
Lemma deep_follow_returns recurse url depth hi links :
  (∀ u s, max_depth s = hi → is_Some (recurse u (depth + 1) s)) →
  (∀ u s r s', recurse u (depth + 1) s = Some (r, s') → max_depth s' = max_depth s) →
  ∀ found s, max_depth s = hi → is_Some (follow recurse url depth links found s).
Proof.
  intros Hsome Hkeep. induction links as [|link rest IH]; intros found s Hmax;
    simpl; [done|].
  destruct (is_relevant link); [|by apply IH].
  destruct (negb _); [by apply IH|].
  case_bool_decide; [|by apply IH].
  destruct (Hsome (urljoin url (href link)) s Hmax) as [[sub s1] Hsub].
  rewrite Hsub. apply IH. by rewrite (Hkeep _ _ _ _ Hsub).
Qed.

Lemma deep_crawl_returns fuel :
  ∀ url depth s,
    (crawl_fuel (max_depth s) depth ≤ fuel)%nat → is_Some (crawl fuel url depth s).
Proof.
  unfold crawl_fuel.
  induction fuel as [|fuel IH]; intros url depth s Hfuel; [lia|]. simpl.
  destruct (_ || _); [done|].
  destruct (deep_get url) as [page|]; [|done].
  destruct (page_raised page); [done|].
  destruct (Z.ltb_spec depth (max_depth s)); [|done].
  apply (deep_follow_returns _ url depth (max_depth s)); [| |done].
  - intros u s0 Hmax. apply IH. rewrite Hmax. lia.
  - intros u s0 r s0' Hsub. by apply deep_crawl_grows in Hsub as [? _].
Qed.

Lemma deep_follow_mono recurse recurse' url depth links :
  (∀ u d s r, recurse u d s = Some r → recurse' u d s = Some r) →
  ∀ found s r,
    follow recurse url depth links found s = Some r →
    follow recurse' url depth links found s = Some r.
Proof.
  intros Hrec. induction links as [|link rest IH]; intros found s r; simpl;
    [done|].
  destruct (is_relevant link); [|by apply IH].
  destruct (negb _); [by apply IH|].
  case_bool_decide; [|by apply IH].
  destruct (recurse _ _ s) as [[sub s1]|] eqn:Hsub; [|done].
  rewrite (Hrec _ _ _ _ Hsub). by apply IH.
Qed.

(** More fuel does not change a result. *)
Lemma deep_crawl_mono fuel :
  ∀ fuel' url depth s r,
    (fuel ≤ fuel')%nat →
    crawl fuel url depth s = Some r → crawl fuel' url depth s = Some r.
Proof.
  induction fuel as [|fuel IH]; intros fuel' url depth s r Hle; [done|].
  destruct fuel' as [|fuel']; [lia|]. simpl.
  destruct (_ || _); [done|].
  destruct (deep_get url) as [page|]; [|done].
  destruct (page_raised page); [done|].
  destruct (depth <? max_depth s); [|done].
  apply deep_follow_mono. intros u d s0 r0. apply IH. lia.
Qed.
End DeepFacts.

Section LevelFacts.
Context {Resource : Type}.
Variables (urljoin : string → string → string) (netloc : string → string).
Variable level_get : string → option (LevelPage Resource).
Variable list_of_set : list string → list string.

#[local] Abbreviation crawl := (_crawl_level Resource urljoin netloc level_get list_of_set).
#[local] Abbreviation buttons := (follow_buttons Resource).
#[local] Abbreviation subpages := (follow_subpages Resource).
(** A relation that holds between a page and the sub-pages found on it. *)
Variable same : string → string → Prop.
Hypothesis subpages_same :
  ∀ page base_url,
    Forall (same base_url)
           (_find_tutorial_subpages Resource urljoin netloc list_of_set page base_url).

#[local] Abbreviation within := (event_within same).

Lemma level_grows_refl P s : level_grows P s s.
Proof. apply grows_refl. Qed.

Lemma level_grows_trans P s1 s2 s3 :
  level_grows P s1 s2 → level_grows P s2 s3 → level_grows P s1 s3.
Proof. apply grows_trans. Qed.

Lemma level_grows_weaken P Q s s' :
  (∀ e, P e → Q e) → level_grows P s s' → level_grows Q s s'.
Proof. apply grows_weaken. Qed.

Lemma log_event_grows P s e :
  event_visit e = None → P e → level_grows P s (log_event s e).
Proof.
  intros Hnone HP. unfold level_grows, log_event; simpl.
  pose proof (grows_entry event_visit P (visited s) (printed s) e HP) as H.
  rewrite Hnone in H. apply H. done.
Qed.

Lemma event_within_weaken lo lo' hi e :
  lo' ≤ lo → within lo hi e → within lo' hi e.
Proof. destruct e; simpl; intros; lia || (split; [lia|tauto]). Qed.


Lemma follow_buttons_grows recurse url depth hi download_buttons :
  depth ≤ hi →
  (∀ u s r s', recurse u (depth + 1) s = Some (r, s') →
               level_grows (within (depth + 1) hi) s s') →
  ∀ found s r s',
    buttons recurse url depth download_buttons found s = Some (r, s') →
    level_grows (within depth hi) s s'.
Proof.
  intros Hdepth Hrec.
  induction download_buttons as [|btn rest IH]; intros found s r s'; simpl.
  - intros [= _ <-]. apply level_grows_refl.
  - destruct (recurse _ _ _) as [[sub s1]|] eqn:Hsub; [|done].
    intros Hrest. apply Hrec in Hsub.
    eapply level_grows_trans; [|by eapply IH].
    eapply level_grows_trans.
    + apply (log_event_grows _ s (ButtonClick url depth btn)); [done|].
      simpl. lia.
    + eapply level_grows_weaken; [|exact Hsub].
      intros e. apply (event_within_weaken (depth + 1) depth hi). lia.
Qed.

Lemma follow_subpages_grows recurse url depth hi sub_pages :
  depth < hi →
  Forall (same url) sub_pages →
  (∀ u s r s', recurse u (depth + 1) s = Some (r, s') →
               level_grows (within (depth + 1) hi) s s') →
  ∀ found s r s',
    subpages recurse url depth sub_pages found s = Some (r, s') →
    level_grows (within depth hi) s s'.
Proof.
  intros Hdepth Hdom Hrec.
  induction Hdom as [|sub rest Hsub_dom Hrest_dom IH]; intros found s r s'; simpl.
  - intros [= _ <-]. apply level_grows_refl.
  - case_bool_decide; [|by apply IH].
    destruct (recurse _ _ _) as [[sub_res s1]|] eqn:Hsub; [|done].
    intros Hrest. apply Hrec in Hsub.
    eapply level_grows_trans; [|by eapply IH].
    eapply level_grows_trans.
    + apply (log_event_grows _ s (SubPage url depth sub)); [done|].
      simpl. split; [lia|done].
    + eapply level_grows_weaken; [|exact Hsub].
      intros e. apply (event_within_weaken (depth + 1) depth hi). lia.
Qed.

(** What a crawl prints: visits at depths from the starting depth to the
    maximum, each of a page not visited before; sub-pages followed only
    from a depth below the maximum and only on the domain of the page
    they are on. *)
Lemma crawl_level_grows fuel :
  ∀ url depth max_depth s r s',
    crawl fuel url depth max_depth s = Some (r, s') →
    level_grows (within depth max_depth) s s'.
Proof.
  induction fuel as [|fuel IH]; intros url depth hi s r s'; simpl; [done|].
  destruct (Z.ltb_spec hi depth) as [|Hdepth]; simpl.
  { intros [= _ <-]. apply level_grows_refl. }
  case_bool_decide as Hseen; simpl.
  { intros [= _ <-]. apply level_grows_refl. }
  set (s1 := mkMulti ({[url]} ∪ visited s) (Level depth url :: printed s)).
  assert (level_grows (within depth hi) s s1) as Hvisit.
  { pose proof (grows_entry event_visit (within depth hi) (visited s) (printed s)
                            (Level depth url)) as H.
    apply H; simpl; [lia|]. by intros u [= <-]. }
  destruct (level_get url) as [page|]; [|by intros [= _ <-]].
  destruct (buttons _ _ _ _ _ _) as [[found2 s2]|] eqn:Hbuttons; [|done].
  apply (follow_buttons_grows _ url depth hi) in Hbuttons;
    [|done|by intros; eapply IH].
  destruct (Z.ltb_spec depth hi) as [Hlt|].
  - destruct (subpages _ _ _ _ _ _) as [[found3 s3]|] eqn:Hsub; [|done].
    intros [= _ <-].
    apply (follow_subpages_grows _ url depth hi) in Hsub;
      [|done| |by intros; eapply IH].
    + eapply level_grows_trans; [exact Hvisit|].
      by eapply level_grows_trans.
    + apply Forall_take, subpages_same.
  - intros [= _ <-]. by eapply level_grows_trans.
Qed.

Lemma follow_buttons_returns recurse url depth download_buttons :
  (∀ u s, is_Some (recurse u (depth + 1) s)) →
  ∀ found s, is_Some (buttons recurse url depth download_buttons found s).
Proof.
  intros Hsome. induction download_buttons as [|btn rest IH]; intros found s;
    simpl; [done|].
  destruct (Hsome btn (log_event s (ButtonClick url depth btn))) as [[sub s1] ->].
  apply IH.
Qed.

Lemma follow_subpages_returns recurse url depth sub_pages :
  (∀ u s, is_Some (recurse u (depth + 1) s)) →
  ∀ found s, is_Some (subpages recurse url depth sub_pages found s).
Proof.
  intros Hsome. induction sub_pages as [|sub rest IH]; intros found s;
    simpl; [done|].
  case_bool_decide; [|apply IH].
  destruct (Hsome sub (log_event s (SubPage url depth sub))) as [[res s1] ->].
  apply IH.
Qed.

Lemma crawl_level_returns fuel :
  ∀ url depth max_depth s,
    (crawl_fuel max_depth depth ≤ fuel)%nat →
    is_Some (crawl fuel url depth max_depth s).
Proof.
  unfold crawl_fuel.
  induction fuel as [|fuel IH]; intros url depth hi s Hfuel; [lia|]. simpl.
  destruct (Z.ltb_spec hi depth) as [|Hdepth]; simpl; [done|].
  destruct (bool_decide _); simpl; [done|].
  destruct (level_get url) as [page|]; [|done].
  assert (∀ u s0, is_Some (crawl fuel u (depth + 1) hi s0)) as Hrec.
  { intros u s0. apply IH. lia. }
  destruct (follow_buttons_returns (fun u d => crawl fuel u d hi) url depth
              (_find_download_buttons Resource urljoin list_of_set
                 (mkMulti ({[url]} ∪ visited s) (Level depth url :: printed s))
                 page url)
              Hrec (direct_downloads page)
              (mkMulti ({[url]} ∪ visited s) (Level depth url :: printed s)))
    as [[found2 s2] ->].
  destruct (depth <? hi); [|done].
  destruct (follow_subpages_returns (fun u d => crawl fuel u d hi) url depth
              (firstn 5 (_find_tutorial_subpages Resource urljoin netloc
                           list_of_set page url))
              Hrec found2 s2)
    as [[found3 s3] ->].
  done.
Qed.

Lemma follow_buttons_mono recurse recurse' url depth download_buttons :
  (∀ u d s r, recurse u d s = Some r → recurse' u d s = Some r) →
  ∀ found s r,
    buttons recurse url depth download_buttons found s = Some r →
    buttons recurse' url depth download_buttons found s = Some r.
Proof.
  intros Hrec. induction download_buttons as [|btn rest IH]; intros found s r;
    simpl; [done|].
  destruct (recurse _ _ _) as [[sub s1]|] eqn:Hsub; [|done].
  rewrite (Hrec _ _ _ _ Hsub). apply IH.
Qed.

Lemma follow_subpages_mono recurse recurse' url depth sub_pages :
  (∀ u d s r, recurse u d s = Some r → recurse' u d s = Some r) →
  ∀ found s r,
    subpages recurse url depth sub_pages found s = Some r →
    subpages recurse' url depth sub_pages found s = Some r.
Proof.
  intros Hrec. induction sub_pages as [|sub rest IH]; intros found s r;
    simpl; [done|].
  case_bool_decide; [|apply IH].
  destruct (recurse _ _ _) as [[res s1]|] eqn:Hsub; [|done].
  rewrite (Hrec _ _ _ _ Hsub). apply IH.
Qed.

Lemma crawl_level_mono fuel :
  ∀ fuel' url depth max_depth s r,
    (fuel ≤ fuel')%nat →
    crawl fuel url depth max_depth s = Some r →
    crawl fuel' url depth max_depth s = Some r.
Proof.
  induction fuel as [|fuel IH]; intros fuel' url depth hi s r Hle; [done|].
  destruct fuel' as [|fuel']; [lia|]. simpl.
  destruct (_ || _); [done|].
  destruct (level_get url) as [page|]; [|done].
  destruct (buttons (fun u d => crawl fuel u d hi) _ _ _ _ _)
    as [[found2 s2]|] eqn:Hb; [|done].
  rewrite (follow_buttons_mono _ (fun u d => crawl fuel' u d hi) _ _ _
             (fun u d s0 r0 => IH fuel' u d hi s0 r0 ltac:(lia)) _ _ _ Hb).
  destruct (depth <? hi); [|done].
  destruct (subpages (fun u d => crawl fuel u d hi) _ _ _ _ _)
    as [[found3 s3]|] eqn:Hs; [|done].
  rewrite (follow_subpages_mono _ (fun u d => crawl fuel' u d hi) _ _ _
             (fun u d s0 r0 => IH fuel' u d hi s0 r0 ltac:(lia)) _ _ _ Hs).
  done.
Qed.
End LevelFacts.

(** [list(set(xs))] holds elements of [xs] only: the sub-pages found on a
    page are on its domain. *)
Lemma find_tutorial_subpages_domain {Resource : Type}
    (urljoin : string → string → string) (netloc : string → string)
    (list_of_set : list string → list string)
    (page : LevelPage Resource) (base_url : string) :
  (∀ xs x, x ∈ list_of_set xs → x ∈ xs) →
  Forall (same_domain netloc base_url)
         (_find_tutorial_subpages Resource urljoin netloc list_of_set page base_url).
Proof.
  intros list_of_set_elem.
  apply Forall_forall. intros u Hu. unfold _find_tutorial_subpages in Hu.
  apply list_of_set_elem in Hu.
  apply list_elem_of_In, in_flat_map in Hu as (keyword & _ & Hu).
  apply in_flat_map in Hu as (h & _ & Hu).
  destruct (_ && _); [|done].
  destruct (String.eqb_spec (netloc (urljoin base_url h)) (netloc base_url));
    [|done].
  by destruct Hu as [<- | []].
Qed.

Section CrawlClaims.
Context {Resource : Type}.
Variables (urljoin : string → string → string) (netloc : string → string).
Variable deep_get : string → option (DeepPage Resource).
Variable level_get : string → option (LevelPage Resource).
Variable list_of_set : list string → list string.

Lemma omap_deep_visit_of (log : list (Z * string)) :
  omap deep_visit_of log = map snd log.
Proof. induction log as [|e log IH]; [done|]. simpl. by f_equal. Qed.

(** C6, as amended.  On any web, cyclic or not, [deep_crawl] and
    [_crawl_level] return, the latter for every order [list_of_set] in
    which [list(set(..))] gives the elements of a set: fuel beyond the
    distance to the maximum depth is never exhausted, and the list
    returned is the same whatever fuel is given beyond it.  A locator that
    is in the visited set gives an empty list and leaves the scraper as
    it is.  The pages visited by a call were not visited before, and none
    is visited twice.  The list of [_crawl_level] is one list for each
    order of [list_of_set], not one list for all of them. *)
Theorem crawl_terminates :
  (∀ url depth (s : DeepCopernicusScraper),
     ∃ res s',
       (∀ fuel, (crawl_fuel (max_depth s) depth ≤ fuel)%nat →
                deep_crawl Resource urljoin netloc deep_get fuel url depth s
                = Some (res, s'))
       ∧ (url ∈ visited_urls s → res = [] ∧ s' = s)
       ∧ ∃ new, crawl_log s' = new ++ crawl_log s
                ∧ visited_urls s' = list_to_set (map snd new) ∪ visited_urls s
                ∧ NoDup (map snd new)
                ∧ ∀ u, u ∈ map snd new → u ∉ visited_urls s)
  ∧ (∀ url depth max_depth (s : MultiLevelCopernicusScraper),
       ∃ res s',
         (∀ fuel, (crawl_fuel max_depth depth ≤ fuel)%nat →
                  _crawl_level Resource urljoin netloc level_get list_of_set
                               fuel url depth max_depth s
                  = Some (res, s'))
         ∧ (url ∈ visited s → res = [] ∧ s' = s)
         ∧ ∃ new, printed s' = new ++ printed s
                  ∧ visited s' = list_to_set (omap event_visit new) ∪ visited s
                  ∧ NoDup (omap event_visit new)
                  ∧ ∀ u, u ∈ omap event_visit new → u ∉ visited s).
Proof.
  split.
  - intros url depth s.
    destruct (deep_crawl_returns urljoin netloc deep_get
                (crawl_fuel (max_depth s) depth) url depth s (le_n _))
      as [[res s'] Hrun].
    exists res, s'. split_and!.
    + intros fuel Hfuel. by eapply deep_crawl_mono.
    + intros Hseen. unfold crawl_fuel in Hrun. simpl in Hrun.
      rewrite (bool_decide_eq_true_2 _ Hseen), orb_true_r in Hrun.
      by simplify_eq.
    + apply deep_crawl_grows in Hrun as [_ (new & Hlog & Hvis & Hnd & Hnew & _)].
      rewrite omap_deep_visit_of in *. by exists new.
  - intros url depth hi s.
    destruct (crawl_level_returns urljoin netloc level_get list_of_set
                (crawl_fuel hi depth) url depth hi s (le_n _))
      as [[res s'] Hrun].
    exists res, s'. split_and!.
    + intros fuel Hfuel. by eapply crawl_level_mono.
    + intros Hseen. unfold crawl_fuel in Hrun. simpl in Hrun.
      rewrite (bool_decide_eq_true_2 _ Hseen), orb_true_r in Hrun.
      by simplify_eq.
    + apply (crawl_level_grows urljoin netloc level_get list_of_set
               (fun _ _ => True)) in Hrun
        as (new & Hlog & Hvis & Hnd & Hnew & _).
      * by exists new.
      * intros page base_url. apply Forall_forall. done.
Qed.

(** C8, as amended.  [deep_crawl] recurses only below the maximum depth
    and only into links on the domain of the current page: every page it
    visits is on the domain of the page the crawl started from, at a
    depth that does not exceed the maximum.  [_crawl_level] visits pages
    up to the maximum depth as well and follows a sub-page link only
    below the maximum depth and only on the domain of the page the link
    is on; a download button is followed whatever its domain. *)
Theorem crawl_stays_in_scope :
  (∀ xs x, x ∈ list_of_set xs → x ∈ xs) →
  (∀ fuel url depth (s : DeepCopernicusScraper) res s',
     deep_crawl Resource urljoin netloc deep_get fuel url depth s = Some (res, s') →
     ∃ new, crawl_log s' = new ++ crawl_log s
            ∧ Forall (visit_within netloc (netloc url) depth (max_depth s)) new)
  ∧ (∀ fuel url depth max_depth (s : MultiLevelCopernicusScraper) res s',
       _crawl_level Resource urljoin netloc level_get list_of_set
                    fuel url depth max_depth s = Some (res, s') →
       ∃ new, printed s' = new ++ printed s
              ∧ Forall (event_within (same_domain netloc) depth max_depth) new).
Proof.
  intros Helem. split.
  - intros fuel url depth s res s' Hrun.
    apply deep_crawl_grows in Hrun as [_ (new & Hlog & _ & _ & _ & Hall)].
    by exists new.
  - intros fuel url depth hi s res s' Hrun.
    apply (crawl_level_grows urljoin netloc level_get list_of_set
             (same_domain netloc)) in Hrun
      as (new & Hlog & _ & _ & _ & Hall).
    + by exists new.
    + intros page base_url. by apply find_tutorial_subpages_domain.
Qed.
End CrawlClaims.


(** ** sanitize_filename: lemmas *)

Section SanitizeFacts.
Implicit Types s : list ascii.

Lemma prefix_is_sublist s1 s2 : s1 `prefix_of` s2 → s1 `sublist_of` s2.
Proof. intros [k ->]. by apply sublist_inserts_r. Qed.

Lemma suffix_is_sublist s1 s2 : s1 `suffix_of` s2 → s1 `sublist_of` s2.
Proof. intros [k ->]. by apply sublist_inserts_l. Qed.

Lemma Forall_of_sublist (P : ascii → Prop) s1 s2 :
  s1 `sublist_of` s2 → Forall P s2 → Forall P s1.
Proof.
  intros Hsub Hall. apply Forall_forall. intros c Hin.
  rewrite Forall_forall in Hall. apply Hall.
  by eapply elem_of_sublist.
Qed.

Lemma squeeze_underscores_sublist b s : squeeze_underscores b s `sublist_of` s.
Proof.
  revert b. induction s as [|c s IH]; intros b; simpl; [done|].
  destruct (is_underscore c), b; try (by apply sublist_skip);
    by apply sublist_cons.
Qed.

Lemma lstrip_underscores_suffix s : lstrip_underscores s `suffix_of` s.
Proof.
  induction s as [|c s IH]; simpl; [done|].
  destruct (is_underscore c); [by apply suffix_cons_r|done].
Qed.

Lemma rstrip_underscores_prefix s : rstrip_underscores s `prefix_of` s.
Proof.
  induction s as [|c s IH]; simpl; [done|].
  destruct (rstrip_underscores s) as [|c' s'] eqn:Hr.
  - destruct (is_underscore c); [apply prefix_nil|].
    by apply prefix_cons, prefix_nil.
  - by apply prefix_cons.
Qed.

Lemma cap_length_prefix s : cap_length s `prefix_of` s.
Proof.
  unfold cap_length. destruct (50 <? length s)%nat; [|done].
  apply prefix_take.
Qed.

Lemma cap_length_bound s : (length (cap_length s) ≤ 50)%nat.
Proof.
  unfold cap_length. destruct (Nat.ltb_spec 50 (length s)); [|lia].
  rewrite length_firstn. lia.
Qed.

(** The name after the cap comes out of the name before the strip by
    dropping characters at both ends. *)
Lemma sanitize_chars_sublist filename :
  sanitize_chars filename `sublist_of` replace_spaces (remove_forbidden filename).
Proof.
  unfold sanitize_chars, strip_underscores.
  etrans; [apply prefix_is_sublist, cap_length_prefix|].
  etrans; [apply prefix_is_sublist, rstrip_underscores_prefix|].
  etrans; [apply suffix_is_sublist, lstrip_underscores_suffix|].
  apply squeeze_underscores_sublist.
Qed.

Lemma replace_spaces_clean filename :
  Forall (fun c => is_forbidden c = false ∧ c ≠ " "%char)
         (replace_spaces (remove_forbidden filename)).
Proof.
  unfold replace_spaces, remove_forbidden.
  apply List.Forall_forall. intros c (c0 & Hc0 & Hin)%in_map_iff.
  apply filter_In in Hin as [_ Hok]. apply negb_true_iff in Hok.
  subst c. destruct (Ascii.eqb_spec c0 " "%char) as [Heq | Hne]; [done|].
  by split.
Qed.

Lemma replace_spaces_origin filename :
  Forall (fun c => c = "_"%char ∨ In c filename)
         (replace_spaces (remove_forbidden filename)).
Proof.
  unfold replace_spaces, remove_forbidden.
  apply List.Forall_forall. intros c (c0 & Hc0 & Hin)%in_map_iff.
  apply filter_In in Hin as [Hin _].
  destruct (Ascii.eqb c0 " "%char); subst c; [by left|by right].
Qed.

Lemma double_underscore_cons c s :
  double_underscore (c :: s)
  = (is_underscore c && starts_with_underscore s) || double_underscore s.
Proof. by destruct s. Qed.

Lemma squeeze_underscores_shape b s :
  double_underscore (squeeze_underscores b s) = false
  ∧ (b = true → starts_with_underscore (squeeze_underscores b s) = false).
Proof.
  revert b. induction s as [|c s IH]; intros b; [done|].
  simpl. destruct (is_underscore c) eqn:Hc.
  - destruct (IH true) as [Hd Hs]. destruct b.
    + split; [done|]. intros _. by apply Hs.
    + rewrite double_underscore_cons, Hc, Hd, Hs by done. by split.
  - destruct (IH false) as [Hd _].
    rewrite double_underscore_cons, Hc, Hd. simpl. rewrite Hc. by split.
Qed.

Lemma double_underscore_app s1 s2 :
  double_underscore (s1 ++ s2) = false →
  double_underscore s1 = false ∧ double_underscore s2 = false.
Proof.
  induction s1 as [|c s1 IH]; simpl; [done|].
  intros [H1 H2]%orb_false_elim. destruct (IH H2) as [Ha Hb].
  split; [|done]. rewrite Ha, orb_false_r.
  destruct s1; [apply andb_false_r|]. simpl in H1. done.
Qed.

Lemma lstrip_underscores_head s :
  starts_with_underscore (lstrip_underscores s) = false.
Proof.
  induction s as [|c s IH]; simpl; [done|].
  destruct (is_underscore c) eqn:Hc; [done|]. simpl. by rewrite Hc.
Qed.

Lemma starts_with_underscore_prefix s1 s2 :
  s1 `prefix_of` s2 → starts_with_underscore s2 = false →
  starts_with_underscore s1 = false.
Proof. intros [k ->]. by destruct s1. Qed.

Lemma rstrip_underscores_last s :
  ends_with_underscore (rstrip_underscores s) = false.
Proof.
  unfold ends_with_underscore.
  induction s as [|c s IH]; simpl; [done|].
  destruct (rstrip_underscores s) as [|c' s'] eqn:Hr.
  - destruct (is_underscore c) eqn:Hc; [done|]. simpl. by rewrite Hc.
  - simpl in *. destruct (rev s' ++ [c']) eqn:Hrev; [by destruct (rev s')|].
    done.
Qed.


Lemma cap_length_firstn s : cap_length s = firstn 50 s.
Proof.
  unfold cap_length. destruct (Nat.ltb_spec 50 (length s)); [done|].
  by rewrite firstn_all2.
Qed.

Lemma squeeze_separator b c s :
  is_separator c = true →
  squeeze_underscores b (replace_spaces (c :: s))
  = (if b then [] else ["_"%char]) ++ squeeze_underscores true (replace_spaces s).
Proof.
  unfold is_separator, is_underscore. intros Hc. simpl.
  destruct (Ascii.eqb_spec c " "%char) as [->|Hne]; simpl in *.
  - by destruct b.
  - apply Ascii.eqb_eq in Hc as ->. by destruct b.
Qed.

Lemma squeeze_kept b c s :
  is_separator c = false →
  squeeze_underscores b (replace_spaces (c :: s))
  = c :: squeeze_underscores false (replace_spaces s).
Proof.
  unfold is_separator. intros [Hs Hu]%orb_false_elim.
  unfold replace_spaces. cbn [map]. rewrite Hs.
  cbn [squeeze_underscores]. by rewrite Hu.
Qed.

Lemma rstrip_underscores_kept c s :
  is_underscore c = false →
  rstrip_underscores (c :: s) = c :: rstrip_underscores s.
Proof. intros Hc. simpl. rewrite Hc. by destruct (rstrip_underscores s). Qed.

Lemma rstrip_underscores_underscore s :
  rstrip_underscores ("_"%char :: s)
  = match rstrip_underscores s with [] => [] | r => "_"%char :: r end.
Proof. done. Qed.

Lemma separator_not_underscore c : is_separator c = false → is_underscore c = false.
Proof. unfold is_separator. by intros [_ ?]%orb_false_elim. Qed.

(** The code's passes after a character that was kept. *)
Lemma collapse_after_passes s :
  collapse_after false s
  = rstrip_underscores (squeeze_underscores false (replace_spaces s))
  ∧ collapse_after true s
    = match rstrip_underscores (squeeze_underscores true (replace_spaces s)) with
      | [] => []
      | r => "_"%char :: r
      end.
Proof.
  induction s as [|c s [IHf IHt]]; [done|].
  destruct (is_separator c) eqn:Hc.
  - rewrite !squeeze_separator by done. cbn [collapse_after app]. rewrite Hc.
    rewrite rstrip_underscores_underscore. by rewrite IHt.
  - rewrite !squeeze_kept by done. cbn [collapse_after]. rewrite Hc.
    rewrite rstrip_underscores_kept by by apply separator_not_underscore.
    by rewrite IHf.
Qed.

Lemma collapse_passes b s :
  collapse s = strip_underscores (squeeze_underscores b (replace_spaces s)).
Proof.
  unfold strip_underscores. revert b.
  induction s as [|c s IH]; intros b; [done|].
  destruct (is_separator c) eqn:Hc.
  - rewrite squeeze_separator by done. cbn [collapse]. rewrite Hc.
    rewrite (IH true). by destruct b.
  - rewrite squeeze_kept by done. cbn [collapse]. rewrite Hc.
    pose proof (separator_not_underscore _ Hc) as Hu.
    cbn [lstrip_underscores]. rewrite Hu.
    rewrite rstrip_underscores_kept by done.
    by rewrite (proj1 (collapse_after_passes s)).
Qed.

(** The code computes the described name and cuts it at 50. *)
Lemma sanitize_chars_described filename :
  sanitize_chars filename = firstn 50 (described_name filename).
Proof.
  unfold sanitize_chars, described_name.
  by rewrite cap_length_firstn, <- (collapse_passes false).
Qed.

Lemma kept_characters_collapse_after b s :
  kept_characters (collapse_after b s) = kept_characters s.
Proof.
  unfold kept_characters. revert b.
  induction s as [|c s IH]; intros b; [done|].
  cbn [collapse_after List.filter]. destruct (is_separator c) eqn:Hc; simpl.
  - apply IH.
  - destruct b; simpl; rewrite ?Hc; simpl; by rewrite IH.
Qed.

Lemma kept_characters_collapse s : kept_characters (collapse s) = kept_characters s.
Proof.
  induction s as [|c s IH]; [done|].
  unfold kept_characters in *.
  cbn [collapse List.filter]. destruct (is_separator c) eqn:Hc; simpl; [done|].
  rewrite Hc. simpl. f_equal. apply kept_characters_collapse_after.
Qed.

Lemma kept_characters_take n s :
  kept_characters (take n s) `prefix_of` kept_characters s.
Proof.
  rewrite <- (take_drop n s) at 2. unfold kept_characters.
  rewrite List.filter_app. by apply prefix_app_r.
Qed.

(** C10, as amended.  [sanitize_filename] deletes the nine forbidden
    characters and keeps every other character that is neither a space
    nor an underscore where it is, a tab or a newline as well: up to the
    cut, the kept characters of the result are those of the input
    without the forbidden ones, in their order.  Spaces and underscores
    between two kept characters become one underscore, those in front
    and at the end of the name go: this is [described_name], and the
    result is its first 50 characters, all of it when it is not longer,
    whenever these do not end with an underscore.  For every input the
    result holds no forbidden character and no space, no two underscores
    in a row and no underscore in front, it is at most 50 characters
    long and its characters are underscores or characters of the input;
    a result shorter than 50 characters does not end with an
    underscore. *)
Theorem sanitize_filename_shape (filename : string) :
  let name := list_ascii_of_string (sanitize_filename filename) in
  Forall (fun c => is_forbidden c = false ∧ c ≠ " "%char) name
  ∧ Forall (fun c => c = "_"%char ∨ In c (list_ascii_of_string filename)) name
  ∧ double_underscore name = false
  ∧ starts_with_underscore name = false
  ∧ (length name ≤ 50)%nat
  ∧ ((length name < 50)%nat → ends_with_underscore name = false)
  ∧ (ends_with_underscore
       (firstn 50 (described_name (list_ascii_of_string filename))) = false →
     name = firstn 50 (described_name (list_ascii_of_string filename)))
  ∧ kept_characters name
    `prefix_of` kept_characters (remove_forbidden (list_ascii_of_string filename))
  ∧ ((length (described_name (list_ascii_of_string filename)) ≤ 50)%nat →
     kept_characters name
     = kept_characters (remove_forbidden (list_ascii_of_string filename))).
Proof.
  unfold sanitize_filename. rewrite list_ascii_of_string_of_list_ascii.
  set (input := list_ascii_of_string filename). cbv zeta.
  pose proof (sanitize_chars_sublist input) as Hsub.
  set (squeezed := squeeze_underscores false (replace_spaces (remove_forbidden input))).
  assert (double_underscore (strip_underscores squeezed) = false
          ∧ starts_with_underscore (strip_underscores squeezed) = false)
    as [Hdouble Hhead].
  { unfold strip_underscores.
    destruct (lstrip_underscores_suffix squeezed) as [k1 Hk1].
    destruct (rstrip_underscores_prefix (lstrip_underscores squeezed)) as [k2 Hk2].
    split.
    - destruct (squeeze_underscores_shape false
                  (replace_spaces (remove_forbidden input))) as [Hd _].
      fold squeezed in Hd. rewrite Hk1 in Hd.
      apply double_underscore_app in Hd as [_ Hd]. rewrite Hk2 in Hd.
      by apply double_underscore_app in Hd as [Hd _].
    - eapply starts_with_underscore_prefix; [by exists k2|].
      apply lstrip_underscores_head. }
  destruct (cap_length_prefix (strip_underscores squeezed)) as [k Hk].
  split_and!.
  - eapply Forall_of_sublist; [exact Hsub|]. apply replace_spaces_clean.
  - eapply Forall_of_sublist; [exact Hsub|]. apply replace_spaces_origin.
  - unfold sanitize_chars. fold squeezed. rewrite Hk in Hdouble.
    by apply double_underscore_app in Hdouble as [Hd _].
  - unfold sanitize_chars. fold squeezed.
    eapply starts_with_underscore_prefix; [by exists k|done].
  - apply cap_length_bound.
  - unfold sanitize_chars. fold squeezed. unfold cap_length.
    destruct (Nat.ltb_spec 50 (length (strip_underscores squeezed))).
    + rewrite length_firstn. lia.
    + intros _. apply rstrip_underscores_last.
  - intros _. apply sanitize_chars_described.
  - rewrite sanitize_chars_described.
    etrans; [apply kept_characters_take|].
    unfold described_name. by rewrite kept_characters_collapse.
  - intros Hshort. rewrite sanitize_chars_described.
    rewrite firstn_all2 by done.
    unfold described_name. by rewrite kept_characters_collapse.
Qed.
End SanitizeFacts.


(** * More of the code: properties *)

Ltac inner_case :=
  match goal with
  | |- context [match ?x with _ => _ end] =>
      lazymatch x with
      | context [match _ with _ => _ end] => fail
      | _ => destruct x eqn:?
      end
  end.

Ltac run_all :=
  monad; repeat (inner_case; monad);
  intros; simplify_eq; simpl; try done; auto.

(** ** The download with retries *)

Lemma concat_nonempty_chunks (cs : list bytes) :
  concat (List.filter nonempty_chunk cs) = concat cs.
Proof.
  induction cs as [|c cs IH]; [done|]. simpl.
  destruct c; simpl; [done|]. by rewrite IH.
Qed.

Lemma status_test_false (status : Z) :
  (400 <=? status) && (status <? 600) = false → ¬ (400 ≤ status < 600).
Proof.
  intros H [Hlo Hhi]. apply Z.leb_le in Hlo. apply Z.ltb_lt in Hhi.
  by rewrite Hlo, Hhi in H.
Qed.

Section RetryFacts.
Variable E : Env.

(** One attempt sends one GET, reads no clock, does not sleep, and when it
  completes the file holds the body of the answer. *)
Lemma download_attempt_spec url filepath w slept o w' slept' :
download_attempt E url filepath (w, slept) = (o, (w', slept')) →
slept' = slept
∧ w_requests w' = url :: w_requests w
∧ w_clock w' = w_clock w
∧ (is_return o = true →
   ∃ resp, http_get E (length (w_requests w)) url = Responds resp
           ∧ stream_error resp = None
           ∧ ¬ (400 ≤ status_code resp < 600)
           ∧ files (w_fs w') !! filepath = Some (concat (chunks resp))).
Proof.
unfold download_attempt, session_get, lift_dl, raise_for_status, total_size_of,
  response_content, body_bytes.
run_all.
all: split_and!; try done.
all: intros _; eexists; split_and!; try done.
all: try (by apply status_test_false).
all: rewrite ?concat_nonempty_chunks; apply lookup_insert_eq.
Qed.

(** The rounds from [attempt] on: [n] requests are sent, all for [url];
  between them the code sleeps [2 ^ attempt], [2 ^ (attempt + 1)], ...;
  a [False] comes after the last round only. *)
Lemma download_attempts_spec url filepath retry remaining :
∀ attempt w slept,
  0 ≤ attempt →
  attempt + Z.of_nat remaining = retry ∨ remaining = O →
  ∃ ok w' slept' n,
    download_attempts E retry remaining attempt url filepath (w, slept)
    = (Return ok, (w', slept'))
    ∧ slept' = slept + (if n is O then 0
                        else 2 ^ (attempt + Z.of_nat n - 1) - 2 ^ attempt)
    ∧ w_requests w' = repeat url n ++ w_requests w
    ∧ (n ≤ remaining)%nat
    ∧ w_clock w' = w_clock w
    ∧ (ok = false → n = remaining)
    ∧ (ok = true →
       ∃ k resp, n = S k
                 ∧ http_get E (length (w_requests w) + k) url = Responds resp
                 ∧ stream_error resp = None
                 ∧ ¬ (400 ≤ status_code resp < 600)
                 ∧ files (w_fs w') !! filepath = Some (concat (chunks resp))).
Proof.
induction remaining as [|remaining IH]; intros attempt w slept Hatt Hinv.
- exists false, w, slept, O. simpl. unfold ret.
  split_and!; try done. lia.
- destruct Hinv as [Hinv|]; [|done]. simpl.
  destruct (download_attempt E url filepath (w, slept)) as [[[]|e] [w1 slept1]]
    eqn:Hrun;
    apply download_attempt_spec in Hrun as (-> & Hreq & Hclock & Hok).
  + exists true, w1, slept, 1%nat.
    split_and!; try done; [|lia|].
    * replace (attempt + Z.of_nat 1 - 1) with attempt by lia. lia.
    * intros _. destruct (Hok eq_refl) as (resp & Hget & Herr & Hst & Hfile).
      exists O, resp. rewrite Nat.add_0_r. by split_and!.
  + destruct (Z.eqb_spec attempt (retry - 1)) as [Hlast|Hmore].
    * exists false, w1, slept, 1%nat.
      split_and!; try done; [|lia|intros _; lia].
      replace (attempt + Z.of_nat 1 - 1) with attempt by lia. lia.
    * unfold bind, time_sleep.
      destruct (IH (attempt + 1) w1 (slept + 2 ^ attempt)) as
        (ok & w' & slept' & n & Hrun & Hslept & Hreq' & Hn & Hclock' & Hfalse & Htrue);
        [lia|left; lia|].
      exists ok, w', slept', (S n). rewrite Hrun. split_and!.
      -- done.
      -- rewrite Hslept. destruct n as [|n].
         ++ exfalso. destruct ok.
            ** by destruct (Htrue eq_refl) as (k & resp & Hk & _).
            ** pose proof (Hfalse eq_refl). lia.
         ++ replace (attempt + 1 + Z.of_nat (S n) - 1)
              with (attempt + Z.of_nat (S (S n)) - 1) by lia.
            replace (attempt + 1) with (Z.succ attempt) by lia.
            rewrite (Z.pow_succ_r 2 attempt) by done. lia.
      -- rewrite Hreq', Hreq.
         change (url :: w_requests w) with ([url] ++ w_requests w).
         by rewrite app_assoc, <- repeat_cons.
      -- lia.
      -- congruence.
      -- intros Hk. f_equal. by apply Hfalse.
      -- intros Hk. destruct (Htrue Hk) as (k & resp & -> & Hget & Hrest).
         exists (S k), resp. split; [done|]. split; [|done].
         rewrite <- Hget. f_equal. rewrite Hreq. simpl. lia.
Qed.

(** X1. The download with retries always returns; it sends at most [retry]
  GET requests, all for the locator of the task, and [False] comes only
  after all of them; before the [n]-th request it has slept
  [2 ^ (n - 1) - 1] seconds in all; it never reads the clock; with
  [retry <= 0] nothing is sent and nothing changes. *)
Theorem download_file_retry_bounds (url : string) (filepath : path) (retry : Z)
  (w : World) (slept : Z) :
∃ ok w' n,
  download_file_retry E url filepath retry (w, slept)
  = (Return ok, (w', slept + backoff_before n))
  ∧ w_requests w' = repeat url n ++ w_requests w
  ∧ (n ≤ Z.to_nat retry)%nat
  ∧ w_clock w' = w_clock w
  ∧ (ok = false → n = Z.to_nat retry)
  ∧ (retry ≤ 0 → ok = false ∧ w' = w).
Proof.
unfold download_file_retry.
destruct (download_attempts_spec url filepath retry (Z.to_nat retry) 0 w slept)
  as (ok & w' & slept' & n & Hrun & Hslept & Hreq & Hn & Hclock & Hfalse & _);
  [done| |].
{ destruct (Z.le_gt_cases 0 retry); [left; lia|right; lia]. }
exists ok, w', n. split_and!; try done.
- rewrite Hrun, Hslept. do 3 f_equal. destruct n as [|k]; [done|].
  unfold backoff_before.
  replace (0 + Z.of_nat (S k) - 1) with (Z.of_nat k) by lia.
  by rewrite Z.pow_0_r.
- intros Hretry. assert (Z.to_nat retry = O) as Hz by lia.
  rewrite Hz in Hrun. simpl in Hrun. unfold ret in Hrun. by simplify_eq.
Qed.

(** X2. When the download with retries returns [True], the file holds the
  whole body of the answer to the last request sent, an answer without
  error status whose connection did not break. *)
Theorem download_file_retry_success (url : string) (filepath : path) (retry : Z)
  (w w' : World) (slept slept' : Z) :
download_file_retry E url filepath retry (w, slept) = (Return true, (w', slept')) →
∃ k resp,
  w_requests w' = repeat url (S k) ++ w_requests w
  ∧ http_get E (length (w_requests w) + k) url = Responds resp
  ∧ stream_error resp = None
  ∧ ¬ (400 ≤ status_code resp < 600)
  ∧ files (w_fs w') !! filepath = Some (concat (chunks resp)).
Proof.
unfold download_file_retry. intros Hrun.
destruct (download_attempts_spec url filepath retry (Z.to_nat retry) 0 w slept)
  as (ok & w1 & slept1 & n & Hrun1 & _ & Hreq & _ & _ & _ & Htrue); [done| |].
{ destruct (Z.le_gt_cases 0 retry); [left; lia|right; lia]. }
rewrite Hrun in Hrun1. simplify_eq.
destruct (Htrue eq_refl) as (k & resp & -> & Hrest). by exists k, resp.
Qed.
End RetryFacts.

(** ** extract_resources *)

Lemma str_contains_char (c : ascii) (s : string) :
  str_contains (String c EmptyString) s = true ↔ In c (list_ascii_of_string s).
Proof.
  induction s as [|c' s IH]; simpl; [by split|].
  rewrite orb_true_iff, IH.
  destruct (ascii_dec c c') as [->|Hne].
  - split; [by left|]. intros _. left. by destruct s.
  - split; [intros [?|?]; [done|by right]|].
    intros [Heq|Hin]; [by destruct Hne|by right].
Qed.

Lemma str_split_parts (sep : ascii) (s : string) :
  str_split sep s ≠ []
  ∧ Forall (fun part => ¬ In sep (list_ascii_of_string part)) (str_split sep s).
Proof.
  induction s as [|c s [Hne IH]]; simpl.
  - split; [done|]. constructor; [tauto|done].
  - destruct (Ascii.eqb_spec c sep) as [->|Hc].
    + split; [done|]. constructor; [tauto|done].
    + destruct (str_split sep s) as [|part parts]; [done|].
      split; [done|]. inversion IH as [|? ? Hpart Hparts]; subst.
      constructor; [|done]. simpl. intros [?|?]; [done|tauto].
Qed.

Lemma str_split_chars (sep : ascii) (s part : string) (c : ascii) :
  In part (str_split sep s) → In c (list_ascii_of_string part) →
  In c (list_ascii_of_string s).
Proof.
  revert part. induction s as [|c' s IH]; intros part; simpl.
  - by intros [<-|[]].
  - destruct (Ascii.eqb_spec c' sep) as [->|Hc].
    + intros [<-|Hin]; [done|]. right. by eapply IH.
    + destruct (str_split_parts sep s) as [Hne _].
      destruct (str_split sep s) as [|p parts]; [done|].
      intros [<-|Hin]; simpl.
      * intros [?|?]; [by left|right]. apply (IH p); [by left|done].
      * right. apply (IH part); [by right|done].
Qed.

Lemma last_part_in (parts : list string) : parts ≠ [] → In (last_part parts) parts.
Proof.
  unfold last_part. induction parts as [|p parts IH]; [done|]. intros _.
  destruct parts as [|q parts]; [by left|]. right. by apply IH.
Qed.

Lemma first_part_in (parts : list string) : parts ≠ [] → In (first_part parts) parts.
Proof. destruct parts; [done|]. intros _. by left. Qed.

Lemma part_without (sep : ascii) (s part : string) :
  In part (str_split sep s) → str_contains (String sep EmptyString) part = false.
Proof.
  intros Hin. destruct (str_split_parts sep s) as [_ Hall].
  rewrite List.Forall_forall in Hall. specialize (Hall part Hin).
  destruct (str_contains _ part) eqn:Hc; [|done].
  by apply str_contains_char in Hc.
Qed.

(** X3. The file name [extract_resources] gives a resource is never empty
    and holds no slash and no question mark, so that the destination is a
    direct child of the tutorial folder; the type holds no dot; and no link
    that matches the pattern is dropped. *)
Theorem extract_resources_names (tutorial_url : string) (anchor_hrefs : list string) :
  Forall (fun r =>
            resource_filename r ≠ ""
            ∧ str_contains "/" (resource_filename r) = false
            ∧ str_contains "?" (resource_filename r) = false
            ∧ str_contains "." (resource_type r) = false)
         (extract_resources tutorial_url anchor_hrefs)
  ∧ length (extract_resources tutorial_url anchor_hrefs)
    = length (List.filter (href_matches file_patterns) anchor_hrefs).
Proof.
  assert (∀ href, let r := resource_of_href tutorial_url href in
                  resource_filename r ≠ ""
                  ∧ str_contains "/" (resource_filename r) = false
                  ∧ str_contains "?" (resource_filename r) = false
                  ∧ str_contains "." (resource_type r) = false) as Hone.
  { intros href. unfold resource_of_href. simpl.
    set (full := if negb _ then _ else _).
    set (name := first_part (str_split "?" (last_part (str_split "/" full)))).
    assert (str_contains "?" name = false) as Hq.
    { apply (part_without "?" (last_part (str_split "/" full))).
      apply first_part_in, str_split_parts. }
    assert (str_contains "/" name = false) as Hs.
    { destruct (str_contains "/" name) eqn:Hc; [|done].
      apply str_contains_char in Hc.
      apply (str_split_chars "?" (last_part (str_split "/" full)) name) in Hc;
        [|apply first_part_in, str_split_parts].
      apply str_contains_char in Hc.
      by rewrite (part_without "/" full) in Hc
        by apply last_part_in, str_split_parts. }
    destruct (String.eqb_spec name "") as [Hempty|Hname]; simpl.
    - by split_and!.
    - split_and!; try done.
      destruct (str_contains "." name); [|done].
      apply (part_without "." name), last_part_in, str_split_parts. }
  split.
  - unfold extract_resources. apply List.Forall_forall. intros r Hin.
    apply in_flat_map in Hin as (href & _ & Hin).
    destruct (String.eqb href ""); [done|]. destruct Hin as [<-|[]]. apply Hone.
  - unfold extract_resources.
    induction anchor_hrefs as [|href hrefs IH]; [done|]. cbn [List.filter].
    destruct (href_matches file_patterns href) eqn:Hm; [|exact IH].
    cbn [flat_map].
    destruct (String.eqb_spec href "") as [->|_]; [by vm_compute in Hm|].
    simpl. by rewrite IH.
Qed.

(** ** process_tutorial, sequential *)

(** ** The content of a page *)

Section PageContentFacts.
Context {X : Type}.
Variables (E : Env) (B : Browser) (response_text : bytes → string).
Variable sleep : Z → X → X.

(** [get_page_content] sends one GET through the session and leaves the
  file system and the clock alone; what it raises, the browser raised. *)
Lemma get_page_content_spec url w x driver :
∃ o x' driver',
  get_page_content E B response_text sleep url (w, (x, driver))
  = (o, (mkWorld (w_fs w) (w_clock w) (url :: w_requests w), (x', driver')))
  ∧ match o with
    | Return _ => True
    | Raise e => (driver = false ∧ start_driver B = Some e) ∨ load_page B url = Some e
    end.
Proof.
unfold get_page_content, page_by_request, session_get_whole, setup_selenium,
  driver_get, session_get.
monad. simpl.
destruct (http_get E (length (w_requests w)) url) as [msg|response]; simpl;
  [|destruct (stream_error response) as [msg|]; simpl;
    [|destruct (status_code response =? 200); simpl]].
all: destruct driver; simpl.
all: try (destruct (start_driver B) as [e|] eqn:Hstart).
all: try (destruct (load_page B url) as [e'|] eqn:Hload).
all: eexists _, _, _; (split; [reflexivity|]); simpl; auto.
Qed.

Lemma with_driver_run {A} (m : M (World * X) A) w x driver :
with_driver m (w, (x, driver))
= (fst (m (w, x)), (fst (snd (m (w, x))), (snd (snd (m (w, x))), driver))).
Proof. unfold with_driver. by destruct (m (w, x)) as [o [w' x']]. Qed.
End PageContentFacts.

Section SequentialFacts.
Variable E : Env.
Variable B : Browser.
Variable response_text : bytes → string.
Variable anchors_of : string → list string.

(** An attempt writes to its own file only and makes no directory. *)
Lemma download_attempt_frame url filepath w slept o w' slept' :
download_attempt E url filepath (w, slept) = (o, (w', slept')) →
dirs (w_fs w') = dirs (w_fs w)
∧ ∀ p, p ≠ filepath → files (w_fs w') !! p = files (w_fs w) !! p.
Proof.
unfold download_attempt, session_get, lift_dl, raise_for_status, total_size_of,
  response_content, write_file.
run_all.
all: split; [done|]; intros p Hp; simpl; by rewrite ?lookup_insert_ne.
Qed.

Lemma download_attempts_frame url filepath retry remaining :
∀ attempt w slept o w' slept',
  download_attempts E retry remaining attempt url filepath (w, slept)
  = (o, (w', slept')) →
  dirs (w_fs w') = dirs (w_fs w)
  ∧ ∀ p, p ≠ filepath → files (w_fs w') !! p = files (w_fs w) !! p.
Proof.
induction remaining as [|remaining IH]; intros attempt w slept o w' slept'; simpl.
- by intros [= <- <- <-].
- destruct (download_attempt E url filepath (w, slept)) as [[[]|e] [w1 slept1]]
    eqn:Hrun; apply download_attempt_frame in Hrun as [Hd Hf].
  + by intros [= <- <- <-].
  + destruct (attempt =? retry - 1); [by intros [= <- <- <-]|].
    unfold bind, time_sleep. intros Hrest. apply IH in Hrest as [Hd' Hf'].
    split; [congruence|]. intros p Hp. by rewrite Hf', Hf.
Qed.

Lemma download_file_retry_frame url filepath retry w slept :
∃ ok w' slept',
  download_file_retry E url filepath retry (w, slept) = (Return ok, (w', slept'))
  ∧ dirs (w_fs w') = dirs (w_fs w)
  ∧ (∀ p, p ≠ filepath → files (w_fs w') !! p = files (w_fs w) !! p)
  ∧ (length (w_requests w') ≤ length (w_requests w) + Z.to_nat retry)%nat.
Proof.
unfold download_file_retry.
destruct (download_attempts_spec E url filepath retry (Z.to_nat retry) 0 w slept)
  as (ok & w' & slept' & n & Hrun & _ & Hreq & Hn & _); [done| |].
{ destruct (Z.le_gt_cases 0 retry); [left; lia|right; lia]. }
exists ok, w', slept'. split; [done|].
apply download_attempts_frame in Hrun as [Hd Hf]. split_and!; try done.
rewrite Hreq, length_app, repeat_length. lia.
Qed.

(** The loop over the resources of a tutorial. *)
Lemma download_each_spec tutorial_dir resources :
∀ result w slept,
  ∃ r w' slept' new,
    download_each E tutorial_dir resources result (w, slept)
    = (Return r, (w', slept'))
    ∧ tut_resources r = tut_resources result ++ new
    ∧ (length new ≤ length resources)%nat
    ∧ tut_success r + tut_failed r
      = tut_success result + tut_failed result + Z.of_nat (length resources)
    ∧ tut_failed r = tut_failed result + count_not_downloaded new
    ∧ files (w_fs w) ⊆ files (w_fs w')
    ∧ dirs (w_fs w') = dirs (w_fs w)
    ∧ (length (w_requests w') ≤ length (w_requests w) + 3 * length new)%nat.
Proof.
induction resources as [|resource rest IH]; intros result w slept.
- exists result, w, slept, []. unfold count_not_downloaded. simpl. unfold ret.
  rewrite app_nil_r. split_and!; try done; lia.
- cbn [download_each]. unfold bind at 1. unfold fs_test at 1. cbn [fst snd].
  destruct (path_exists (w_fs w) _) eqn:Hex.
  + destruct (IH (mkTutorialResult (tut_resources result) (tut_success result + 1)
                                   (tut_failed result)) w slept)
      as (r & w' & slept' & new & Hrun & Hres & Hlen & Hsum & Hfail
          & Hfiles & Hdirs & Hreq).
    exists r, w', slept', new. rewrite Hrun. simpl in *.
    split_and!; try done; lia.
  + unfold bind at 1.
    destruct (download_file_retry_frame (resource_url resource)
                (path_div tutorial_dir (resource_filename resource)) 3 w slept)
      as (ok & w1 & slept1 & -> & Hd1 & Hf1 & Hreq1).
    assert (files (w_fs w) ⊆ files (w_fs w1)) as Hsub1.
    { apply map_subseteq_spec. intros p data Hp.
      destruct (decide (p = path_div tutorial_dir (resource_filename resource)))
        as [->|Hne]; [|by rewrite Hf1].
      unfold path_exists, is_file in Hex. apply orb_false_elim in Hex as [Hex _].
      apply bool_decide_eq_false in Hex. destruct Hex. eauto. }
    destruct ok.
    * set (stored := mkAttempted resource true
                       (Some (path_str (path_div tutorial_dir
                                                 (resource_filename resource))))).
      destruct (IH (mkTutorialResult (tut_resources result ++ [stored])
                                     (tut_success result + 1) (tut_failed result))
                   w1 slept1)
        as (r & w' & slept' & new & Hrun & Hres & Hlen & Hsum & Hfail
            & Hfiles & Hdirs & Hreq).
      exists r, w', slept', (stored :: new). rewrite Hrun.
      unfold count_not_downloaded in *. subst stored. simpl in *.
      split_and!; try done; try lia; try congruence; try (by etrans).
      by rewrite Hres, <- app_assoc.
    * set (stored := mkAttempted resource false None).
      destruct (IH (mkTutorialResult (tut_resources result ++ [stored])
                                     (tut_success result) (tut_failed result + 1))
                   w1 slept1)
        as (r & w' & slept' & new & Hrun & Hres & Hlen & Hsum & Hfail
            & Hfiles & Hdirs & Hreq).
      exists r, w', slept', (stored :: new). rewrite Hrun.
      unfold count_not_downloaded in *. subst stored. simpl in *.
      split_and!; try done; try lia; try congruence; try (by etrans).
      by rewrite Hres, <- app_assoc.
Qed.

Lemma mkdir_exist_ok_keeps fs p o fs' :
mkdir_exist_ok fs p = (o, fs') →
files fs' = files fs ∧ (is_return o = false → fs' = fs).
Proof.
unfold mkdir_exist_ok. intros H. repeat case_match; by simplify_eq.
Qed.

End SequentialFacts.


(** ** CacheManager: more of its behaviour *)

Section CacheMore.
Variable E : Env.

Ltac cache_case :=
  match goal with
  | |- context [match ?x with _ => _ end] =>
      lazymatch x with
      | context [match _ with _ => _ end] => fail
      | _ => destruct x eqn:?
      end
  end.

Lemma write_file_OSError fs p data e fs' :
  write_file fs p data = (Raise e, fs') → is_OSError e = true.
Proof.
  unfold write_file, open_for_write. intros H.
  by repeat case_match; simplify_eq.
Qed.

Lemma unlink_OSError fs p e fs' :
  unlink fs p = (Raise e, fs') → is_OSError e = true.
Proof. unfold unlink. intros H. by repeat case_match; simplify_eq. Qed.

(** What [remove_cache] leaves: the clock, the requests and the settings
    of the manager as they were; on return the entry is out of the index;
    it raises only what the file system raises. *)
Lemma remove_cache_spec url w self o w' self' :
  remove_cache E url (w, self) = (o, (w', self')) →
  w_clock w' = w_clock w ∧ w_requests w' = w_requests w
  ∧ cache_dir self' = cache_dir self ∧ expire_days self' = expire_days self
  ∧ match o with
    | Return _ => index self' = delete (_get_cache_key E url) (index self)
    | Raise e =>
        is_OSError e = true
        ∧ (index self' = index self
           ∨ index self' = delete (_get_cache_key E url) (index self))
    end.
Proof.
  unfold remove_cache. monad.
  destruct (index self !! _get_cache_key E url) as [info|] eqn:Hk.
  - destruct (path_exists _ _); monad.
    + destruct (unlink _ _) as [[[]|e] fs1] eqn:Hu; monad.
      * destruct (write_file _ _ _) as [[[]|e] fs2] eqn:Hw;
          intros [= <- <- <-]; simpl; split_and!; try done.
        -- by eapply write_file_OSError.
        -- by right.
      * intros [= <- <- <-]. simpl. split_and!; try done; [|by left].
        by eapply unlink_OSError.
    + destruct (write_file _ _ _) as [[[]|e] fs2] eqn:Hw;
        intros [= <- <- <-]; simpl; split_and!; try done.
      * by eapply write_file_OSError.
      * by right.
  - intros [= <- <- <-]. split_and!; try done. by rewrite delete_id.
Qed.

(** The three ways of [is_cached]. *)
Lemma is_cached_cases url w self :
  match index self !! _get_cache_key E url with
  | None => is_cached E url (w, self) = (Return false, (w, self))
  | Some cache_info =>
      if expired_at (expire_days self) (datetime_now E (w_clock w)) cache_info
      then is_cached E url (w, self)
           = (remove_cache E url ;;; ret false) (tick w, self)
      else is_cached E url (w, self)
           = (Return (path_exists (w_fs w)
                        (path_div (cache_dir self) (info_filename cache_info))),
              (tick w, self))
  end.
Proof.
  unfold is_cached, expired_at. monad.
  destruct (index self !! _get_cache_key E url) as [info|]; [|done]. monad.
  by destruct (_ <? _).
Qed.

(** X5. [get_cached_file] gives a path only for an entry of the index
    that has not expired and whose file exists, and the path is that of
    the file; it changes nothing then but the clock it read.  It gives
    [None] for a locator without an entry, for an entry whose file is
    missing, and for an expired entry, which is out of the index
    afterwards.  The lookup of the entry after the check never fails with
    a [KeyError]: what the method raises is raised by the file system
    while an expired entry is evicted. *)
Theorem get_cached_file_sound (url : string) (w : World) (self : CacheManager) :
  match get_cached_file E url (w, self) with
  | (Return (Some p), (w', self')) =>
      w' = tick w ∧ self' = self
      ∧ ∃ cache_info,
          index self !! _get_cache_key E url = Some cache_info
          ∧ expired_at (expire_days self) (datetime_now E (w_clock w)) cache_info
            = false
          ∧ p = path_div (cache_dir self) (info_filename cache_info)
          ∧ path_exists (w_fs w) p = true
  | (Return None, (w', self')) =>
      match index self !! _get_cache_key E url with
      | None => w' = w ∧ self' = self
      | Some cache_info =>
          if expired_at (expire_days self) (datetime_now E (w_clock w)) cache_info
          then index self' = delete (_get_cache_key E url) (index self)
          else w' = tick w ∧ self' = self
               ∧ path_exists (w_fs w)
                   (path_div (cache_dir self) (info_filename cache_info)) = false
      end
  | (Raise e, _) =>
      is_OSError e = true
      ∧ ∃ cache_info,
          index self !! _get_cache_key E url = Some cache_info
          ∧ expired_at (expire_days self) (datetime_now E (w_clock w)) cache_info
            = true
  end.
Proof.
  unfold get_cached_file. unfold bind at 1.
  pose proof (is_cached_cases url w self) as Hcases.
  destruct (index self !! _get_cache_key E url) as [info|] eqn:Hk.
  - destruct (expired_at _ _ info) eqn:Hexp.
    + rewrite Hcases. unfold bind at 1.
      destruct (remove_cache E url (tick w, self)) as [[[]|e] [w1 self1]] eqn:Hr;
        apply remove_cache_spec in Hr as (_ & _ & _ & _ & Hix).
      * unfold ret. simpl. done.
      * destruct Hix as [Hos _]. eauto.
    + rewrite Hcases. simpl.
      destruct (path_exists _ _) eqn:Hex; simpl.
      * monad. simpl. rewrite Hk. split_and!; try done. by exists info.
      * done.
  - rewrite Hcases. simpl. done.
Qed.

Lemma path_div_inj dir a b : path_div dir a = path_div dir b → a = b.
Proof. unfold path_div. intros H%app_inv_head. by simplify_eq. Qed.

(** X6. An entry that has expired when [is_cached] reads the clock is
    evicted before the answer, which is false: the entry is out of the
    index, the index file holds the index without it, and no regular
    file is left at the path of the cached file (unless the entry names
    the index file itself as its file).  When the eviction raises, the
    exception is one of the file system: either the file could not be
    deleted and nothing
    changed, or the index could not be saved, and then the entry is out
    of the index in memory and its file is deleted while the index file
    is as it was. *)
Theorem is_cached_evicts_expired (url : string) (w : World) (self : CacheManager)
    (cache_info : CacheInfo) :
  index self !! _get_cache_key E url = Some cache_info →
  expired_at (expire_days self) (datetime_now E (w_clock w)) cache_info = true →
  let cache_file := path_div (cache_dir self) (info_filename cache_info) in
  match is_cached E url (w, self) with
  | (Return hit, (w', self')) =>
      hit = false
      ∧ w_clock w' = S (w_clock w)
      ∧ index self' = delete (_get_cache_key E url) (index self)
      ∧ files (w_fs w') !! index_file self = Some (json_dump E (index self'))
      ∧ (info_filename cache_info ≠ "cache_index.json" →
         is_file (w_fs w') cache_file = false)
  | (Raise e, (w', self')) =>
      is_OSError e = true
      ∧ ((w' = tick w ∧ self' = self)
         ∨ (index self' = delete (_get_cache_key E url) (index self)
            ∧ w_fs w' = mkFS (delete cache_file (files (w_fs w))) (dirs (w_fs w))))
  end.
Proof.
  intros Hk Hexp cache_file.
  pose proof (is_cached_cases url w self) as Hcases.
  rewrite Hk, Hexp in Hcases. rewrite Hcases. clear Hcases.
  unfold remove_cache. monad. rewrite Hk. monad. simpl.
  fold cache_file.
  destruct (path_exists (w_fs w) cache_file) eqn:Hex; monad; simpl.
  - destruct (unlink (w_fs w) cache_file) as [[[]|e] fs1] eqn:Hu; monad; simpl.
    + assert (fs1 = mkFS (delete cache_file (files (w_fs w))) (dirs (w_fs w)))
        as ->.
      { unfold unlink in Hu. by repeat case_match; simplify_eq. }
      destruct (write_file _ _ _) as [[[]|e] fs2] eqn:Hw; simpl.
      * apply write_file_return in Hw as ->. simpl.
        split_and!; try done; [apply lookup_insert_eq|].
        intros Hne. rewrite is_file_set_file.
        rewrite bool_decide_eq_false_2
          by (intros Heq; apply path_div_inj in Heq; done).
        unfold is_file; simpl. rewrite lookup_delete_eq.
        apply bool_decide_eq_false. by intros [? ?].
      * split; [by eapply write_file_OSError|]. right. split; [done|].
        by apply write_file_raise in Hw as ->.
    + split; [by eapply unlink_OSError|]. left.
      unfold unlink in Hu. repeat case_match; simplify_eq.
      all: by destruct w.
  - destruct (write_file _ _ _) as [[[]|e] fs2] eqn:Hw; simpl.
    + apply write_file_return in Hw as ->. simpl.
      split_and!; try done; [apply lookup_insert_eq|].
      intros Hne. apply orb_false_elim in Hex as [Hf Hd].
      rewrite is_file_set_file, Hf.
      rewrite bool_decide_eq_false_2; [done|].
      intros Heq. apply path_div_inj in Heq. done.
    + split; [by eapply write_file_OSError|]. right. split; [done|].
      apply write_file_raise in Hw as ->.
      apply orb_false_elim in Hex as [Hf Hd].
      unfold is_file in Hf. apply bool_decide_eq_false in Hf.
      rewrite delete_id; [by destruct (w_fs w)|].
      destruct (files (w_fs w) !! cache_file) eqn:Hl; [|done].
      destruct Hf. eauto.
Qed.

Lemma advance_zero w : advance w 0 = w.
Proof. destruct w. unfold advance. simpl. f_equal. lia. Qed.

Lemma advance_tick w n : advance (tick w) n = advance w (S n).
Proof. unfold advance, tick. simpl. f_equal. lia. Qed.

(** The first loop of [clear_expired] reads the clock once per entry and
    changes nothing else. *)
Lemma collect_expired_spec items :
  ∀ expired_keys w self,
    collect_expired E items expired_keys (w, self)
    = (Return (expired_keys
                 ++ expired_from E (expire_days self) items (w_clock w)),
       (advance w (length items), self)).
Proof.
  induction items as [|[key info] rest IH]; intros acc w self; simpl.
  - unfold ret. by rewrite app_nil_r, advance_zero.
  - monad. fold (tick w). unfold expired_at.
    destruct (_ <? _); rewrite IH, advance_tick; simpl; [|done].
    by rewrite <- app_assoc.
Qed.

Lemma expired_from_sublist days items clock :
  expired_from E days items clock `sublist_of` items.*1.
Proof.
  revert clock. induction items as [|[key info] rest IH]; intros clock; simpl.
  - constructor.
  - destruct (expired_at _ _ _); [by apply sublist_skip|by apply sublist_cons].
Qed.

(** Which keys the first loop collects: the one of the [i]-th entry when
    that entry has expired at the [i]-th reading. *)
Lemma expired_from_elem days items :
  ∀ clock i key cache_info,
    NoDup items.*1 → items !! i = Some (key, cache_info) →
    key ∈ expired_from E days items clock
    ↔ expired_at days (datetime_now E (clock + i)) cache_info = true.
Proof.
  induction items as [|[key' info'] rest IH]; intros clock i key info Hnd Hi;
    [done|].
  rewrite fmap_cons in Hnd.
  apply NoDup_cons in Hnd as [Hfresh Hnd]. destruct i as [|i]; simpl in Hi;
    cbn [expired_from].
  - simplify_eq. rewrite Nat.add_0_r. simpl in Hfresh.
    destruct (expired_at _ _ _); split; try done; [set_solver|].
    intros Hin. destruct Hfresh.
    eapply elem_of_sublist; [exact Hin|apply expired_from_sublist].
  - assert (key ≠ key') as Hne.
    { intros ->. apply Hfresh.
      apply (list_elem_of_fmap_2' fst rest (key', info) key'); [|done].
      by eapply list_elem_of_lookup_2. }
    rewrite <- Nat.add_succ_comm. rewrite <- (IH (S clock) i key info Hnd Hi).
    destruct (expired_at _ _ info'); [|done]. set_solver.
Qed.

(** The second loop on keys of a well-keyed index. *)
Lemma remove_expired_spec keys :
  ∀ w self,
    NoDup keys → Forall (fun key => is_Some (index self !! key)) keys →
    well_keyed E (index self) →
    match remove_expired E keys (w, self) with
    | (Return _, (w', self')) =>
        w_clock w' = w_clock w ∧ index self' = foldr delete (index self) keys
    | (Raise e, (w', self')) =>
        is_OSError e = true ∧ w_clock w' = w_clock w
        ∧ index self' ⊆ index self
    end.
Proof.
  induction keys as [|key rest IH]; intros w self Hnd Hin Hwk; simpl.
  - done.
  - apply NoDup_cons in Hnd as [Hfresh Hnd].
    apply Forall_cons in Hin as [[info Hk] Hin].
    monad. rewrite Hk. pose proof (Hwk _ _ Hk) as Hkey. simpl in Hkey.
    destruct (remove_cache E (info_url info) (w, self)) as [[[]|e] [w1 self1]]
      eqn:Hr; apply remove_cache_spec in Hr as (Hc & _ & _ & _ & Hix);
      rewrite Hkey in Hix.
    + specialize (IH w1 self1 Hnd).
      destruct (remove_expired E rest (w1, self1)) as [[[]|e] [w2 self2]].
      * destruct IH as [Hc2 Hix2].
        -- rewrite Hix. eapply Forall_impl; [|].
           ++ apply Forall_forall. intros k Hkin. 
              rewrite Forall_forall in Hin. exact (conj Hkin (Hin k Hkin)).
           ++ simpl. intros k [Hkin Hsome]. rewrite lookup_delete_ne; [done|].
              by intros ->.
        -- rewrite Hix. by apply map_Forall_delete.
        -- split; [congruence|]. rewrite Hix2, Hix.
           by rewrite delete_foldr_delete.
      * destruct IH as (Hos & Hc2 & Hsub).
        -- rewrite Hix. eapply Forall_impl; [|].
           ++ apply Forall_forall. intros k Hkin. 
              rewrite Forall_forall in Hin. exact (conj Hkin (Hin k Hkin)).
           ++ simpl. intros k [Hkin Hsome]. rewrite lookup_delete_ne; [done|].
              by intros ->.
        -- rewrite Hix. by apply map_Forall_delete.
        -- split_and!; [done|congruence|].
           etrans; [exact Hsub|]. rewrite Hix. apply delete_subseteq.
    + destruct Hix as [Hos [-> | ->]]; split_and!; try done.
      apply delete_subseteq.
Qed.

Lemma size_foldr_delete (m : gmap string CacheInfo) keys :
  NoDup keys → Forall (fun key => is_Some (m !! key)) keys →
  (size (foldr delete m keys) + length keys = size m)%nat.
Proof.
  induction keys as [|key rest IH]; intros Hnd Hin; simpl; [lia|].
  apply NoDup_cons in Hnd as [Hfresh Hnd].
  apply Forall_cons in Hin as [Hk Hin].
  specialize (IH Hnd Hin).
  rewrite map_size_delete_Some
    by (by rewrite lookup_foldr_delete_not_elem_of).
  assert (size (foldr delete m rest) ≠ 0%nat).
  { apply map_size_ne_0_lookup. exists key.
    by rewrite lookup_foldr_delete_not_elem_of. }
  lia.
Qed.

(** X7. [clear_expired] on an index whose entries are stored under the
    keys of their locators.  The clock is read once per entry.  When the
    method returns, the entries left are exactly those that had not
    expired at the reading taken for them, each as it was, and the number
    printed is the number of entries removed.  When it raises, the
    exception is one of the file system, raised while an entry was
    evicted, and nothing was added to the index. *)
Theorem clear_expired_spec
    (dict_items : gmap string CacheInfo → list (string * CacheInfo))
    (w : World) (self : CacheManager) :
  dict_items (index self) ≡ₚ map_to_list (index self) →
  well_keyed E (index self) →
  match clear_expired E dict_items (w, self) with
  | (Return n, (w', self')) =>
      w_clock w' = (w_clock w + size (index self))%nat
      ∧ index self' ⊆ index self
      ∧ (∀ i key cache_info,
           dict_items (index self) !! i = Some (key, cache_info) →
           index self' !! key
           = if expired_at (expire_days self)
                           (datetime_now E (w_clock w + i)) cache_info
             then None else Some cache_info)
      ∧ n = (size (index self) - size (index self'))%nat
  | (Raise e, (w', self')) =>
      is_OSError e = true
      ∧ w_clock w' = (w_clock w + size (index self))%nat
      ∧ index self' ⊆ index self
  end.
Proof.
  intros Hitems Hwk. unfold clear_expired. monad.
  rewrite collect_expired_spec. simpl.
  set (items := dict_items (index self)) in *.
  set (keys := expired_from E (expire_days self) items (w_clock w)).
  assert (NoDup items.*1) as Hnd.
  { rewrite Hitems. apply NoDup_fst_map_to_list. }
  assert (∀ key info, (key, info) ∈ items → index self !! key = Some info)
    as Hlook.
  { intros key info Hin. apply elem_of_map_to_list. by rewrite <- Hitems. }
  assert (length items = size (index self)) as Hlen.
  { by rewrite Hitems, length_map_to_list. }
  assert (NoDup keys) as Hndk.
  { eapply sublist_NoDup; [exact Hnd|]. apply expired_from_sublist. }
  assert (Forall (fun key => is_Some (index self !! key)) keys) as Hall.
  { apply Forall_forall. intros key Hin.
    eapply elem_of_sublist in Hin; [|apply expired_from_sublist].
    apply list_elem_of_fmap in Hin as ([k info] & -> & Hin). simpl.
    rewrite (Hlook _ _ Hin). eauto. }
  pose proof (remove_expired_spec keys (advance w (length items)) self
                Hndk Hall Hwk) as Hrm.
  destruct (remove_expired E keys _) as [[[]|e] [w1 self1]]; simpl in *.
  - destruct Hrm as [Hc Hix]. split_and!.
    + lia.
    + rewrite Hix. clear. induction keys; simpl; [done|].
      etrans; [apply delete_subseteq|done].
    + intros i key info Hi. rewrite Hix.
      pose proof (expired_from_elem (expire_days self) items (w_clock w)
                    i key info Hnd Hi) as Hiff. fold keys in Hiff.
      destruct (expired_at _ _ info).
      * apply lookup_foldr_delete. by apply Hiff.
      * rewrite lookup_foldr_delete_not_elem_of.
        -- apply Hlook. by eapply list_elem_of_lookup_2.
        -- intros Hin. apply Hiff in Hin. done.
    + rewrite Hix. pose proof (size_foldr_delete (index self) keys Hndk Hall).
      lia.
  - destruct Hrm as (Hos & Hc & Hsub). split_and!; [done|lia|done].
Qed.
End CacheMore.


(** ** ParallelDownloader.download_file: what a task does and reports *)

Section DownloadMore.
Variable E : Env.

Lemma is_cached_requests url w self o w' self' :
  is_cached E url (w, self) = (o, (w', self')) →
  w_requests w' = w_requests w.
Proof.
  pose proof (is_cached_cases E url w self) as Hcases.
  destruct (index self !! _get_cache_key E url) as [info|].
  - destruct (expired_at _ _ _); rewrite Hcases; [|by intros [= <- <- <-]].
    unfold bind.
    destruct (remove_cache E url (tick w, self)) as [[[]|e] [w1 self1]] eqn:Hr;
      apply remove_cache_spec in Hr as (_ & Hreq & _); by intros [= <- <- <-].
  - rewrite Hcases. by intros [= <- <- <-].
Qed.

Lemma get_cached_file_requests url w self o w' self' :
  get_cached_file E url (w, self) = (o, (w', self')) →
  w_requests w' = w_requests w.
Proof.
  intros H. pose proof (get_cached_file_state E url (w, self)) as Hs.
  rewrite H in Hs. simpl in Hs.
  destruct (is_cached E url (w, self)) as [o1 [w1 self1]] eqn:Hc.
  simpl in Hs. simplify_eq. by eapply is_cached_requests.
Qed.

Lemma add_to_cache_requests url src w self o w' self' :
  add_to_cache E url src (w, self) = (o, (w', self')) →
  w_requests w' = w_requests w.
Proof. unfold add_to_cache. run_all. Qed.

(** The cache check sends nothing; without a cache it does nothing; a
    path it gives exists. *)
Lemma lookup_cache_frame url use_cache w cm o w' cm' :
  lookup_cache E url use_cache (w, cm) = (o, (w', cm')) →
  w_requests w' = w_requests w
  ∧ (use_cache = false ∨ cm = None → w' = w ∧ cm' = cm ∧ o = Return None)
  ∧ (∀ p, o = Return (Some p) → use_cache = true ∧ is_Some cm).
Proof.
  unfold lookup_cache. destruct use_cache; cycle 1.
  { monad. intros [= <- <- <-]. split_and!; try done. }
  destruct cm as [self|]; cycle 1.
  { monad. intros [= <- <- <-]. split_and!; try done. }
  unfold bind, cache_call.
  destruct (is_cached E url (w, self)) as [[hit|e] [w1 self1]] eqn:Hc;
    pose proof (is_cached_requests _ _ _ _ _ _ Hc) as Hreq1.
  - destruct hit.
    + destruct (get_cached_file E url (w1, self1)) as [o2 [w2 self2]] eqn:Hg.
      pose proof (get_cached_file_requests _ _ _ _ _ _ Hg) as Hreq2.
      intros [= <- <- <-]. split_and!; [congruence| |by eauto].
      by intros [|].
    + unfold ret. intros [= <- <- <-]. split_and!; [done| |by eauto].
      by intros [|].
  - intros [= <- <- <-]. split_and!; [done| |by eauto].
    by intros [|].
Qed.

(** The copy out of the cache sends nothing; the result is marked only
    when the copy succeeded. *)
Lemma serve_from_cache_spec cached_file filepath r w x o r' w' x' :
  serve_from_cache cached_file filepath (r, (w, x)) = (o, (r', (w', x'))) →
  w_requests w' = w_requests w ∧ w_clock w' = w_clock w ∧ x' = x
  ∧ match o with
    | Return _ => ∃ sz, r' = set_size (set_cached (set_success r true) true) sz
    | Raise _ => r' = r
    end.
Proof.
  unfold serve_from_cache. monad.
  destruct (copy2 (w_fs w) cached_file filepath) as [[[]|e] fs1] eqn:Hc; monad;
    simpl.
  - destruct (stat_size_exists fs1 filepath) as [sz ->];
      [by eapply copy2_exists|].
    intros [= <- <- <- <-]. split_and!; eauto.
  - intros [= <- <- <- <-]. by split_and!.
Qed.

(** The fetch sends one GET and reads no clock; the result is marked only
    when the file was written. *)
Lemma fetch_to_file_frame url filepath r w x o r' w' x' :
  fetch_to_file E url filepath (r, (w, x)) = (o, (r', (w', x'))) →
  w_requests w' = url :: w_requests w ∧ w_clock w' = w_clock w ∧ x' = x
  ∧ match o with
    | Return _ => ∃ sz, r' = set_size (set_success r true) sz
    | Raise _ => r' = r
    end.
Proof.
  unfold fetch_to_file, session_get, raise_for_status, total_size_of,
    stream_to_file.
  run_all.
  all: try (split_and!; eauto; fail).
  all: match goal with
       | H : stat_size _ _ = Raise _ |- _ =>
           unfold stat_size, set_file in H; simpl in H;
           rewrite lookup_insert_eq in H; simplify_eq
       end.
Qed.

Lemma store_in_cache_frame url filepath use_cache w cm o w' cm' :
  store_in_cache E url filepath use_cache (w, cm) = (o, (w', cm')) →
  w_requests w' = w_requests w
  ∧ (use_cache = false ∨ cm = None → w' = w ∧ cm' = cm).
Proof.
  unfold store_in_cache. destruct use_cache; cycle 1.
  { monad. intros [= <- <- <-]. by split_and!. }
  destruct cm as [self|]; cycle 1.
  { monad. intros [= <- <- <-]. by split_and!. }
  unfold cache_call, bind.
  destruct (add_to_cache E url filepath (w, self)) as [[p|e] [w1 self1]] eqn:Ha;
    apply add_to_cache_requests in Ha; intros [= <- <- <-];
    (split; [done|by intros [|]]).
Qed.

(** What a call of [download_file] does and reports. *)
Lemma download_file_outcome url filepath use_cache w cache_manager :
  ∃ r w' cm',
    download_file E url filepath use_cache (w, cache_manager)
    = (Return r, (w', cm'))
    ∧ res_url r = url ∧ res_filepath r = path_str filepath
    ∧ (w_requests w' = w_requests w ∨ w_requests w' = url :: w_requests w)
    ∧ (res_cached r = true →
       res_success r = true ∧ res_error r = None
       ∧ w_requests w' = w_requests w
       ∧ use_cache = true ∧ is_Some cache_manager)
    ∧ (res_success r = false → res_cached r = false ∧ res_size r = 0)
    ∧ (use_cache = false ∨ cache_manager = None →
       w_requests w' = url :: w_requests w
       ∧ w_clock w' = w_clock w ∧ cm' = cache_manager).
Proof.
  unfold download_file, download_file_body. unfold bind at 1. unfold in_body at 1.
  destruct (lookup_cache E url use_cache (w, cache_manager))
    as [[[cached_path|]|e] [w1 cm1]] eqn:Hl;
    apply lookup_cache_frame in Hl as (Hreq1 & Hoff1 & Hon1).
  - destruct (Hon1 _ eq_refl) as [-> Hcm].
    destruct (serve_from_cache cached_path filepath _) as [[[]|e] [r2 [w2 cm2]]]
      eqn:Hs; apply serve_from_cache_spec in Hs as (Hreq2 & Hc2 & -> & Hr).
    + destruct Hr as [sz ->]. eexists _, _, _. split; [reflexivity|]. simpl.
      split_and!; try done.
      * left. congruence.
      * intros _. split_and!; try done. congruence.
      * intros [|]; [done|]. subst. by destruct Hcm.
    + subst r2. eexists _, _, _. split; [reflexivity|]. simpl.
      split_and!; try done.
      * left. congruence.
      * intros [|]; [done|]. subst. by destruct Hcm.
  - unfold bind.
    destruct (fetch_to_file E url filepath _) as [[[]|e] [r2 [w2 cm2]]] eqn:Hf;
      apply fetch_to_file_frame in Hf as (Hreq2 & Hc2 & -> & Hr).
    + destruct Hr as [sz ->]. unfold in_body.
      destruct (store_in_cache E url filepath use_cache (w2, cm1))
        as [[[]|e] [w3 cm3]] eqn:Hst;
        apply store_in_cache_frame in Hst as (Hreq3 & Hoff3).
      all: eexists _, _, _; (split; [reflexivity|]); simpl.
      all: split_and!; try done; [right; congruence|].
      all: intros Hoff; destruct (Hoff1 Hoff) as (-> & -> & _).
      all: destruct (Hoff3 Hoff) as (-> & ->); by split_and!.
    + subst r2. eexists _, _, _. split; [reflexivity|]. simpl.
      split_and!; try done; [right; congruence|].
      intros Hoff. destruct (Hoff1 Hoff) as (-> & -> & _). by split_and!.
  - eexists _, _, _. split; [reflexivity|]. simpl.
    split_and!; try done; [by left|].
    intros Hoff. by destruct (Hoff1 Hoff) as (_ & _ & ?).
Qed.

(** X8. What a call of [download_file] does and reports, whatever the
    server and the file system do.  It returns a result and sends at most
    one GET, for the locator of the task.  A result marked as served from
    the cache is a success without error text, and no GET was sent for
    it; that needs the cache to be in use.  A failure reports size 0 and
    is not marked as cached.  Without a cache, by the argument or because
    the downloader has none, exactly one GET is sent, the clock is not
    read and the cache manager is left as it is. *)
Theorem download_file_effects (url : string) (filepath : path) (use_cache : bool)
    (w : World) (cache_manager : option CacheManager) :
  ∃ r w' cm',
    download_file E url filepath use_cache (w, cache_manager)
    = (Return r, (w', cm'))
    ∧ (w_requests w' = w_requests w ∨ w_requests w' = url :: w_requests w)
    ∧ (res_cached r = true →
       res_success r = true ∧ res_error r = None
       ∧ w_requests w' = w_requests w
       ∧ use_cache = true ∧ is_Some cache_manager)
    ∧ (res_success r = false → res_cached r = false ∧ res_size r = 0)
    ∧ (use_cache = false ∨ cache_manager = None →
       w_requests w' = url :: w_requests w
       ∧ w_clock w' = w_clock w ∧ cm' = cache_manager).
Proof.
  destruct (download_file_outcome url filepath use_cache w cache_manager)
    as (r & w' & cm' & Hrun & _ & _ & Hrest).
  by exists r, w', cm'.
Qed.

(** A batch: one result per task, in order; a result marked as cached is
    a success; at most one GET per task. *)
Lemma run_tasks_effects tasks use_cache :
  ∀ w cm,
    ∃ results w' cm',
      run_tasks E tasks use_cache (w, cm) = (Return results, (w', cm'))
      ∧ map result_task results = map task_tag tasks
      ∧ Forall (fun r => res_cached r = true → res_success r = true) results
      ∧ (length (w_requests w') ≤ length (w_requests w) + length tasks)%nat.
Proof.
  induction tasks as [|[url p] rest IH]; intros w cm; simpl.
  - exists [], w, cm. split_and!; try done. lia.
  - destruct (download_file_outcome url p use_cache w cm)
      as (r & w1 & cm1 & Hr & Hu & Hp & Hreq & Hcached & _).
    destruct (IH w1 cm1) as (rs & w2 & cm2 & Hrs & Htags & Hall & Hreqs).
    exists (r :: rs), w2, cm2. unfold bind, ret. rewrite Hr, Hrs.
    split_and!; try done.
    + simpl. unfold result_task at 1, task_tag at 1. simpl.
      by rewrite Hu, Hp, Htags.
    + constructor; [|done]. intros Hc. by destruct (Hcached Hc).
    + destruct Hreq as [Hreq | Hreq]; rewrite Hreq in Hreqs; simpl in *; lia.
Qed.

(** The loop that prepares the tasks returns and changes nothing; every
    task is for a resource of the list, in the folder. *)
Lemma prepare_tasks_spec tutorial_dir resources :
  ∀ download_tasks s,
    ∃ new,
      prepare_tasks tutorial_dir resources download_tasks s
      = (Return (download_tasks ++ new), s)
      ∧ (length new ≤ length resources)%nat
      ∧ Forall (fun task =>
                  ∃ resource, In resource resources
                              ∧ task = (resource_url resource,
                                        path_div tutorial_dir
                                                 (resource_filename resource)))
               new.
Proof.
  induction resources as [|resource rest IH]; intros acc [w cm].
  - exists []. simpl. unfold ret. rewrite app_nil_r. split_and!; try done.
  - cbn [prepare_tasks]. monad. simpl.
    destruct (path_exists (w_fs w) _) eqn:Hex.
    + destruct (stat_size_exists _ _ Hex) as [sz ->]. monad.
      destruct (0 <? sz).
      * destruct (IH acc (w, cm)) as (new & -> & Hlen & Hall).
        exists new. split_and!; [done|simpl; lia|].
        eapply Forall_impl; [exact Hall|].
        intros task (res & Hin & ->). exists res. split; [by right|done].
      * destruct (IH (acc ++ [(resource_url resource,
                                path_div tutorial_dir (resource_filename resource))])
                     (w, cm)) as (new & -> & Hlen & Hall).
        eexists (_ :: new). rewrite <- app_assoc. split_and!; [done|simpl; lia|].
        constructor; [exists resource; split; [by left|done]|].
        eapply Forall_impl; [exact Hall|].
        intros task (res & Hin & ->). exists res. split; [by right|done].
    + destruct (IH (acc ++ [(resource_url resource,
                              path_div tutorial_dir (resource_filename resource))])
                   (w, cm)) as (new & -> & Hlen & Hall).
      eexists (_ :: new). rewrite <- app_assoc. split_and!; [done|simpl; lia|].
      constructor; [exists resource; split; [by left|done]|].
      eapply Forall_impl; [exact Hall|].
      intros task (res & Hin & ->). exists res. split; [by right|done].
Qed.

Lemma count_results_split results :
  count_results res_success results
  + count_results (fun r => negb (res_success r)) results
  = Z.of_nat (length results).
Proof.
  unfold count_results. induction results as [|r rs IH]; [done|]. simpl.
  destruct (res_success r); simpl; lia.
Qed.

Lemma count_results_le (f g : DownloadResult → bool) results :
  Forall (fun r => f r = true → g r = true) results →
  0 ≤ count_results f results ≤ count_results g results.
Proof.
  unfold count_results. induction 1 as [|r rs Hr _ IH]; [done|]. simpl.
  destruct (f r) eqn:Hf; [rewrite (Hr eq_refl)|destruct (g r)]; simpl; lia.
Qed.

(** What [process_tutorial] does with the resources of the page. *)
Lemma download_page_resources_spec (completion_order : list Task → list Task)
    (tutorial_dir : path) (resources : list PageResource)
    (w : World) (cm : option CacheManager) :
  (∀ tasks, Permutation (completion_order tasks) tasks) →
  ∃ r w' cm',
    download_page_resources E completion_order tutorial_dir resources (w, cm)
    = (Return r, (w', cm'))
    ∧ par_success r + par_failed r = Z.of_nat (length (par_resources r))
    ∧ 0 ≤ par_cached r ≤ par_success r
    ∧ (length (par_resources r) ≤ length resources)%nat
    ∧ Forall (fun res =>
                ∃ resource,
                  In resource resources
                  ∧ result_of_resource tutorial_dir res resource)
             (par_resources r)
    ∧ (length (w_requests w')
       ≤ length (w_requests w) + length (par_resources r))%nat.
Proof.
  intros Hperm. unfold download_page_resources.
  unfold bind at 1.
  destruct (prepare_tasks_spec tutorial_dir resources [] (w, cm))
    as (tasks & -> & Hlen & Hfrom).
  rewrite app_nil_l.
  destruct tasks as [|task tasks].
  { exists (mkParallelResult [] 0 0 0), w, cm.
    unfold ret. simpl. split_and!; try done; lia. }
  set (all_tasks := task :: tasks) in *.
  unfold download_batch, bind.
  destruct (run_tasks_effects (completion_order all_tasks) true w cm)
    as (results & w' & cm' & -> & Htags & Hcached & Hreq).
  assert (length results = length all_tasks) as Hn.
  { apply (f_equal length) in Htags. rewrite !length_map in Htags.
    rewrite Htags. apply Permutation_length, Hperm. }
  pose proof (count_results_le res_cached res_success results Hcached) as Hle.
  eexists _, w', cm'. unfold ret. split; [reflexivity|]. simpl.
  split_and!.
  - apply count_results_split.
  - lia.
  - lia.
  - lia.
  - apply List.Forall_forall. intros res Hres.
    assert (In (result_task res) (map task_tag all_tasks)) as Hin.
    { eapply Permutation_in; [apply Permutation_map, Hperm|].
      rewrite <- Htags. by apply in_map. }
    apply in_map_iff in Hin as (t & Ht & Hin).
    rewrite List.Forall_forall in Hfrom.
    destruct (Hfrom t Hin) as (resource & Hres_in & ->).
    exists resource. split; [done|].
    unfold result_task, task_tag in Ht. simpl in Ht. by simplify_eq.
  - rewrite (Permutation_length (Hperm all_tasks)) in Hreq.
    rewrite Hn. exact Hreq.
Qed.

Variable B : Browser.
Variable response_text : bytes → string.
Variable anchors_of : string → list string.

End DownloadMore.


(** ** DeepCopernicusScraper: file information *)

Lemma prefix_app_l (a b s : string) :
  String.prefix (a +:+ b) s = true → String.prefix a s = true.
Proof.
  revert s. induction a as [|c a IH]; intros s; [by destruct s|].
  destruct s as [|c' s]; simpl; [done|].
  destruct (ascii_dec c c'); [apply IH|done].
Qed.

(** A text that holds a string holds every beginning of it. *)
Lemma str_contains_app_l (a b s : string) :
  str_contains (a +:+ b) s = true → str_contains a s = true.
Proof.
  induction s as [|c s IH]; cbn [str_contains]; rewrite !orb_true_iff.
  - intros [H|H]; [|done]. left. by eapply prefix_app_l.
  - intros [H|H]; [left; by eapply prefix_app_l|right; by apply IH].
Qed.

Section FileInformationFacts.
Variable E : Env.
Variable url_path : string → string.
Variable head_request : string → option (string * string).
Variable disposition_filename : string → option string.

Lemma find_extension (name ext : string) :
  List.find (fun ext => str_contains ext name) target_extensions = Some ext →
  In ext reported_extensions.
Proof.
  unfold target_extensions. cbn [List.find].
  repeat match goal with
         | |- (if ?c then _ else _) = _ → _ => destruct c eqn:?
         end.
  all: intros [= <-].
  all: try (unfold reported_extensions; simpl; tauto).
  all: match goal with
       | H : str_contains ".tar.gz" _ = true |- _ =>
           apply (str_contains_app_l ".tar" ".gz") in H
       | H : str_contains ".hdf5" _ = true |- _ =>
           apply (str_contains_app_l ".hdf" "5") in H
       | H : str_contains ".grib2" _ = true |- _ =>
           apply (str_contains_app_l ".grib" "2") in H
       end; congruence.
Qed.

(** X10. The extension [extract_file_info] reports, when it reports one,
    is one of nine: of the twelve target extensions, [.tar.gz], [.hdf5]
    and [.grib2] are never reported, since the search through the list
    stops at [.tar], [.hdf] and [.grib], which every name that holds one
    of them holds too; what the content type adds is among the nine.  The
    locator of the result is the one given and the link text is cut to
    100 characters. *)
Theorem extract_file_info_extension (url link_text : string) :
  let info := extract_file_info E url_path head_request disposition_filename
                                url link_text in
  match fi_extension info with
  | Some ext => In ext reported_extensions ∧ In ext target_extensions
  | None => True
  end
  ∧ fi_url info = url
  ∧ (String.length (fi_link_text info) ≤ 100)%nat.
Proof.
  assert (∀ n s, (String.length (String.substring 0 n s) ≤ n)%nat) as Hcut.
  { induction n as [|n IH]; intros [|c s]; simpl; try lia.
    specialize (IH s). lia. }
  assert (∀ ext, In ext reported_extensions → In ext target_extensions) as Hsub.
  { unfold reported_extensions, target_extensions. simpl. intros ext H.
    repeat destruct H as [<-|H]; tauto. }
  unfold extract_file_info.
  set (filename := if String.eqb _ "" || _ then _ else _).
  destruct (List.find _ target_extensions) as [ext|] eqn:Hfind.
  - simpl. apply find_extension in Hfind.
    split_and!; [exact Hfind|exact (Hsub _ Hfind)|done|apply Hcut].
  - destruct (str_contains "download" (str_lower url));
      [|simpl; split_and!; [done..|apply Hcut]].
    destruct (head_request url) as [[content_type content_disposition]|];
      [|simpl; split_and!; [done..|apply Hcut]].
    simpl. split_and!; [|done|apply Hcut].
    unfold extension_of_content_type.
    repeat case_match; simplify_eq; try done.
    all: unfold reported_extensions, target_extensions; simpl; tauto.
Qed.
End FileInformationFacts.

(** ** The bookkeeping of a session *)

Section BookkeepingFacts.
Context {Resource : Type}.
Variable url_of : Resource → string.

(** What the loop adds to [unique_resources]. *)
Lemma unique_by_url_spec all_resources :
  ∀ seen_urls unique_resources,
    ∃ kept,
      unique_by_url url_of all_resources seen_urls unique_resources
      = unique_resources ++ kept
      ∧ kept `sublist_of` all_resources
      ∧ NoDup (map url_of kept)
      ∧ (∀ r, r ∈ kept → url_of r ∉ seen_urls)
      ∧ (∀ r, r ∈ all_resources →
              url_of r ∈ seen_urls ∨ url_of r ∈ map url_of kept)
      ∧ (NoDup (map url_of all_resources) →
         (∀ r, r ∈ all_resources → url_of r ∉ seen_urls) →
         kept = all_resources).
Proof.
  induction all_resources as [|resource rest IH]; intros seen acc; simpl.
  - exists []. rewrite app_nil_r. split_and!; try done.
    + constructor.
    + intros r Hr. by apply elem_of_nil in Hr.
    + intros r Hr. by apply elem_of_nil in Hr.
  - case_bool_decide as Hnew.
    + destruct (IH ({[url_of resource]} ∪ seen) (acc ++ [resource]))
        as (kept & -> & Hsub & Hnd & Hfresh & Hall & Hid).
      exists (resource :: kept). rewrite <- app_assoc. split_and!.
      * done.
      * by apply sublist_skip.
      * simpl. apply NoDup_cons. split; [|done].
        intros Hin. apply list_elem_of_fmap in Hin as (r & Heq & Hr).
        apply (Hfresh r Hr). rewrite <- Heq. set_solver.
      * intros r [->|Hr]%elem_of_cons; [done|].
        specialize (Hfresh r Hr). set_solver.
      * intros r [->|Hr]%elem_of_cons.
        -- right. simpl. set_solver.
        -- destruct (Hall r Hr) as [Hin|Hin].
           ++ apply elem_of_union in Hin as [Hin%elem_of_singleton|Hin];
                [|by left].
              right. simpl. rewrite Hin. set_solver.
           ++ right. simpl. set_solver.
      * intros [Hhead Hnd']%NoDup_cons Hall'. f_equal. apply Hid; [done|].
        intros r Hr. apply not_elem_of_union. split.
        -- intros Heq%elem_of_singleton. apply Hhead. rewrite <- Heq.
           by apply (list_elem_of_fmap_2 url_of).
        -- apply Hall'. by right.
    + destruct (IH seen acc) as (kept & -> & Hsub & Hnd & Hfresh & Hall & Hid).
      exists kept. split_and!; try done.
      * by apply sublist_cons.
      * intros r [->|Hr]%elem_of_cons; [|by apply Hall].
        by left.
      * intros _ Hall'. exfalso. apply (Hall' resource); [by left|done].
Qed.

(** X11. The loop that removes duplicates, in
    [scrape_copernicus_resources] and in [test_specific_tutorials]: no
    two resources of the result have the same locator; the result is the
    list given with some resources left out, in the same order; every
    locator of the list given is the locator of a resource of the result;
    and a list without repeated locators is returned as it is. *)
Theorem unique_by_url_dedup (all_resources : list Resource) :
  let unique_resources := unique_by_url url_of all_resources ∅ [] in
  NoDup (map url_of unique_resources)
  ∧ unique_resources `sublist_of` all_resources
  ∧ (∀ r, r ∈ all_resources → url_of r ∈ map url_of unique_resources)
  ∧ (NoDup (map url_of all_resources) → unique_resources = all_resources).
Proof.
  destruct (unique_by_url_spec all_resources ∅ [])
    as (kept & Hrun & Hsub & Hnd & _ & Hall & Hid).
  simpl. rewrite Hrun. simpl. split_and!; try done.
  - intros r Hr. destruct (Hall r Hr) as [Hin|Hin]; [set_solver|done].
  - intros Hnd'. apply Hid; [done|]. set_solver.
Qed.

Context `{Countable K}.
Variable key : Resource → K.

Lemma count_key_nonneg k resources : 0 ≤ count_key key k resources.
Proof. unfold count_key. lia. Qed.

Lemma count_key_cons k resource rest :
  count_key key k (resource :: rest)
  = (if bool_decide (key resource = k) then 1 else 0) + count_key key k rest.
Proof. unfold count_key. simpl. case_bool_decide; simpl; lia. Qed.

(** The count stored for a key grows by the number of its resources. *)
Lemma tally_lookup resources :
  ∀ counts k,
    tally key resources counts !! k
    = match counts !! k with
      | Some count => Some (count + count_key key k resources)
      | None => if count_key key k resources =? 0 then None
                else Some (count_key key k resources)
      end.
Proof.
  induction resources as [|resource rest IH]; intros counts k.
  - simpl. unfold count_key. simpl. destruct (counts !! k); [f_equal; lia|done].
  - cbn [tally]. rewrite IH, count_key_cons.
    pose proof (count_key_nonneg k rest).
    case_bool_decide as Hk.
    + subst k. rewrite lookup_insert_eq.
      destruct (counts !! key resource); simpl.
      * f_equal; lia.
      * destruct (Z.eqb_spec (1 + count_key key (key resource) rest) 0); [lia|].
        f_equal; lia.
    + rewrite lookup_insert_ne by done.
      destruct (counts !! k); [f_equal; lia|]. done.
Qed.

Lemma tally_total_insert (counts : gmap K Z) k :
  tally_total (<[k := default 0 (counts !! k) + 1]> counts)
  = tally_total counts + 1.
Proof.
  unfold tally_total.
  assert (∀ (j1 j2 : K) (z1 z2 y : Z), z1 + (z2 + y) = z2 + (z1 + y)) as Hcomm
    by (intros; lia).
  destruct (counts !! k) as [count|] eqn:Hk; simpl.
  - rewrite <- (insert_delete_id counts k count Hk) at 2.
    rewrite <- (insert_delete_eq counts).
    rewrite !map_fold_insert_L; try (by rewrite ?lookup_delete_eq); try done.
    all: try lia.
    all: intros; apply Hcomm; done.
  - rewrite map_fold_insert_L; [lia| |done]. intros. by apply Hcomm.
Qed.

Lemma tally_total_spec resources :
  ∀ counts,
    tally_total (tally key resources counts)
    = tally_total counts + Z.of_nat (length resources).
Proof.
  induction resources as [|resource rest IH]; intros counts; simpl; [lia|].
  rewrite IH, tally_total_insert. lia.
Qed.

(** X12. The tallies by extension and by source (and by type, in
    [test_specific_tutorials]): a key is in the dictionary exactly when a
    resource has it, its count is the number of the resources that have
    it, and the counts add up to the number of resources. *)
Theorem tally_counts (resources : list Resource) :
  (∀ k, tally key resources ∅ !! k
        = if count_key key k resources =? 0 then None
          else Some (count_key key k resources))
  ∧ tally_total (tally key resources ∅) = Z.of_nat (length resources).
Proof.
  split.
  - intros k. by rewrite tally_lookup, lookup_empty.
  - rewrite tally_total_spec. unfold tally_total. by rewrite map_fold_empty.
Qed.
End BookkeepingFacts.

Section ScrapeSessionFacts.
Variables (urljoin : string → string → string) (netloc : string → string).
Variable deep_get : string → option (DeepPage FileInfo).

(** The crawls from the start locators, one after the other on the same
    scraper: they return, and together they visit no page twice. *)
Lemma crawl_each_spec urls :
  ∀ all_resources s,
    ∃ res s',
      (∀ fuel, (crawl_fuel (max_depth s) 0 ≤ fuel)%nat →
               crawl_each urljoin netloc deep_get fuel urls all_resources s
               = Some (res, s'))
      ∧ deep_grows (session_visit netloc urls (max_depth s)) s s'.
Proof.
  induction urls as [|url rest IH]; intros acc s.
  - exists acc, s. split; [done|]. apply deep_grows_refl.
  - destruct (deep_crawl_returns urljoin netloc deep_get
                (crawl_fuel (max_depth s) 0) url 0 s (le_n _))
      as [[r s1] Hrun].
    pose proof (deep_crawl_grows urljoin netloc deep_get _ _ _ _ _ _ Hrun)
      as Hgrow1.
    assert (max_depth s1 = max_depth s) as Hmax by apply Hgrow1.
    destruct (IH (acc ++ r) s1) as (res & s' & Hrest & Hgrow2).
    rewrite Hmax in Hrest, Hgrow2.
    exists res, s'. split.
    + intros fuel Hfuel. simpl.
      rewrite (deep_crawl_mono urljoin netloc deep_get _ fuel _ _ _ _ Hfuel Hrun).
      by apply Hrest.
    + eapply deep_grows_trans.
      * eapply deep_grows_weaken; [|exact Hgrow1].
        intros e [Hdom Hdepth]. split; [done|]. exists url. split; [by left|done].
      * eapply deep_grows_weaken; [|exact Hgrow2].
        intros e [Hdepth (start & Hin & Hdom)]. split; [done|].
        exists start. split; [by right|done].
Qed.

(** X13. A session of the deep scraper.  [scrape_copernicus_resources]
    returns, on any web: fuel beyond the maximum depth is never
    exhausted.  The six crawls share the visited set, so that over the
    whole session no locator gets past the guard of [deep_crawl] twice,
    and none that was visited before: the log of the visits holds every
    locator once.  Every page visited is on the domain of a start
    locator, at a depth up to the maximum.  In the result no two
    resources have the same locator, [total_found] is their number, and
    the counts by extension, as the counts by source, add up to it.
    Requests are not counted here: what [find_github_resources] and
    [extract_file_info] request while a page is gone through is part of
    [page_found], which is given with the page. *)
Theorem scrape_session (self : DeepCopernicusScraper) :
  ∃ results self',
    (∀ fuel, (crawl_fuel (max_depth self) 0 ≤ fuel)%nat →
             scrape_copernicus_resources urljoin netloc deep_get fuel self
             = Some (results, self'))
    ∧ NoDup (map fi_url (resources results))
    ∧ total_found results = Z.of_nat (length (resources results))
    ∧ tally_total (by_extension results) = total_found results
    ∧ tally_total (by_source results) = total_found results
    ∧ max_depth self' = max_depth self
    ∧ ∃ new,
        crawl_log self' = new ++ crawl_log self
        ∧ visited_urls self' = list_to_set (map snd new) ∪ visited_urls self
        ∧ NoDup (map snd new)
        ∧ (∀ u, u ∈ map snd new → u ∉ visited_urls self)
        ∧ Forall (session_visit netloc start_urls (max_depth self)) new.
Proof.
  destruct (crawl_each_spec start_urls [] self)
    as (all_resources & self' & Hrun & Hmax & new & Hlog & Hvis & Hnd & Hnew & Hall).
  destruct (unique_by_url_spec fi_url all_resources ∅ [])
    as (kept & Hkept & _ & Hndk & _).
  rewrite omap_deep_visit_of in *.
  eexists _, self'. split_and!.
  - intros fuel Hfuel. unfold scrape_copernicus_resources.
    rewrite (Hrun fuel Hfuel). reflexivity.
  - simpl. rewrite Hkept. exact Hndk.
  - done.
  - simpl. rewrite tally_total_spec. unfold tally_total.
    rewrite map_fold_empty. lia.
  - simpl. rewrite tally_total_spec. unfold tally_total.
    rewrite map_fold_empty. lia.
  - done.
  - by exists new.
Qed.
End ScrapeSessionFacts.


(** ** DeepCopernicusScraper.download_resources *)

Section DownloadResourcesFacts.
Variable E : Env.
Variable is_word : ascii → bool.

Lemma absent_file fs p : path_exists fs p = false → files fs !! p = None.
Proof.
  unfold path_exists, is_file. intros [Hf _]%orb_false_elim.
  apply bool_decide_eq_false in Hf.
  destruct (files fs !! p) eqn:Hp; [destruct Hf; eauto|done].
Qed.

Lemma write_file_grows fs p data o fs' :
  files fs !! p = None → write_file fs p data = (o, fs') →
  files fs ⊆ files fs'.
Proof.
  intros Hp. unfold write_file.
  destruct (open_for_write fs p); intros [= <- <-]; [|done].
  by apply insert_subseteq.
Qed.

(** One resource: an entry for it, whatever happens; no file that was
    there is touched; at most one GET, none for a skipped resource. *)
Lemma download_resource_spec output_path i resource w :
  ∃ r w',
    download_resource E is_word output_path i resource (w, tt)
    = (Return r, (w', tt))
    ∧ rd_resource r = resource
    ∧ files (w_fs w) ⊆ files (w_fs w')
    ∧ w_clock w' = w_clock w
    ∧ (length (w_requests w')
       = length (w_requests w) + (if is_skipped r then 0 else 1))%nat
    ∧ success_on_disk (w_fs w') r.
Proof.
  unfold download_resource, try_except.
  set (filepath := path_div output_path (safe_filename_of is_word i resource)).
  unfold bind at 1. unfold fs_test at 1. cbn [fst snd].
  destruct (path_exists (w_fs w) filepath) eqn:Hex.
  { eexists _, w. unfold ret. split; [reflexivity|]. simpl.
    split_and!; try done; lia. }
  apply absent_file in Hex.
  unfold session_get, lift_dl, raise_for_status, total_size_of. monad.
  destruct (http_get E _ _) as [msg|response]; simpl.
  { eexists _, _. split; [reflexivity|]. simpl. split_and!; try done; lia. }
  destruct ((400 <=? status_code response) && (status_code response <? 600));
    simpl.
  { eexists _, _. split; [reflexivity|]. simpl. split_and!; try done; lia. }
  destruct (content_length response); simpl.
  3: { eexists _, _. split; [reflexivity|]. simpl. split_and!; try done; lia. }
  all: destruct (write_file (w_fs w) filepath []) as [[[]|e] fs1] eqn:Hw; simpl.
  all: pose proof (write_file_grows _ _ _ _ _ Hex Hw) as Hsub.
  all: try (eexists _, _; split; [reflexivity|]; simpl;
            split_and!; try done; lia).
  all: apply write_file_return in Hw as ->.
  all: destruct (stream_error response); simpl.
  all: eexists _, _; (split; [reflexivity|]); simpl.
  all: assert (files (w_fs w)
               ⊆ <[filepath := body_bytes response]>
                   (<[filepath := []]> (files (w_fs w)))) as Hkeep
    by (rewrite insert_insert_eq; by apply insert_subseteq).
  all: split_and!; try done; try lia.
  all: exists filepath, (body_bytes response).
  all: split_and!; try done; apply lookup_insert_eq.
Qed.

Lemma success_on_disk_mono fs fs' r :
  files fs ⊆ files fs' → success_on_disk fs r → success_on_disk fs' r.
Proof.
  unfold success_on_disk. intros Hsub. destruct (rd_status r); try done.
  intros (p & data & Hp & Hfile & Hsize). exists p, data.
  split_and!; try done. by eapply lookup_weaken.
Qed.

Lemma download_each_resource_spec output_path resources :
  ∀ i download_results w,
    ∃ new w',
      download_each_resource E is_word output_path i resources download_results
                             (w, tt)
      = (Return (download_results ++ new), (w', tt))
      ∧ map rd_resource new = resources
      ∧ files (w_fs w) ⊆ files (w_fs w')
      ∧ w_clock w' = w_clock w
      ∧ (length (w_requests w') + length (List.filter is_skipped new)
         = length (w_requests w) + length resources)%nat
      ∧ Forall (success_on_disk (w_fs w')) new.
Proof.
  induction resources as [|resource rest IH]; intros i acc w.
  - exists [], w. simpl. unfold ret. rewrite app_nil_r.
    split_and!; try done; lia.
  - cbn [download_each_resource]. unfold bind.
    destruct (download_resource_spec output_path i resource w)
      as (r & w1 & -> & Hres & Hsub & Hclock & Hreq & Hdisk).
    destruct (IH (i + 1) (acc ++ [r]) w1)
      as (new & w' & -> & Hmap & Hsub' & Hclock' & Hreq' & Hall).
    exists (r :: new), w'. rewrite <- app_assoc. split_and!.
    + done.
    + simpl. by rewrite Hres, Hmap.
    + by etrans.
    + congruence.
    + simpl. destruct (is_skipped r); simpl; lia.
    + constructor; [|done]. by eapply success_on_disk_mono.
Qed.

End DownloadResourcesFacts.


(** ** Numbers in names *)

Lemma list_ascii_of_string_app (a b : string) :
  list_ascii_of_string (a +:+ b) = list_ascii_of_string a ++ list_ascii_of_string b.
Proof. induction a as [|c a IH]; [done|]. simpl. by rewrite IH. Qed.

Lemma string_of_uint_digits (d : Decimal.uint) :
  all_digits (NilEmpty.string_of_uint d) = true.
Proof. unfold all_digits. induction d; simpl; auto. Qed.

(** The decimal form of a natural number holds digits only. *)
Lemma Z_to_string_digits (z : Z) : 0 ≤ z → all_digits (Z_to_string z) = true.
Proof.
  intros Hz. unfold Z_to_string, NilZero.string_of_int.
  destruct z as [|p|p]; [done| |lia]. simpl.
  unfold NilZero.string_of_uint.
  destruct (Pos.to_uint p) eqn:Hp; [done|..]; rewrite <- Hp;
    apply string_of_uint_digits.
Qed.

Lemma all_digits_without (c : ascii) (s : string) :
  is_digit c = false → all_digits s = true → str_contains (String c "") s = false.
Proof.
  intros Hc Hs. destruct (str_contains (String c "") s) eqn:Hin; [|done].
  apply str_contains_char in Hin. unfold all_digits in Hs.
  rewrite forallb_forall in Hs. apply Hs in Hin. congruence.
Qed.

Lemma str_contains_char_app (c : ascii) (a b : string) :
  str_contains (String c "") (a +:+ b)
  = str_contains (String c "") a || str_contains (String c "") b.
Proof.
  apply eq_true_iff_eq. rewrite orb_true_iff, !str_contains_char.
  rewrite list_ascii_of_string_app, in_app_iff. done.
Qed.

Section SafeNames.
Variable is_word : ascii → bool.

Lemma safe_name_chars (c : ascii) (filename : string) :
  is_word c = false → c ≠ "-"%char → c ≠ "_"%char → c ≠ "."%char →
  str_contains (String c "") (safe_name is_word filename) = false.
Proof.
  intros Hw H1 H2 H3.
  destruct (str_contains _ _) eqn:Hin; [|done].
  apply str_contains_char in Hin. exfalso.
  unfold safe_name in Hin.
  induction filename as [|c' s IH]; cbn [str_map list_ascii_of_string In] in Hin;
    [done|].
  destruct Hin as [Heq|Hin]; [|by apply IH].
  destruct (is_word c' || existsb (Ascii.eqb c') ["-"; "_"; "."]%char) eqn:Hb;
    [|congruence].
  subst c'. rewrite Hw in Hb. simpl in Hb.
  apply Ascii.eqb_neq in H1, H2, H3. by rewrite H1, H2, H3 in Hb.
Qed.

(** X15. The name under which [download_resources] stores a resource is
    not empty and holds no slash, whatever the name and the locator of
    the resource are, as long as its extension holds none: the file is a
    direct child of the output directory. *)
Theorem safe_filename_in_folder (i : Z) (resource : FileInfo) :
  is_word "/" = false → 0 ≤ i →
  (∀ extension, fi_extension resource = Some extension →
                str_contains "/" extension = false) →
  safe_filename_of is_word i resource ≠ ""
  ∧ str_contains "/" (safe_filename_of is_word i resource) = false.
Proof.
  intros Hslash Hi Hext. unfold safe_filename_of.
  set (name := if String.eqb (safe_name is_word (fi_filename resource)) ""
               then "file_" +:+ Z_to_string i
               else safe_name is_word (fi_filename resource)).
  assert (name ≠ "" ∧ str_contains "/" name = false) as [Hne Hno].
  { unfold name.
    destruct (String.eqb_spec (safe_name is_word (fi_filename resource)) "").
    - split; [done|]. rewrite str_contains_char_app.
      rewrite (all_digits_without "/" (Z_to_string i));
        [done|done|by apply Z_to_string_digits].
    - split; [done|]. by apply safe_name_chars. }
  destruct (fi_extension resource) as [extension|]; [|done].
  destruct (negb _ && negb _); [|done].
  split.
  - destruct name; [done|]. done.
  - rewrite str_contains_char_app, Hno. simpl. by apply Hext.
Qed.
End SafeNames.

(** ** extract_tutorial_links *)

Lemma parse_Z_to_string (z : Z) : 0 ≤ z → parse_digits (Z_to_string z) = Some z.
Proof.
  intros Hz. destruct z as [|p|p]; [done| |lia].
  unfold parse_digits, Z_to_string. simpl.
  unfold NilZero.string_of_uint.
  assert (NilEmpty.uint_of_string (NilEmpty.string_of_uint (Pos.to_uint p))
          = Some (Pos.to_uint p)) as Husu by apply NilEmpty.usu.
  pose proof (DecimalZ.of_to (Z.pos p)) as Hof. simpl in Hof.
  destruct (Pos.to_uint p) eqn:Hp; simpl in *; [done|..];
    rewrite Husu; simpl; by f_equal.
Qed.

Lemma parse_digits_zero (s : string) :
  parse_digits (String "0" s) = parse_digits s.
Proof.
  unfold parse_digits. simpl. by destruct (NilEmpty.uint_of_string s).
Qed.

Lemma parse_format_02d (n : Z) : 0 ≤ n → parse_digits (format_02d n) = Some n.
Proof.
  intros Hn. unfold format_02d. destruct (n <? 10).
  - change ("0" +:+ Z_to_string n) with (String "0" (Z_to_string n)).
    rewrite parse_digits_zero. by apply parse_Z_to_string.
  - by apply parse_Z_to_string.
Qed.

Lemma format_02d_digits (n : Z) : 0 ≤ n → all_digits (format_02d n) = true.
Proof.
  intros Hn. unfold format_02d. destruct (n <? 10).
  - change ("0" +:+ Z_to_string n) with (String "0" (Z_to_string n)).
    unfold all_digits. simpl. by apply Z_to_string_digits.
  - by apply Z_to_string_digits.
Qed.

(** Two names that start with digits and an underscore start with the
    same digits when they are equal. *)
Lemma digits_before_underscore (a b x y : string) :
  all_digits a = true → all_digits b = true →
  a +:+ "_" +:+ x = b +:+ "_" +:+ y → a = b.
Proof.
  revert b. unfold all_digits.
  induction a as [|c a IH]; intros [|c' b]; simpl; try done.
  - intros _ [Hc _]%andb_true_iff [= <- _]. done.
  - intros [Hc _]%andb_true_iff _ [= -> _]. done.
  - intros [_ Ha]%andb_true_iff [_ Hb]%andb_true_iff [= -> Heq].
    f_equal. by apply IH.
Qed.

Lemma folder_number (a b : Z) (x y : string) :
  0 ≤ a → 0 ≤ b →
  format_02d a +:+ "_" +:+ x = format_02d b +:+ "_" +:+ y → a = b.
Proof.
  intros Ha Hb Heq.
  apply digits_before_underscore in Heq; [|by apply format_02d_digits..].
  apply (f_equal parse_digits) in Heq.
  rewrite !parse_format_02d in Heq by done. by simplify_eq.
Qed.

Lemma numbered_from_snoc (first : Z) (n : nat) :
  numbered_from first (S n) = numbered_from first n ++ [first + Z.of_nat n].
Proof. unfold numbered_from. by rewrite seq_S, map_app. Qed.

(** What the loop keeps true of the tutorials collected so far. *)
Lemma collect_tutorials_spec elements :
  ∀ tutorials tutorial_id,
    tutorial_id = 1 + Z.of_nat (length tutorials) →
    map tl_id tutorials = numbered_from 1 (length tutorials) →
    NoDup (map tl_url tutorials) →
    Forall (fun t => String.prefix "http" (tl_url t) = true
                     ∧ tl_folder t = format_02d (tl_id t) +:+ "_" +:+ tl_title t)
           tutorials →
    let result := collect_tutorials elements tutorials tutorial_id in
    map tl_id result = numbered_from 1 (length result)
    ∧ NoDup (map tl_url result)
    ∧ Forall (fun t => String.prefix "http" (tl_url t) = true
                       ∧ tl_folder t = format_02d (tl_id t) +:+ "_" +:+ tl_title t)
             result
    ∧ (length result ≤ length tutorials + length elements)%nat.
Proof.
  induction elements as [|elem rest IH]; intros tutorials next Hnext Hids Hnd Hall.
  - simpl. split_and!; try done. lia.
  - cbn [collect_tutorials].
    assert (∀ ts, ts = tutorials →
              let result := collect_tutorials rest ts next in
              map tl_id result = numbered_from 1 (length result)
              ∧ NoDup (map tl_url result)
              ∧ Forall (fun t => String.prefix "http" (tl_url t) = true
                                 ∧ tl_folder t
                                   = format_02d (tl_id t) +:+ "_" +:+ tl_title t)
                       result
              ∧ (length result ≤ length tutorials + length (elem :: rest))%nat)
      as Hskip.
    { intros ts ->. destruct (IH tutorials next Hnext Hids Hnd Hall)
        as (H1 & H2 & H3 & H4). split_and!; try done. simpl. lia. }
    destruct (elem_link elem) as [link|]; [|by apply Hskip].
    destruct (String.eqb link ""); [by apply Hskip|].
    set (full := if negb (String.prefix "http" link) then site_root +:+ link
                 else link).
    set (title := sanitize_filename _).
    destruct (existsb _ tutorials) eqn:Hseen; simpl; [by apply Hskip|].
    set (added := mkTutorial next title full (format_02d next +:+ "_" +:+ title)).
    destruct (IH (tutorials ++ [added]) (next + 1)) as (H1 & H2 & H3 & H4).
    + rewrite length_app. simpl. lia.
    + rewrite map_app, length_app, Nat.add_1_r, numbered_from_snoc, Hids.
      simpl. by rewrite Hnext.
    + rewrite map_app. apply NoDup_app. split_and!; [done| |apply NoDup_singleton].
      intros u Hu ->%list_elem_of_singleton. simpl in Hu.
      apply list_elem_of_fmap in Hu as (t & Heq & Ht).
      assert (existsb (fun t => String.eqb (tl_url t) full) tutorials = true)
        as Hex; [|congruence].
      apply existsb_exists. exists t. split; [by apply list_elem_of_In|].
      rewrite Heq. apply String.eqb_refl.
    + apply Forall_app. split; [done|]. constructor; [|done]. simpl.
      split; [|done]. unfold full.
      destruct (String.prefix "http" link) eqn:Hp; simpl; [done|].
      by destruct link.
    + split_and!; try done. rewrite length_app in H4. simpl in *. lia.
Qed.

(** X16. The tutorials [extract_tutorial_links] returns are numbered 1, 2,
    3, ... in the order in which they were found; no two of them have the
    same locator, and no two the same folder, whatever their titles are;
    every locator starts with [http]; and there are no more tutorials than
    elements found. *)
Theorem extract_tutorial_links_distinct (elements : list Element) :
  let tutorials := extract_tutorial_links elements in
  map tl_id tutorials = numbered_from 1 (length tutorials)
  ∧ NoDup (map tl_url tutorials)
  ∧ NoDup (map tl_folder tutorials)
  ∧ Forall (fun t => String.prefix "http" (tl_url t) = true) tutorials
  ∧ (length tutorials ≤ length elements)%nat.
Proof.
  destruct (collect_tutorials_spec elements [] 1) as (Hids & Hnd & Hall & Hlen);
    [done|done|constructor|constructor|].
  fold (extract_tutorial_links elements) in *. simpl.
  set (tutorials := extract_tutorial_links elements) in *.
  assert (NoDup (map tl_id tutorials)) as Hndids.
  { rewrite Hids. unfold numbered_from. apply NoDup_fmap_2; [|apply NoDup_seq].
    intros a b Hab. lia. }
  assert (Forall (fun t => 0 ≤ tl_id t) tutorials) as Hpos.
  { apply Forall_forall. intros t Ht.
    assert (tl_id t ∈ map tl_id tutorials) as Hin
      by (by apply (list_elem_of_fmap_2 tl_id)).
    rewrite Hids in Hin. unfold numbered_from in Hin.
    apply list_elem_of_fmap in Hin as (k & -> & _). lia. }
  split_and!; try done.
  - clear Hids Hlen Hnd. induction tutorials as [|t ts IH]; [constructor|].
    simpl in *. apply NoDup_cons in Hndids as [Hfresh Hndids].
    apply Forall_cons in Hall as [[_ Hfolder] Hall].
    apply Forall_cons in Hpos as [Ht Hpos].
    apply NoDup_cons. split; [|by apply IH].
    intros Hin. apply list_elem_of_fmap in Hin as (t' & Heq & Ht').
    apply Hfresh. rewrite Forall_forall in Hall, Hpos.
    destruct (Hall t' Ht') as [_ Hfolder'].
    rewrite Hfolder, Hfolder' in Heq.
    apply folder_number in Heq; [|done|by apply Hpos].
    rewrite Heq. by apply (list_elem_of_fmap_2 tl_id).
  - eapply Forall_impl; [exact Hall|]. by intros t [? _].
Qed.


(** ** The crawlers: sessions and results *)

Section LevelSessionFacts.
Context {Resource : Type}.
Variables (urljoin : string → string → string) (netloc : string → string).
Variable level_get : string → option (LevelPage Resource).
Variable list_of_set : list string → list string.

(** X17. The loop of [test_specific_tutorials] over its start locators
    returns, on any web.  The crawls share the visited set: over the
    whole loop no page is fetched twice, and none that was visited
    before; every visit, and every download button followed, is at a
    depth up to 2, and a sub-page link is followed only from a depth
    below 2 and only to the domain of the page it is on. *)
Theorem follow_each_session (urls : list string) (all_resources : list Resource)
    (s : MultiLevelCopernicusScraper) :
  (∀ xs x, x ∈ list_of_set xs → x ∈ xs) →
  ∃ res s',
    follow_each urljoin netloc level_get list_of_set urls all_resources s
    = Some (res, s')
    ∧ ∃ new,
        printed s' = new ++ printed s
        ∧ visited s' = list_to_set (omap event_visit new) ∪ visited s
        ∧ NoDup (omap event_visit new)
        ∧ (∀ u, u ∈ omap event_visit new → u ∉ visited s)
        ∧ Forall (event_within (same_domain netloc) 0 2) new.
Proof.
  intros Helem. revert all_resources s.
  induction urls as [|url rest IH]; intros acc s.
  - exists acc, s. split; [done|].
    apply (grows_refl event_visit (event_within (same_domain netloc) 0 2)).
  - simpl. unfold follow_tutorial_path.
    destruct (crawl_level_returns urljoin netloc level_get list_of_set
                (crawl_fuel 2 0) url 0 2 s (le_n _)) as [[r s1] Hrun].
    rewrite Hrun.
    apply (crawl_level_grows urljoin netloc level_get list_of_set
             (same_domain netloc)) in Hrun;
      [|intros page base_url; by apply find_tutorial_subpages_domain].
    destruct (IH (acc ++ r) s1) as (res & s' & -> & Hgrow).
    exists res, s'. split; [done|].
    exact (grows_trans event_visit _ _ _ _ _ _ _ Hrun Hgrow).
Qed.
End LevelSessionFacts.

Section DeepResults.
Context {Resource : Type}.
Variables (urljoin : string → string → string) (netloc : string → string).
Variable deep_get : string → option (DeepPage Resource).

Lemma deep_follow_found recurse url depth links :
  (∀ u d s r s',
     recurse u d s = Some (r, s') →
     ∃ new, crawl_log s' = new ++ crawl_log s
            ∧ r = flat_map (found_on deep_get) (rev new)) →
  ∀ found s r s',
    deep_follow Resource urljoin netloc recurse url depth links found s
    = Some (r, s') →
    ∃ new, crawl_log s' = new ++ crawl_log s
           ∧ r = found ++ flat_map (found_on deep_get) (rev new).
Proof.
  intros Hrec. induction links as [|link rest IH]; intros found s r s'; simpl.
  - intros [= <- <-]. exists []. by rewrite app_nil_r.
  - destruct (is_relevant link); [|by apply IH].
    destruct (negb _); [by apply IH|].
    case_bool_decide; [|by apply IH].
    destruct (recurse _ _ s) as [[sub s1]|] eqn:Hsub; [|done].
    intros Hrest. apply Hrec in Hsub as (new1 & Hlog1 & ->).
    apply IH in Hrest as (new2 & Hlog2 & ->).
    exists (new2 ++ new1). rewrite Hlog2, Hlog1. split; [by rewrite app_assoc|].
    by rewrite rev_app_distr, flat_map_app, app_assoc.
Qed.

(** X18. The resources [deep_crawl] returns are those found on the
    pages it visited in this call, page by page in the order of the
    visits: nothing is returned from a page that was not visited, and
    nothing found on a visited page is left out. *)
Theorem deep_crawl_results (fuel : nat) (url : string) (depth : Z)
    (s s' : DeepCopernicusScraper) (res : list Resource) :
  deep_crawl Resource urljoin netloc deep_get fuel url depth s = Some (res, s') →
  ∃ new,
    crawl_log s' = new ++ crawl_log s
    ∧ res = flat_map (found_on deep_get) (rev new).
Proof.
  revert url depth s s' res.
  induction fuel as [|fuel IH]; intros url depth s s' res; simpl; [done|].
  destruct (_ || _).
  { intros [= <- <-]. by exists []. }
  unfold found_on.
  destruct (deep_get url) as [page|] eqn:Hpage.
  - destruct (page_raised page).
    { intros [= <- <-]. exists [(depth, url)]. simpl. rewrite Hpage.
      by rewrite app_nil_r. }
    destruct (depth <? max_depth _).
    + intros Hfollow.
      apply (deep_follow_found (deep_crawl Resource urljoin netloc deep_get fuel))
        in Hfollow as (new & Hlog & ->).
      * exists (new ++ [(depth, url)]). rewrite Hlog. simpl.
        split; [by rewrite <- app_assoc|].
        rewrite rev_app_distr. simpl. by rewrite Hpage.
      * intros u d s0 r s0' Hsub. by apply IH in Hsub.
    + intros [= <- <-]. exists [(depth, url)]. simpl. rewrite Hpage.
      by rewrite app_nil_r.
  - intros [= <- <-]. exists [(depth, url)]. simpl. by rewrite Hpage.
Qed.
End DeepResults.

(** ** sanitize_filename: the names it leaves as they are *)

Section SanitizeFixed.
Implicit Types s : list ascii.

Lemma remove_forbidden_fixed s :
  Forall (fun c => is_forbidden c = false ∧ c ≠ " "%char) s →
  replace_spaces (remove_forbidden s) = s.
Proof.
  induction 1 as [|c s [Hf Hsp] _ IH]; [done|].
  unfold remove_forbidden, replace_spaces in *. simpl. rewrite Hf. simpl.
  rewrite IH. by destruct (Ascii.eqb_spec c " "%char).
Qed.

Lemma squeeze_underscores_fixed b s :
  double_underscore s = false →
  (b = true → starts_with_underscore s = false) →
  squeeze_underscores b s = s.
Proof.
  revert b. induction s as [|c s IH]; intros b Hd Hs; [done|].
  rewrite double_underscore_cons in Hd.
  apply orb_false_elim in Hd as [Hhead Hd]. simpl.
  destruct (is_underscore c) eqn:Hc.
  - destruct b; [by specialize (Hs eq_refl); simpl in Hs; congruence|].
    f_equal. apply IH; [done|]. intros _. by simpl in Hhead.
  - f_equal. by apply IH.
Qed.

Lemma lstrip_underscores_fixed s :
  starts_with_underscore s = false → lstrip_underscores s = s.
Proof. destruct s as [|c s]; simpl; [done|]. by intros ->. Qed.

Lemma ends_with_underscore_cons c s :
  s ≠ [] → ends_with_underscore (c :: s) = ends_with_underscore s.
Proof.
  unfold ends_with_underscore. simpl. intros Hs.
  destruct (rev s) eqn:Hrev; [|done].
  apply (f_equal (@rev ascii)) in Hrev. rewrite rev_involutive in Hrev. done.
Qed.

Lemma rstrip_underscores_fixed s :
  ends_with_underscore s = false → rstrip_underscores s = s.
Proof.
  induction s as [|c s IH]; [done|]. intros Hend. simpl.
  destruct s as [|c' s'].
  - simpl. unfold ends_with_underscore in Hend. simpl in Hend. by rewrite Hend.
  - rewrite ends_with_underscore_cons in Hend by done.
    by rewrite (IH Hend).
Qed.

(** The shape of what comes out of the strip. *)
Lemma strip_underscores_shape s :
  double_underscore s = false →
  double_underscore (strip_underscores s) = false
  ∧ starts_with_underscore (strip_underscores s) = false
  ∧ ends_with_underscore (strip_underscores s) = false.
Proof.
  intros Hd. unfold strip_underscores.
  destruct (lstrip_underscores_suffix s) as [k1 Hk1].
  destruct (rstrip_underscores_prefix (lstrip_underscores s)) as [k2 Hk2].
  split_and!.
  - rewrite Hk1 in Hd. apply double_underscore_app in Hd as [_ Hd].
    rewrite Hk2 in Hd. by apply double_underscore_app in Hd as [Hd _].
  - eapply starts_with_underscore_prefix; [by exists k2|].
    apply lstrip_underscores_head.
  - apply rstrip_underscores_last.
Qed.

(** A name of the shape that [sanitize_filename] aims at comes back as it
    is. *)
Lemma sanitize_chars_fixed s :
  Forall (fun c => is_forbidden c = false ∧ c ≠ " "%char) s →
  double_underscore s = false →
  starts_with_underscore s = false →
  ends_with_underscore s = false →
  (length s ≤ 50)%nat →
  sanitize_chars s = s.
Proof.
  intros Hclean Hd Hs He Hlen. unfold sanitize_chars, strip_underscores.
  rewrite remove_forbidden_fixed by done.
  rewrite squeeze_underscores_fixed by done.
  rewrite lstrip_underscores_fixed by done.
  rewrite rstrip_underscores_fixed by done.
  unfold cap_length. destruct (Nat.ltb_spec 50 (length s)); [lia|done].
Qed.

(** X19. Sanitizing a sanitized name again changes it exactly when the
    cap at 50 characters left an underscore at its end: the function is
    idempotent on every name whose result does not end with an
    underscore, as every result shorter than 50 characters, and on no
    other. *)
Theorem sanitize_filename_idempotent (filename : string) :
  let name := sanitize_filename filename in
  sanitize_filename name = name
  ↔ ends_with_underscore (list_ascii_of_string name) = false.
Proof.
  unfold sanitize_filename. rewrite !list_ascii_of_string_of_list_ascii. simpl.
  set (input := list_ascii_of_string filename).
  pose proof (sanitize_chars_sublist input) as Hsub.
  assert (Forall (fun c => is_forbidden c = false ∧ c ≠ " "%char)
                 (sanitize_chars input)) as Hclean.
  { eapply Forall_of_sublist; [exact Hsub|]. apply replace_spaces_clean. }
  set (squeezed := squeeze_underscores false
                     (replace_spaces (remove_forbidden input))).
  destruct (strip_underscores_shape squeezed) as (Hd & Hs & He).
  { apply (squeeze_underscores_shape false). }
  assert (sanitize_chars input = cap_length (strip_underscores squeezed)) as Hdef
    by done.
  destruct (cap_length_prefix (strip_underscores squeezed)) as [k Hk].
  assert (double_underscore (sanitize_chars input) = false) as Hd'.
  { rewrite Hdef. rewrite Hk in Hd. by apply double_underscore_app in Hd as [? _]. }
  assert (starts_with_underscore (sanitize_chars input) = false) as Hs'.
  { rewrite Hdef. eapply starts_with_underscore_prefix; [by exists k|done]. }
  pose proof (cap_length_bound (strip_underscores squeezed)) as Hlen.
  rewrite <- Hdef in Hlen.
  split.
  - intros Hfix. apply (f_equal list_ascii_of_string) in Hfix.
    rewrite !list_ascii_of_string_of_list_ascii in Hfix.
    rewrite <- Hfix at 1.
    unfold sanitize_chars at 1.
    rewrite remove_forbidden_fixed by done.
    rewrite squeeze_underscores_fixed by done.
    unfold cap_length.
    destruct (Nat.ltb_spec 50 (length (strip_underscores (sanitize_chars input))))
      as [Hlong|_]; [|apply rstrip_underscores_last].
    exfalso. unfold strip_underscores in Hlong.
    pose proof (prefix_length _ _
                  (rstrip_underscores_prefix
                     (lstrip_underscores (sanitize_chars input)))).
    pose proof (suffix_length _ _
                  (lstrip_underscores_suffix (sanitize_chars input))).
    lia.
  - intros Hend. f_equal. by apply sanitize_chars_fixed.
Qed.
End SanitizeFixed.


(** ** The cache at work: a download and the next one *)

Section CacheCompose.
Variable E : Env.

(** A successful [add_to_cache] puts the bytes of the source under the
    path it returns, when that path is no directory and not the index
    file. *)
Lemma add_to_cache_content url src w self p w1 self1 data :
  add_to_cache E url src (w, self) = (Return p, (w1, self1)) →
  files (w_fs w) !! src = Some data →
  is_dir (w_fs w) p = false → p ≠ index_file self →
  files (w_fs w1) !! p = Some data ∧ dirs (w_fs w1) = dirs (w_fs w).
Proof.
  intros Hadd Hsrc Hdir Hix.
  pose proof (add_to_cache_return E _ _ _ _ _ _ _ Hadd) as Hret.
  cbv zeta in Hret. destruct Hret as (-> & _).
  revert Hadd. unfold add_to_cache. monad.
  destruct (copy2 _ _ _) as [[[]|e] fs1] eqn:Hc; [|done]. monad.
  destruct (stat_size _ _) as [sz|e]; [|done]. monad.
  destruct (write_file _ _ _) as [[[]|e] fs2] eqn:Hw; [|done].
  intros [= <- <-]. simpl.
  apply write_file_return in Hw as ->.
  apply copy2_return in Hc as (data' & Hread & ->).
  unfold read_file in Hread. rewrite Hsrc in Hread. simplify_eq.
  unfold copy2_target. rewrite Hdir. simpl. split; [|done].
  rewrite lookup_insert_ne by (by intros Heq; apply Hix).
  apply lookup_insert_eq.
Qed.

(** The cache check keeps the settings of the manager. *)
Lemma is_cached_settings url w self o w' self' :
  is_cached E url (w, self) = (o, (w', self')) →
  cache_dir self' = cache_dir self ∧ expire_days self' = expire_days self.
Proof.
  pose proof (is_cached_cases E url w self) as Hcases.
  destruct (index self !! _get_cache_key E url) as [info|].
  - destruct (expired_at _ _ _); rewrite Hcases; [|by intros [= <- <- <-]].
    unfold bind.
    destruct (remove_cache E url (tick w, self)) as [[[]|e] [w1 self1]] eqn:Hr;
      apply remove_cache_spec in Hr as (_ & _ & Hd & He & _);
      by intros [= <- <- <-].
  - rewrite Hcases. by intros [= <- <- <-].
Qed.

Lemma lookup_cache_settings url w cm o w' x :
  lookup_cache E url true (w, Some cm) = (o, (w', x)) →
  ∃ cm', x = Some cm'
         ∧ cache_dir cm' = cache_dir cm ∧ expire_days cm' = expire_days cm.
Proof.
  unfold lookup_cache, bind, cache_call.
  destruct (is_cached E url (w, cm)) as [[hit|e] [w1 cm1]] eqn:Hc;
    apply is_cached_settings in Hc as [Hd He].
  - destruct hit.
    + destruct (get_cached_file E url (w1, cm1)) as [o2 [w2 cm2]] eqn:Hg.
      pose proof (get_cached_file_state E url (w1, cm1)) as Hs.
      rewrite Hg in Hs. simpl in Hs.
      destruct (is_cached E url (w1, cm1)) as [o3 [w3 cm3]] eqn:Hc2.
      simpl in Hs. apply is_cached_settings in Hc2 as [Hd2 He2]. simplify_eq.
      intros [= <- <- <-]. exists cm3. split_and!; [done|congruence..].
    + unfold ret. intros [= <- <- <-]. by exists cm1.
  - intros [= <- <- <-]. by exists cm1.
Qed.

(** X20. The cache at work.  A first download of a locator fetched the
    file and stored it in the cache without an error.  A second download
    of the same locator, while the entry is fresh, sends no GET: it
    copies the cached file, which holds the bytes the first download
    reported, to its own destination and reports a success served from
    the cache; when the copy raises it reports the failure, still without
    a GET.  The path of the cached file is taken not to be a directory
    nor the index file. *)
Theorem cached_redownload (url : string) (first second : path) (w w1 : World)
    (cm cm1 : CacheManager) (r1 : DownloadResult) :
  let cache_file :=
    path_div (cache_dir cm) (_get_cache_key E url +:+ "_" +:+ path_name first) in
  download_file E url first true (w, Some cm) = (Return r1, (w1, Some cm1)) →
  res_success r1 = true → res_cached r1 = false → res_error r1 = None →
  is_dir (w_fs w1) cache_file = false →
  cache_file ≠ index_file cm →
  datetime_now E (w_clock w1) - datetime_now E (pred (w_clock w1))
    ≤ timedelta_days (expire_days cm) →
  datetime_now E (S (w_clock w1)) - datetime_now E (pred (w_clock w1))
    ≤ timedelta_days (expire_days cm) →
  ∃ data r2 w2,
    files (w_fs w1) !! cache_file = Some data
    ∧ res_size r1 = Z.of_nat (length data)
    ∧ download_file E url second true (w1, Some cm1) = (Return r2, (w2, Some cm1))
    ∧ w_requests w2 = w_requests w1
    ∧ match fst (copy2 (w_fs w1) cache_file second) with
      | Return _ =>
          res_success r2 = true ∧ res_cached r2 = true ∧ res_error r2 = None
          ∧ files (w_fs w2) !! copy2_target (w_fs w1) cache_file second
            = Some data
      | Raise e =>
          res_success r2 = false ∧ res_cached r2 = false
          ∧ res_error r2 = Some (exn_str e) ∧ w_fs w2 = w_fs w1
      end.
Proof.
  intros cache_file Hfirst Hok Hfetched Hnoerr Hnodir Hnoix Hfresh1 Hfresh2.
  (* the first download *)
  unfold download_file in Hfirst.
  destruct (download_file_body E url first true _) as [[[]|e] [r' [w' x']]]
    eqn:Hbody; cycle 1.
  { injection Hfirst as <- _ _. done. }
  injection Hfirst as -> -> ->. revert Hbody. unfold download_file_body.
  unfold bind at 1. unfold in_body at 1.
  destruct (lookup_cache E url true (w, Some cm)) as [[[cached|]|e] [w0 x0]]
    eqn:Hlook; [| |done].
  { intros Hs. apply serve_from_cache_spec in Hs as (_ & _ & _ & [sz Hr]).
    rewrite Hr in Hfetched. done. }
  apply lookup_cache_settings in Hlook as (cm0 & -> & Hdir0 & Hdays0).
  unfold bind.
  destruct (fetch_to_file E url first _) as [[[]|e] [r2 [w2 x2]]] eqn:Hfetch;
    [|done].
  pose proof (fetch_to_file_frame E _ _ _ _ _ _ _ _ _ Hfetch)
    as (_ & _ & -> & _).
  apply fetch_to_file_spec in Hfetch as (_ & data & Hdata & ->).
  simpl in Hdata. unfold in_body, store_in_cache, cache_call, bind.
  destruct (add_to_cache E url first (w2, cm0)) as [[p|e] [w3 cm3]] eqn:Hadd;
    [|done].
  unfold ret. intros Hend.
  assert (r1 = set_size (set_success (mkResult url (path_str first) false false
                                               0 None) true)
                        (Z.of_nat (length data))
          ∧ w1 = w3 ∧ cm1 = cm3) as (-> & -> & ->) by (by simplify_eq).
  clear Hend.
  pose proof (add_to_cache_return E _ _ _ _ _ _ _ Hadd) as Hret.
  cbv zeta in Hret.
  destruct Hret as (Hp & Hdir1 & Hdays1 & [sz Hix1] & Hex & Hclock).
  rewrite Hdir0 in Hp. fold cache_file in Hp. subst p.
  assert (dirs (w_fs w3) = dirs (w_fs w2)) as Hdirs.
  { revert Hadd. unfold add_to_cache. monad.
    destruct (copy2 _ _ _) as [[[]|e] fs1] eqn:Hc; [|done]. monad.
    destruct (stat_size _ _) as [sz'|e]; [|done]. monad.
    destruct (write_file _ _ _) as [[[]|e] fs2] eqn:Hw; [|done].
    intros [= <- <-]. simpl.
    apply write_file_return in Hw as ->.
    by apply copy2_return in Hc as (data' & _ & ->). }
  destruct (add_to_cache_content _ _ _ _ _ _ _ _ Hadd Hdata) as [Hcontent _].
  { revert Hnodir. unfold is_dir. by rewrite Hdirs. }
  { unfold index_file. rewrite Hdir0. exact Hnoix. }
  exists data.
  (* the second download *)
  set (info := mkCacheInfo url (_get_cache_key E url +:+ "_" +:+ path_name first)
                           (path_name first) (datetime_now E (w_clock w2)) sz).
  assert (index cm3 !! _get_cache_key E url = Some info) as Hk
    by (rewrite Hix1; apply lookup_insert_eq).
  assert (path_div (cache_dir cm3) (info_filename info) = cache_file) as Hfile
    by (simpl; by rewrite Hdir1, Hdir0).
  rewrite Hclock in Hfresh1, Hfresh2. simpl in Hfresh1, Hfresh2.
  assert (lookup_cache E url true (w3, Some cm3)
          = (Return (Some cache_file), (tick (tick w3), Some cm3))) as Hhit.
  { rewrite <- Hfile. apply lookup_cache_hit; try done.
    - by rewrite Hfile.
    - simpl. rewrite Hclock, Hdays1, Hdays0. exact Hfresh1.
    - simpl. rewrite Hclock, Hdays1, Hdays0. exact Hfresh2. }
  unfold download_file, download_file_body.
  unfold bind at 1. unfold in_body at 1. rewrite Hhit.
  unfold serve_from_cache. monad. simpl.
  destruct (copy2 (w_fs w3) cache_file second) as [[[]|e] fs'] eqn:Hc; monad;
    simpl.
  - destruct (stat_size_exists fs' second) as [sz2 ->];
      [by eapply copy2_exists|].
    eexists _, _. split_and!; try done.
    apply copy2_return in Hc as (data' & Hread & ->).
    unfold read_file in Hread. rewrite Hcontent in Hread. simplify_eq.
    simpl. apply lookup_insert_eq.
  - eexists _, _. split_and!; try done.
    by apply copy2_raise in Hc as ->.
Qed.
End CacheCompose.


(** ** The theorems at concrete inputs *)

(** Equalities between closed terms, decided by evaluation. *)
Ltac by_evaluation :=
  lazymatch goal with
  | |- ?l = ?r => vm_cast_no_check (@eq_refl _ r)
  end.

(** C3 at a concrete input: [out/a.zip] is added to an empty cache and
    looked up right away. *)
Lemma cache_round_trip_witness :
  is_cached (demo_env reply_ok) url_a (snd after_add)
  = (Return true, (tick (fst (snd after_add)), snd (snd after_add))).
Proof.
  apply (proj2 (proj2 (proj2 (cache_round_trip (demo_env reply_ok) url_a)))
           ["out"; "a.zip"] (world_of fs_downloaded) cm_empty
           (path_div demo_cache_dir demo_cache_name)
           (fst (snd after_add)) (snd (snd after_add))).
  - by_evaluation.
  - reflexivity.
  - reflexivity.
  - reflexivity.
  - by_evaluation.
  - vm_compute. discriminate.
Defined.

(** C7, the claim as stated fails: the entry for [a.zip] is 40 days old and
    the cache directory, with the backing file in it, was removed; the
    eviction cannot rewrite the index file and [is_cached] raises. *)
Lemma is_cached_raises_when_eviction_fails :
  index (cm_cached 0) !! _get_cache_key (demo_env reply_ok) url_a = Some (demo_info 0)
  ∧ path_exists fs_no_cache_dir
                (path_div (cache_dir (cm_cached 0)) (info_filename (demo_info 0))) = false
  ∧ fst (is_cached (demo_env reply_ok) url_a (world_of fs_no_cache_dir, cm_cached 0))
    = Raise (FileNotFoundError ["out"; ".cache"; "cache_index.json"]).
Proof. vm_compute. repeat split. Qed.

(** C7 as amended, at a concrete input: a fresh entry (one day old) whose
    file is gone. *)
Lemma is_cached_missing_file_witness :
  ∃ s', is_cached (demo_env reply_ok) url_a
                  (world_of fs_empty_cache, cm_cached (39 * day))
        = (Return false, s').
Proof.
  apply (is_cached_missing_file (demo_env reply_ok) url_a
           (world_of fs_empty_cache) (cm_cached (39 * day)) (demo_info (39 * day))).
  - by_evaluation.
  - by_evaluation.
  - left. vm_compute. discriminate.
Defined.

(** C9, the claim as stated fails: a directory lies where the cached
    [a.zip] is expected.  The deletion raises, the entry stays in the index
    and nothing has changed; the second call raises as the first did. *)
Lemma remove_cache_raises_twice :
  index (cm_cached (39 * day)) !! _get_cache_key (demo_env reply_ok) url_a
  = Some (demo_info (39 * day))
  ∧ remove_cache (demo_env reply_ok) url_a (world_of fs_cached_is_dir, cm_cached (39 * day))
    = (Raise (IsADirectoryError (path_div demo_cache_dir demo_cache_name)),
       (world_of fs_cached_is_dir, cm_cached (39 * day)))
  ∧ fst (remove_cache (demo_env reply_ok) url_a
           (snd (remove_cache (demo_env reply_ok) url_a
                   (world_of fs_cached_is_dir, cm_cached (39 * day)))))
    = Raise (IsADirectoryError (path_div demo_cache_dir demo_cache_name))
  ∧ index (snd (snd (remove_cache (demo_env reply_ok) url_a
                       (world_of fs_cached_is_dir, cm_cached (39 * day)))))
      !! _get_cache_key (demo_env reply_ok) url_a
    = Some (demo_info (39 * day)).
Proof. split_and!; by_evaluation. Qed.

(** C9 as amended, at concrete inputs: the cached [a.zip] is removed twice;
    and with a directory in its place both calls raise. *)
Lemma remove_cache_idempotent_witness :
  (index (snd (snd after_remove)) !! _get_cache_key (demo_env reply_ok) url_a = None
   ∧ remove_cache (demo_env reply_ok) url_a (snd after_remove)
     = (Return tt, snd after_remove))
  ∧ ∃ cache_info,
      index (cm_cached (39 * day)) !! _get_cache_key (demo_env reply_ok) url_a
      = Some cache_info
      ∧ (((world_of fs_cached_is_dir, cm_cached (39 * day))
          = (world_of fs_cached_is_dir, cm_cached (39 * day))
          ∧ unlink (w_fs (world_of fs_cached_is_dir))
                   (path_div (cache_dir (cm_cached (39 * day)))
                             (info_filename cache_info))
            = (Raise (IsADirectoryError (path_div demo_cache_dir demo_cache_name)),
               w_fs (world_of fs_cached_is_dir))
          ∧ remove_cache (demo_env reply_ok) url_a
                         (world_of fs_cached_is_dir, cm_cached (39 * day))
            = (Raise (IsADirectoryError (path_div demo_cache_dir demo_cache_name)),
               (world_of fs_cached_is_dir, cm_cached (39 * day))))
         ∨ (index (snd (world_of fs_cached_is_dir, cm_cached (39 * day)))
            = delete (_get_cache_key (demo_env reply_ok) url_a)
                     (index (cm_cached (39 * day)))
            ∧ open_for_write (w_fs (fst (world_of fs_cached_is_dir,
                                         cm_cached (39 * day))))
                             (index_file (cm_cached (39 * day)))
              = Raise (IsADirectoryError (path_div demo_cache_dir demo_cache_name))
            ∧ remove_cache (demo_env reply_ok) url_a
                           (world_of fs_cached_is_dir, cm_cached (39 * day))
              = (Return tt, (world_of fs_cached_is_dir, cm_cached (39 * day))))).
Proof.
  split.
  - apply (proj1 (proj2 (remove_cache_idempotent (demo_env reply_ok) url_a
                           (world_of fs_cached) (cm_cached (39 * day))))
             (fst (snd after_remove)) (snd (snd after_remove))).
    by_evaluation.
  - apply (proj2 (proj2 (remove_cache_idempotent (demo_env reply_ok) url_a
                           (world_of fs_cached_is_dir) (cm_cached (39 * day))))
             (IsADirectoryError (path_div demo_cache_dir demo_cache_name))
             (world_of fs_cached_is_dir, cm_cached (39 * day))).
    by_evaluation.
Defined.

(** C1, the claim as stated fails, in two ways.  The entry for [a.zip] is
    one day old and its file is in the cache, but the destination lies under
    a regular file: the copy raises and the task reports a failure, not
    served from the cache.  And an entry that is 30 days old to the
    microsecond at the first reading of the clock is fresh for [is_cached]
    and expired one second later for [get_cached_file], which evicts it:
    the task sends the GET. *)
Lemma cache_hit_not_served :
  (index fresh_cache !! _get_cache_key (demo_env reply_ok) url_a
   = Some (demo_info (39 * day))
   ∧ path_exists fs_cached_with_notes (path_div demo_cache_dir demo_cache_name) = true
   ∧ fst (download_file (demo_env reply_ok) url_a ["out"; "notes"; "a.zip"] true
                        (world_of fs_cached_with_notes, Some fresh_cache))
     = Return (mkResult url_a "out/notes/a.zip" false false 0
                 (Some "[Errno 20] Not a directory: 'out/notes/a.zip'")))
  ∧ (index ageing_cache !! _get_cache_key (demo_env reply_ok) url_a
     = Some (demo_info (10 * day))
     ∧ path_exists fs_cached (path_div demo_cache_dir demo_cache_name) = true
     ∧ datetime_now (demo_env reply_ok) 0 - info_date (demo_info (10 * day))
       = timedelta_days (expire_days ageing_cache)
     ∧ fst (download_file (demo_env reply_ok) url_a ["out"; "a.zip"] true
                          (world_of fs_cached, Some ageing_cache))
       = Return (mkResult url_a "out/a.zip" true false 4 None)
     ∧ w_requests (fst (snd (download_file (demo_env reply_ok) url_a
                                           ["out"; "a.zip"] true
                                           (world_of fs_cached, Some ageing_cache))))
       = [url_a]).
Proof. split; split_and!; by_evaluation. Qed.

(** C1 as amended, at a concrete input: the same entry, copied to
    [out/a.zip]. *)
Lemma cache_hit_short_circuit_witness :
  ∃ r s',
    download_file (demo_env reply_ok) url_a ["out"; "a.zip"] true
                  (world_of fs_cached, Some fresh_cache) = (Return r, s')
    ∧ w_requests (fst s') = []
    ∧ res_success r = true ∧ res_cached r = true ∧ res_error r = None.
Proof.
  apply (cache_hit_short_circuit (demo_env reply_ok) url_a ["out"; "a.zip"]
           (world_of fs_cached) fresh_cache (demo_info (39 * day))).
  - by_evaluation.
  - by_evaluation.
  - vm_compute. discriminate.
  - vm_compute. discriminate.
Defined.

(** C2 at a concrete input: two tasks against a server that times out. *)
Lemma download_batch_complete_witness :
  ∃ results s',
    download_batch (demo_env reply_timeout) (@rev Task) two_tasks true
                   (world_of fs_empty_cache, Some cm_empty) = (Return results, s')
    ∧ length results = 2%nat
    ∧ map result_task results = map task_tag (rev two_tasks)
    ∧ Permutation (map result_task results) (map task_tag two_tasks)
    ∧ Forall failure_explained results.
Proof.
  apply (download_batch_complete (demo_env reply_timeout)).
  - intros n url. vm_compute. discriminate.
  - vm_compute. apply perm_swap.
Defined.

(** The scenario of a successful download: the server sends 1024 bytes for
    [a.zip]; the result reports success and 1024 bytes, and [out/a.zip]
    holds them. *)
Example download_1024_bytes :
  let run := download_batch (demo_env reply_1024) id [(url_a, ["out"; "a.zip"])] true
                            (world_of fs_empty_cache, Some cm_empty) in
  fst run = Return [mkResult url_a "out/a.zip" true false 1024 None]
  ∧ length <$> files (w_fs (fst (snd run))) !! ["out"; "a.zip"] = Some 1024%nat.
Proof. split; by_evaluation. Qed.

(** C4, the claim as stated fails: the connection breaks after the first
    chunk; the task reports the failure and [out/a.zip], which did not exist
    before, holds the chunk. *)
Lemma broken_stream_leaves_partial_file :
  let run := download_file (demo_env reply_broken) url_a ["out"; "a.zip"] true
                           (world_of fs_empty_cache, Some cm_empty) in
  path_exists fs_empty_cache ["out"; "a.zip"] = false
  ∧ fst run
    = Return (mkResult url_a "out/a.zip" false false 0
                (Some "Connection broken: IncompleteRead(4 bytes read, 4 more expected)"))
  ∧ files (w_fs (fst (snd run))) !! ["out"; "a.zip"] = Some demo_chunk.
Proof. split_and!; by_evaluation. Qed.

(** C4 as amended, at a concrete input: the GET times out. *)
Lemma failed_fetch_result_witness :
  download_file (demo_env reply_timeout) url_a ["out"; "a.zip"] true
                (world_of fs_empty_cache, Some cm_empty)
  = (Return (set_error (initial_result url_a ["out"; "a.zip"])
               "HTTPConnectionPool(host='x', port=80): Read timed out. (read timeout=60)"),
     (requested (world_of fs_empty_cache) url_a, Some cm_empty)).
Proof.
  apply (proj1 (failed_fetch_result (demo_env reply_timeout) url_a ["out"; "a.zip"]
                  true (world_of fs_empty_cache) (Some cm_empty)
                  (or_intror eq_refl))).
  reflexivity.
Defined.

(** C5 at a concrete input: the fetch writes [out/a.zip], the cache
    directory is gone and the copy into it raises. *)
Lemma cache_write_best_effort_witness :
  ∃ r data,
    download_file (demo_env reply_ok) url_a ["out"; "a.zip"] true uncached_start
    = (Return r, uncached_stored)
    ∧ res_success r = true
    ∧ res_cached r = false
    ∧ res_error r
      = Some (exn_str (FileNotFoundError
                         (path_div demo_cache_dir demo_cache_name)))
    ∧ files (w_fs (fst uncached_stored)) !! ["out"; "a.zip"]
      = files (w_fs (fst (snd uncached_fetched))) !! ["out"; "a.zip"]
    ∧ files (w_fs (fst uncached_stored)) !! ["out"; "a.zip"] = Some data
    ∧ res_size r = Z.of_nat (length data).
Proof.
  apply (cache_write_best_effort (demo_env reply_ok) url_a ["out"; "a.zip"]
           (world_of fs_no_cache_dir) cm_empty uncached_checked
           (fst uncached_fetched) (snd uncached_fetched) uncached_stored).
  - by_evaluation.
  - by_evaluation.
  - by_evaluation.
Defined.

(** Both orders give each element of the list once. *)
Lemma reversed_set_order_enumerates (xs : list string) :
  (NoDup (remove_dups xs) ∧ ∀ x, x ∈ remove_dups xs ↔ x ∈ xs)
  ∧ (NoDup (reversed_set_order xs) ∧ ∀ x, x ∈ reversed_set_order xs ↔ x ∈ xs).
Proof.
  unfold reversed_set_order. split_and!.
  - apply NoDup_remove_dups.
  - intros x. apply elem_of_remove_dups.
  - apply NoDup_ListNoDup, List.NoDup_rev, NoDup_ListNoDup, NoDup_remove_dups.
  - intros x. rewrite <- (elem_of_remove_dups xs x).
    rewrite !list_elem_of_In. symmetry. apply in_rev.
Qed.

(** C6, the claim as stated fails: the list that the multi-level crawl
    returns is not determined by the pages.  The hub links to six data
    pages and [sub_pages[:5]] follows five of them; which five depends on
    the order in which the set of the six locators is iterated. *)
Lemma crawl_level_depends_on_set_order :
  fst <$> follow_tutorial_path string demo_urljoin demo_netloc hub_level_get
                               remove_dups page_hub 3 new_level_scraper
  = Some ["1.zip"; "2.zip"; "3.zip"; "4.zip"; "5.zip"]
  ∧ fst <$> follow_tutorial_path string demo_urljoin demo_netloc hub_level_get
                                 reversed_set_order page_hub 3 new_level_scraper
    = Some ["6.zip"; "5.zip"; "4.zip"; "3.zip"; "2.zip"].
Proof. split; by_evaluation. Qed.

(** C6 at a concrete input: page A links to page B and B links back to A;
    the crawl from A returns the two resources, having visited A and then
    B, with fuel 7 as with fuel 5. *)
Lemma crawl_terminates_witness :
  demo_deep_crawl 7 page_a 0 (new_deep_scraper 3)
  = Some (["a.ipynb"; "b.zip"],
          mkDeep 3 {[page_b; page_a]} [(1, page_b); (0, page_a)]).
Proof.
  unfold demo_deep_crawl.
  destruct (proj1 (crawl_terminates demo_urljoin demo_netloc demo_deep_get
                     demo_level_get remove_dups)
              page_a 0 (new_deep_scraper 3))
    as (res & s' & Hrun & _).
  assert (crawl_fuel (max_depth (new_deep_scraper 3)) 0 = 5%nat) as Hbound
    by reflexivity.
  rewrite Hbound in Hrun.
  rewrite (Hrun 7%nat ltac:(lia)), <- (Hrun 5%nat (le_n 5)).
  by_evaluation.
Defined.

(** C8, the claim as stated fails: the start page has a download button
    that leads to another site, and the crawl from the start page visits
    the page behind it. *)
Lemma download_button_leaves_domain :
  option_map (fun r => printed (snd r))
             (follow_tutorial_path string demo_urljoin demo_netloc demo_level_get
                                   remove_dups page_start 3 new_level_scraper)
  = Some [Level 1 page_a; SubPage page_start 0 page_a; Level 1 page_elsewhere;
          ButtonClick page_start 0 page_elsewhere; Level 0 page_start]
  ∧ demo_netloc page_elsewhere ≠ demo_netloc page_start.
Proof. split; [by_evaluation|]. vm_compute. discriminate. Qed.

(** C8 as amended, at a concrete input: the lines the same crawl prints. *)
Lemma crawl_stays_in_scope_witness :
  ∃ new,
    [Level 1 page_a; SubPage page_start 0 page_a; Level 1 page_elsewhere;
     ButtonClick page_start 0 page_elsewhere; Level 0 page_start] = new ++ []
    ∧ Forall (event_within (same_domain demo_netloc) 0 3) new.
Proof.
  apply (proj2 (crawl_stays_in_scope demo_urljoin demo_netloc demo_deep_get
                  demo_level_get remove_dups
                  (fun xs x H => proj1 (elem_of_remove_dups xs x) H))
           5%nat page_start 0 3 new_level_scraper ["data.zip"; "a.ipynb"]
           (mkMulti {[page_a; page_elsewhere; page_start]}
                    [Level 1 page_a; SubPage page_start 0 page_a;
                     Level 1 page_elsewhere;
                     ButtonClick page_start 0 page_elsewhere;
                     Level 0 page_start])).
  by_evaluation.
Defined.

(** C10, the claim as stated fails: the cap cuts the name after an
    underscore, which stays at the end; and a tab is kept as it is. *)
Lemma sanitize_filename_keeps_underscore_and_tab :
  sanitize_filename long_name
  = "AAAAAAAAAAAAAAAAAAAAAAAAAAAAAAAAAAAAAAAAAAAAAAAAA_"
  ∧ ends_with_underscore (list_ascii_of_string (sanitize_filename long_name)) = true
  ∧ sanitize_filename (String "a" (String tab (String "b" EmptyString)))
    = String "a" (String tab (String "b" EmptyString)).
Proof. vm_compute. repeat split. Qed.

(** C10 as amended, at a concrete input: the name of the repository's test,
    shorter than 50 characters. *)
Lemma sanitize_filename_shape_witness :
  sanitize_filename "Tutorial: SST Analysis (v1.0)" = "Tutorial_SST_Analysis_(v1.0)"
  ∧ ends_with_underscore
      (list_ascii_of_string (sanitize_filename "Tutorial: SST Analysis (v1.0)"))
    = false
  ∧ list_ascii_of_string (sanitize_filename "Tutorial: SST Analysis (v1.0)")
    = firstn 50 (described_name
                   (list_ascii_of_string "Tutorial: SST Analysis (v1.0)"))
  ∧ kept_characters
      (list_ascii_of_string (sanitize_filename "Tutorial: SST Analysis (v1.0)"))
    = kept_characters
        (remove_forbidden (list_ascii_of_string "Tutorial: SST Analysis (v1.0)")).
Proof.
  split; [by_evaluation|].
  destruct (sanitize_filename_shape "Tutorial: SST Analysis (v1.0)")
    as (_ & _ & _ & _ & _ & Hend & Hname & _ & Hkept).
  split_and!.
  - apply Hend. vm_compute. lia.
  - apply Hname. by_evaluation.
  - apply Hkept. vm_compute. lia.
Defined.


(** X2 at a concrete input: the first request times out, the second one is
    answered after a second of sleep, and [out/a.zip] holds the body. *)
Lemma download_file_retry_success_witness :
  retry_run
  = (Return true,
     (mkWorld (set_file fs_empty_cache ["out"; "a.zip"] demo_chunk) 0 [url_a; url_a],
      1))
  ∧ ∃ k resp,
      [url_a; url_a] = repeat url_a (S k) ++ []
      ∧ http_get flaky_env (0 + k) url_a = Responds resp
      ∧ stream_error resp = None
      ∧ ¬ (400 ≤ status_code resp < 600)
      ∧ files (set_file fs_empty_cache ["out"; "a.zip"] demo_chunk) !! ["out"; "a.zip"]
        = Some (concat (chunks resp)).
Proof.
  split; [by_evaluation|].
  apply (download_file_retry_success flaky_env url_a ["out"; "a.zip"] 3
           (world_of fs_empty_cache)
           (mkWorld (set_file fs_empty_cache ["out"; "a.zip"] demo_chunk) 0
                    [url_a; url_a])
           0 1).
  by_evaluation.
Defined.

(** X6 at a concrete input: the entry for [a.zip] is 35 days old; the
    check evicts it. *)
Lemma is_cached_evicts_expired_witness :
  let cache_file := path_div (cache_dir (cm_cached (5 * day)))
                             (info_filename (demo_info (5 * day))) in
  match is_cached (demo_env reply_ok) url_a (world_of fs_cached, cm_cached (5 * day))
  with
  | (Return hit, (w', self')) =>
      hit = false
      ∧ w_clock w' = 1%nat
      ∧ index self'
        = delete (_get_cache_key (demo_env reply_ok) url_a)
                 (index (cm_cached (5 * day)))
      ∧ files (w_fs w') !! index_file (cm_cached (5 * day))
        = Some (json_dump (demo_env reply_ok) (index self'))
      ∧ (info_filename (demo_info (5 * day)) ≠ "cache_index.json" →
         is_file (w_fs w') cache_file = false)
  | (Raise e, (w', self')) =>
      is_OSError e = true
      ∧ ((w' = tick (world_of fs_cached) ∧ self' = cm_cached (5 * day))
         ∨ (index self'
            = delete (_get_cache_key (demo_env reply_ok) url_a)
                     (index (cm_cached (5 * day)))
            ∧ w_fs w' = mkFS (delete cache_file (files fs_cached)) (dirs fs_cached)))
  end.
Proof.
  apply (is_cached_evicts_expired (demo_env reply_ok) url_a (world_of fs_cached)
           (cm_cached (5 * day)) (demo_info (5 * day))); by_evaluation.
Defined.

(** X7 at a concrete input: of two entries, 35 days and one day old, the
    first is removed and the second is kept. *)
Lemma clear_expired_spec_witness :
  fst (clear_expired (demo_env reply_ok) map_to_list (world_of fs_two, cm_two))
  = Return 1%nat
  ∧ match clear_expired (demo_env reply_ok) map_to_list (world_of fs_two, cm_two) with
    | (Return n, (w', self')) =>
        w_clock w' = (0 + size (index cm_two))%nat
        ∧ index self' ⊆ index cm_two
        ∧ (∀ i key cache_info,
             map_to_list (index cm_two) !! i = Some (key, cache_info) →
             index self' !! key
             = if expired_at (expire_days cm_two)
                             (datetime_now (demo_env reply_ok) (0 + i)) cache_info
               then None else Some cache_info)
        ∧ n = (size (index cm_two) - size (index self'))%nat
    | (Raise e, (w', self')) =>
        is_OSError e = true
        ∧ w_clock w' = (0 + size (index cm_two))%nat
        ∧ index self' ⊆ index cm_two
    end.
Proof.
  split; [by_evaluation|].
  apply (clear_expired_spec (demo_env reply_ok) map_to_list (world_of fs_two) cm_two).
  - reflexivity.
  - apply map_Forall_insert_2; [reflexivity|].
    apply map_Forall_singleton. reflexivity.
Defined.


(** ** The further properties at concrete inputs *)

(** X1 at a concrete input: three rounds against the server that times out
    once. *)
Lemma download_file_retry_bounds_witness :
  ∃ ok w' n,
    download_file_retry flaky_env url_a ["out"; "a.zip"] 3 (world_of fs_empty_cache, 0)
    = (Return ok, (w', 0 + backoff_before n))
    ∧ w_requests w' = repeat url_a n ++ w_requests (world_of fs_empty_cache)
    ∧ (n ≤ Z.to_nat 3)%nat
    ∧ w_clock w' = w_clock (world_of fs_empty_cache)
    ∧ (ok = false → n = Z.to_nat 3)
    ∧ (3 ≤ 0 → ok = false ∧ w' = world_of fs_empty_cache).
Proof.
  exact (download_file_retry_bounds flaky_env url_a ["out"; "a.zip"] 3
           (world_of fs_empty_cache) 0).
Defined.

(** X3 at a concrete input: the two archives of the example page. *)
Lemma extract_resources_names_witness :
  Forall (fun r =>
            resource_filename r ≠ ""
            ∧ str_contains "/" (resource_filename r) = false
            ∧ str_contains "?" (resource_filename r) = false
            ∧ str_contains "." (resource_type r) = false)
         (extract_resources demo_tutorial_url demo_hrefs)
  ∧ length (extract_resources demo_tutorial_url demo_hrefs)
    = length (List.filter (href_matches file_patterns) demo_hrefs).
Proof. exact (extract_resources_names demo_tutorial_url demo_hrefs). Defined.


(** X5 at a concrete input: the fresh entry for [a.zip]. *)
Lemma get_cached_file_sound_witness :
  match get_cached_file (demo_env reply_ok) url_a (world_of fs_cached, fresh_cache)
  with
  | (Return (Some p), (w', self')) =>
      w' = tick (world_of fs_cached) ∧ self' = fresh_cache
      ∧ ∃ cache_info,
          index fresh_cache !! _get_cache_key (demo_env reply_ok) url_a
          = Some cache_info
          ∧ expired_at (expire_days fresh_cache)
                       (datetime_now (demo_env reply_ok)
                                     (w_clock (world_of fs_cached)))
                       cache_info
            = false
          ∧ p = path_div (cache_dir fresh_cache) (info_filename cache_info)
          ∧ path_exists (w_fs (world_of fs_cached)) p = true
  | (Return None, (w', self')) =>
      match index fresh_cache !! _get_cache_key (demo_env reply_ok) url_a with
      | None => w' = world_of fs_cached ∧ self' = fresh_cache
      | Some cache_info =>
          if expired_at (expire_days fresh_cache)
                        (datetime_now (demo_env reply_ok)
                                      (w_clock (world_of fs_cached)))
                        cache_info
          then index self'
               = delete (_get_cache_key (demo_env reply_ok) url_a)
                        (index fresh_cache)
          else w' = tick (world_of fs_cached) ∧ self' = fresh_cache
               ∧ path_exists (w_fs (world_of fs_cached))
                   (path_div (cache_dir fresh_cache) (info_filename cache_info))
                 = false
      end
  | (Raise e, _) =>
      is_OSError e = true
      ∧ ∃ cache_info,
          index fresh_cache !! _get_cache_key (demo_env reply_ok) url_a
          = Some cache_info
          ∧ expired_at (expire_days fresh_cache)
                       (datetime_now (demo_env reply_ok)
                                     (w_clock (world_of fs_cached)))
                       cache_info
            = true
  end.
Proof.
  exact (get_cached_file_sound (demo_env reply_ok) url_a (world_of fs_cached)
           fresh_cache).
Defined.

(** X8 at a concrete input: a download without a cache. *)
Lemma download_file_effects_witness :
  ∃ r w' cm',
    download_file (demo_env reply_ok) url_a ["out"; "a.zip"] false
                  (world_of fs_empty_cache, Some cm_empty)
    = (Return r, (w', cm'))
    ∧ (w_requests w' = w_requests (world_of fs_empty_cache)
       ∨ w_requests w' = url_a :: w_requests (world_of fs_empty_cache))
    ∧ (res_cached r = true →
       res_success r = true ∧ res_error r = None
       ∧ w_requests w' = w_requests (world_of fs_empty_cache)
       ∧ false = true ∧ is_Some (Some cm_empty))
    ∧ (res_success r = false → res_cached r = false ∧ res_size r = 0)
    ∧ (false = false ∨ Some cm_empty = None →
       w_requests w' = url_a :: w_requests (world_of fs_empty_cache)
       ∧ w_clock w' = w_clock (world_of fs_empty_cache) ∧ cm' = Some cm_empty).
Proof.
  exact (download_file_effects (demo_env reply_ok) url_a ["out"; "a.zip"] false
           (world_of fs_empty_cache) (Some cm_empty)).
Defined.


(** X10 at a concrete input: a name that ends in [.tar.gz] is reported with
    the extension [.tar]. *)
Lemma extract_file_info_extension_witness :
  fi_extension (extract_file_info (demo_env reply_ok) demo_url_path demo_head
                                  demo_disposition "http://x/files/data.tar.gz" "")
  = Some ".tar"
  ∧ (let info := extract_file_info (demo_env reply_ok) demo_url_path demo_head
                                   demo_disposition "http://x/files/data.tar.gz" "" in
     match fi_extension info with
     | Some ext => In ext reported_extensions ∧ In ext target_extensions
     | None => True
     end
     ∧ fi_url info = "http://x/files/data.tar.gz"
     ∧ (String.length (fi_link_text info) ≤ 100)%nat).
Proof.
  split; [by_evaluation|].
  exact (extract_file_info_extension (demo_env reply_ok) demo_url_path demo_head
           demo_disposition "http://x/files/data.tar.gz" "").
Defined.

(** X11 at a concrete input: the notebook that was found twice is kept
    once. *)
Lemma unique_by_url_dedup_witness :
  unique_by_url fi_url [info_notebook; info_archive; info_notebook] ∅ []
  = [info_notebook; info_archive]
  ∧ (let unique_resources :=
       unique_by_url fi_url [info_notebook; info_archive; info_notebook] ∅ [] in
     NoDup (map fi_url unique_resources)
     ∧ unique_resources `sublist_of` [info_notebook; info_archive; info_notebook]
     ∧ (∀ r, r ∈ [info_notebook; info_archive; info_notebook] →
             fi_url r ∈ map fi_url unique_resources)
     ∧ (NoDup (map fi_url [info_notebook; info_archive; info_notebook]) →
        unique_resources = [info_notebook; info_archive; info_notebook])).
Proof.
  split; [by_evaluation|].
  exact (unique_by_url_dedup fi_url [info_notebook; info_archive; info_notebook]).
Defined.

(** X12 at a concrete input: the tally by extension of the two. *)
Lemma tally_counts_witness :
  (∀ k, tally fi_extension [info_notebook; info_archive] ∅ !! k
        = if count_key fi_extension k [info_notebook; info_archive] =? 0 then None
          else Some (count_key fi_extension k [info_notebook; info_archive]))
  ∧ tally_total (tally fi_extension [info_notebook; info_archive] ∅)
    = Z.of_nat (length [info_notebook; info_archive]).
Proof. exact (tally_counts fi_extension [info_notebook; info_archive]). Defined.

(** X13 at a concrete input: a session on a web where only the first start
    locator loads. *)
Lemma scrape_session_witness :
  ∃ results self',
    (∀ fuel, (crawl_fuel (max_depth (new_deep_scraper 2)) 0 ≤ fuel)%nat →
             scrape_copernicus_resources demo_urljoin demo_netloc demo_info_get
                                         fuel (new_deep_scraper 2)
             = Some (results, self'))
    ∧ NoDup (map fi_url (resources results))
    ∧ total_found results = Z.of_nat (length (resources results))
    ∧ tally_total (by_extension results) = total_found results
    ∧ tally_total (by_source results) = total_found results
    ∧ max_depth self' = max_depth (new_deep_scraper 2)
    ∧ ∃ new,
        crawl_log self' = new ++ crawl_log (new_deep_scraper 2)
        ∧ visited_urls self'
          = list_to_set (map snd new) ∪ visited_urls (new_deep_scraper 2)
        ∧ NoDup (map snd new)
        ∧ (∀ u, u ∈ map snd new → u ∉ visited_urls (new_deep_scraper 2))
        ∧ Forall (session_visit demo_netloc start_urls
                                (max_depth (new_deep_scraper 2))) new.
Proof.
  exact (scrape_session demo_urljoin demo_netloc demo_info_get (new_deep_scraper 2)).
Defined.


(** X15 at a concrete input: a name that climbs out of the folder is
    flattened. *)
Lemma safe_filename_in_folder_witness :
  safe_filename_of ascii_word 2 info_archive = ".._.._a.zip"
  ∧ safe_filename_of ascii_word 2 info_archive ≠ ""
  ∧ str_contains "/" (safe_filename_of ascii_word 2 info_archive) = false.
Proof.
  split; [by_evaluation|].
  apply (safe_filename_in_folder ascii_word 2 info_archive).
  - reflexivity.
  - lia.
  - intros extension [= <-]. reflexivity.
Defined.

(** X16 at a concrete input: four elements give two tutorials. *)
Lemma extract_tutorial_links_distinct_witness :
  map tl_folder (extract_tutorial_links demo_elements)
  = ["01_SST_Analysis"; "02_Tutorial_2"]
  ∧ (let tutorials := extract_tutorial_links demo_elements in
     map tl_id tutorials = numbered_from 1 (length tutorials)
     ∧ NoDup (map tl_url tutorials)
     ∧ NoDup (map tl_folder tutorials)
     ∧ Forall (fun t => String.prefix "http" (tl_url t) = true) tutorials
     ∧ (length tutorials ≤ length demo_elements)%nat).
Proof.
  split; [by_evaluation|].
  exact (extract_tutorial_links_distinct demo_elements).
Defined.

(** X17 at a concrete input: the loop over the start page and page A of
    the small web. *)
Lemma follow_each_session_witness :
  ∃ res s',
    follow_each demo_urljoin demo_netloc demo_level_get remove_dups
                [page_start; page_a] [] new_level_scraper
    = Some (res, s')
    ∧ ∃ new,
        printed s' = new ++ printed new_level_scraper
        ∧ visited s' = list_to_set (omap event_visit new) ∪ visited new_level_scraper
        ∧ NoDup (omap event_visit new)
        ∧ (∀ u, u ∈ omap event_visit new → u ∉ visited new_level_scraper)
        ∧ Forall (event_within (same_domain demo_netloc) 0 2) new.
Proof.
  apply (follow_each_session demo_urljoin demo_netloc demo_level_get remove_dups
           [page_start; page_a] [] new_level_scraper).
  intros xs x H. exact (proj1 (elem_of_remove_dups xs x) H).
Defined.

(** X18 at a concrete input: the crawl from page A returns what pages A
    and B hold, in this order. *)
Lemma deep_crawl_results_witness :
  ∃ new,
    [(1, page_b); (0, page_a)] = new ++ []
    ∧ ["a.ipynb"; "b.zip"] = flat_map (found_on demo_deep_get) (rev new).
Proof.
  apply (deep_crawl_results demo_urljoin demo_netloc demo_deep_get 5 page_a 0
           (new_deep_scraper 3)
           (mkDeep 3 {[page_b; page_a]} [(1, page_b); (0, page_a)])
           ["a.ipynb"; "b.zip"]).
  by_evaluation.
Defined.

(** X19 at a concrete input: the long name of the examples, whose result
    ends with an underscore. *)
Lemma sanitize_filename_idempotent_witness :
  sanitize_filename (sanitize_filename long_name) ≠ sanitize_filename long_name
  ∧ (let name := sanitize_filename long_name in
     sanitize_filename name = name
     ↔ ends_with_underscore (list_ascii_of_string name) = false).
Proof.
  split; [vm_compute; discriminate|].
  exact (sanitize_filename_idempotent long_name).
Defined.

(** X20 at a concrete input: [a.zip] is downloaded through an empty cache
    and then once more, into [out/copy.zip]. *)
Lemma cached_redownload_witness :
  ∃ data r2 w2,
    files (w_fs first_world)
      !! path_div (cache_dir cm_empty)
                  (_get_cache_key (demo_env reply_ok) url_a +:+ "_"
                     +:+ path_name ["out"; "a.zip"])
    = Some data
    ∧ res_size first_result = Z.of_nat (length data)
    ∧ download_file (demo_env reply_ok) url_a ["out"; "copy.zip"] true
                    (first_world, Some first_cache)
      = (Return r2, (w2, Some first_cache))
    ∧ w_requests w2 = w_requests first_world
    ∧ match fst (copy2 (w_fs first_world)
                       (path_div (cache_dir cm_empty)
                                 (_get_cache_key (demo_env reply_ok) url_a +:+ "_"
                                    +:+ path_name ["out"; "a.zip"]))
                       ["out"; "copy.zip"]) with
      | Return _ =>
          res_success r2 = true ∧ res_cached r2 = true ∧ res_error r2 = None
          ∧ files (w_fs w2)
              !! copy2_target (w_fs first_world)
                   (path_div (cache_dir cm_empty)
                             (_get_cache_key (demo_env reply_ok) url_a +:+ "_"
                                +:+ path_name ["out"; "a.zip"]))
                   ["out"; "copy.zip"]
            = Some data
      | Raise e =>
          res_success r2 = false ∧ res_cached r2 = false
          ∧ res_error r2 = Some (exn_str e) ∧ w_fs w2 = w_fs first_world
      end.
Proof.
  apply (cached_redownload (demo_env reply_ok) url_a ["out"; "a.zip"]
           ["out"; "copy.zip"] (world_of fs_empty_cache) first_world cm_empty
           first_cache first_result).
  - by_evaluation.
  - by_evaluation.
  - by_evaluation.
  - by_evaluation.
  - by_evaluation.
  - vm_compute. discriminate.
  - vm_compute. discriminate.
  - vm_compute. discriminate.
Defined.
